(** * GoLismero audit orchestration core: scope, message bus, workers, audits

    A shallow embedding of the parts of
    [golismero/main/scope.py], [golismero/managers/processmanager.py] and
    [golismero/managers/auditmanager.py] that decide the properties stated
    about target classification, message routing, the worker bootstrap and
    the per-audit coordinator, followed by the theorems about them. *)

From stdpp Require Import gmap strings list fin_maps pretty.
From Stdlib Require Import ZArith Ascii String.

Local Open Scope string_scope.
Local Open Scope list_scope.
Local Open Scope Z_scope.

(** ** Python-level plumbing shared by all modules *)

(** The exceptions the modelled code distinguishes.  [except Exception]
    catches [Exception] only; [KeyboardInterrupt] and [SystemExit] derive
    from [BaseException] and are caught by a bare [except:] alone. *)
Inductive exn : Type :=
  | Exception (kind msg : string)
  | KeyboardInterrupt
  | SystemExit (code : Z).

Definition is_Exception (e : exn) : bool :=
  match e with Exception _ _ => true | _ => false end.

Inductive result (A : Type) : Type :=
  | Ok (a : A)
  | Raise (e : exn).
Arguments Ok {A} a.
Arguments Raise {A} e.

(** Computations over a state [S] that may raise. *)
Definition ST (S A : Type) : Type := S → result A * S.

Definition ret {S A} (a : A) : ST S A := fun s => (Ok a, s).
Definition raise {S A} (e : exn) : ST S A := fun s => (Raise e, s).
Definition lift {S A} (r : result A) : ST S A := fun s => (r, s).
Definition bind {S A B} (c : ST S A) (k : A → ST S B) : ST S B :=
  fun s => match c s with
           | (Ok a, s') => k a s'
           | (Raise e, s') => (Raise e, s')
           end.
Definition get {S} : ST S S := fun s => (Ok s, s).
Definition modify {S} (f : S → S) : ST S unit := fun s => (Ok tt, f s).

Notation "'let*' x := c 'in' k" := (bind c (fun x => k))
  (at level 10, x name, c at level 100, k at level 200, only parsing).

(** [try: body finally: fin]: [fin] always runs; an exception it raises
    replaces the outcome of [body]. *)
Definition try_finally {S A} (body : ST S A) (fin : ST S unit) : ST S A :=
  fun s => match body s with
           | (r, s') => match fin s' with
                        | (Ok _, s'') => (r, s'')
                        | (Raise e, s'') => (Raise e, s'')
                        end
           end.

(** [try: body except <catches>, e: handler e] *)
Definition try_except {S A} (body : ST S A) (catches : exn → bool)
           (handler : exn → ST S A) : ST S A :=
  fun s => match body s with
           | (Raise e, s') => if catches e then handler e s' else (Raise e, s')
           | ok => ok
           end.

Definition when {S} (b : bool) (c : ST S unit) : ST S unit :=
  if b then c else ret tt.

(** [for x in l: body x] *)
Fixpoint for_each {S A} (l : list A) (body : A → ST S unit) : ST S unit :=
  match l with
  | [] => ret tt
  | x :: l' => let* _ := body x in for_each l' body
  end.

Definition exit {S A} (code : Z) : ST S A := raise (SystemExit code).

(** ** [golismero/main/scope.py] *)

Module Scope.

(** *** String helpers mirroring the [str] methods the module calls *)

Definition in_range (lo hi c : ascii) : bool :=
  (N.leb (N_of_ascii lo) (N_of_ascii c)) && (N.leb (N_of_ascii c) (N_of_ascii hi)).

(** [[A-Za-z0-9]] *)
Definition is_alnum (c : ascii) : bool :=
  in_range "A" "Z" c || in_range "a" "z" c || in_range "0" "9" c.

(** [[A-Za-z0-9\_\-\.]] *)
Definition is_domain_char (c : ascii) : bool :=
  is_alnum c || Ascii.eqb c "_" || Ascii.eqb c "-" || Ascii.eqb c ".".

(** [$] matches at the very end and also just before a final newline. *)
Definition at_end (s : string) : bool :=
  match s with
  | EmptyString => true
  | String c EmptyString => Ascii.eqb c "010"
  | _ => false
  end.

(** [[A-Za-z0-9\_\-\.]*[A-Za-z0-9]$] *)
Fixpoint re_tail (s : string) : bool :=
  match s with
  | EmptyString => false
  | String c rest =>
      (is_alnum c && at_end rest) || (is_domain_char c && re_tail rest)
  end.

(** [_re_is_domain.match(target)] for
    [^[A-Za-z0-9][A-Za-z0-9\_\-\.]*[A-Za-z0-9]$]. *)
Definition _re_is_domain (target : string) : bool :=
  match target with
  | EmptyString => false
  | String c rest => is_alnum c && re_tail rest
  end.

Definition lower_char (c : ascii) : ascii :=
  if in_range "A" "Z" c then ascii_of_N (N_of_ascii c + 32) else c.

Fixpoint lower (s : string) : string :=
  match s with
  | EmptyString => EmptyString
  | String c rest => String (lower_char c) (lower rest)
  end.

Definition startswith (s p : string) : bool := String.prefix p s.

Fixpoint last_char (s : string) : option ascii :=
  match s with
  | EmptyString => None
  | String c EmptyString => Some c
  | String _ rest => last_char rest
  end.

Definition endswith_char (s : string) (c : ascii) : bool :=
  match last_char s with
  | Some d => Ascii.eqb c d
  | None => false
  end.

Fixpoint drop_last (s : string) : string :=
  match s with
  | EmptyString => EmptyString
  | String _ EmptyString => EmptyString
  | String c rest => String c (drop_last rest)
  end.

(** [target[1:-1]] *)
Definition slice_1_m1 (s : string) : string :=
  match s with
  | EmptyString => EmptyString
  | String _ rest => drop_last rest
  end.

Fixpoint rev_string_acc (s acc : string) : string :=
  match s with
  | EmptyString => acc
  | String c rest => rev_string_acc rest (String c acc)
  end.

(** [s.endswith(suffix)] *)
Definition endswith (s suffix : string) : bool :=
  String.prefix (rev_string_acc suffix "") (rev_string_acc s "").

(** [s.split(".")] *)
Fixpoint split_dot_acc (s cur : string) : list string :=
  match s with
  | EmptyString => [rev_string_acc cur ""]
  | String c rest =>
      if Ascii.eqb c "." then rev_string_acc cur "" :: split_dot_acc rest ""
      else split_dot_acc rest (String c cur)
  end.
Definition split_dot (s : string) : list string := split_dot_acc s "".

(** *** The scope object *)

Record AuditScope : Type := mkScope {
  domains   : gset string;   (* Domain names. *)
  roots     : gset string;   (* Domain names for subdomain matching. *)
  addresses : gset string;   (* IP addresses. *)
  web_pages : gset string    (* URLs. *)
}.

Definition empty_scope : AuditScope := mkScope ∅ ∅ ∅ ∅.

Record AuditConfig : Type := mkConfig {
  targets : list string;
  include_subdomains : bool
}.

Section WithParsers.

  (** The address, network and URL parsers come from [netaddr] and
      [api/net/web_utils.py], and the resolver from [api/net/dns.py];
      none of them is part of the sources, so each is a parameter.
      A parser returns [None] (or [false]) where the original raises. *)
Variable IPAddress : string → option Z → bool.
Variable IPNetwork : string → option (list string).      (* iter_hosts() *)
Variable ParsedURL : string → option (string * string).  (* (url, host) *)
Variable split_hostname : string → string * string * string.
Variable DNS_get_a DNS_get_aaaa : string → list string.

  (** The [try: ... IPAddress(...) ... except Exception: address = None]
      block shared by [add_targets] and [__contains__]. *)
Definition parse_address (target : string) : option string :=
    if startswith target "[" && endswith_char target "]" then
      if IPAddress (slice_1_m1 target) (Some 6) then Some (slice_1_m1 target)
      else None
    else
      if IPAddress target None then Some target else None.

  (** One iteration of [for target in audit_config.targets], on the pair
      (scope, new_domains). *)
Definition add_target (acc : AuditScope * gset string) (target : string)
    : AuditScope * gset string :=
    let '(sc, new_domains) := acc in
    (* If it's a domain name... *)
    if _re_is_domain target then
      let target := lower target in
      if decide (target ∈ domains sc) then (sc, new_domains)
      else
        (mkScope ({[target]} ∪ domains sc) (roots sc) (addresses sc)
                 ({["http://" +:+ target +:+ "/"]} ∪ web_pages sc),
         {[target]} ∪ new_domains)
    (* If it's an IP address... *)
    else
      match parse_address target with
      | Some address =>
          (mkScope (domains sc) (roots sc) ({[address]} ∪ addresses sc)
                   ({["http://" +:+ address +:+ "/"]} ∪ web_pages sc),
           new_domains)
      | None =>
          (* If it's an IP network... *)
          match IPNetwork target with
          | Some hosts =>
              (foldl (fun s address =>
                        mkScope (domains s) (roots s)
                                ({[address]} ∪ addresses s)
                                ({["http://" +:+ address +:+ "/"]} ∪ web_pages s))
                     sc hosts,
               new_domains)
          | None =>
              (* If it's an URL... *)
              match ParsedURL target with
              | Some (url, host) =>
                  let sc := mkScope (domains sc) (roots sc) (addresses sc)
                                    ({[url]} ∪ web_pages sc) in
                  match parse_address host with
                  | Some host =>
                      (mkScope (domains sc) (roots sc)
                               ({[host]} ∪ addresses sc) (web_pages sc),
                       new_domains)
                  | None =>
                      let host := lower host in
                      if decide (host ∈ domains sc) then (sc, new_domains)
                      else
                        (mkScope ({[host]} ∪ domains sc) (roots sc)
                                 (addresses sc) (web_pages sc),
                         {[host]} ∪ new_domains)
                  end
              | None => (sc, new_domains)
              end
          end
      end.

  (** The inner [for part in reversed(subdomain.split("."))] loop. *)
Fixpoint add_parents (parts : list string) (prefix : string)
           (acc : AuditScope * gset string) : AuditScope * gset string :=
    match parts with
    | [] => acc
    | part :: parts' =>
        let '(sc, new_domains) := acc in
        let new_domains :=
          if decide (prefix ∈ roots sc) then new_domains
          else if decide (prefix ∈ domains sc) then new_domains
          else {[prefix]} ∪ new_domains in
        let sc := mkScope ({[prefix]} ∪ domains sc) ({[prefix]} ∪ roots sc)
                          (addresses sc) (web_pages sc) in
        add_parents parts' (part +:+ "." +:+ prefix) (sc, new_domains)
    end.

  (** One iteration of [for hostname in new_domains.copy()]. *)
Definition add_roots (acc : AuditScope * gset string) (hostname : string)
    : AuditScope * gset string :=
    let '(subdomain, domain, suffix) := split_hostname hostname in
    if String.eqb subdomain "" then
      let '(sc, new_domains) := acc in
      (mkScope (domains sc) ({[hostname]} ∪ roots sc) (addresses sc)
               (web_pages sc), new_domains)
    else
      add_parents (rev (split_dot subdomain)) (domain +:+ "." +:+ suffix) acc.

  (** The resolution loop: the first domain with neither an A nor an AAAA
      record aborts with a [RuntimeError]. *)
Fixpoint resolve (ds : list string) (sc : AuditScope) : result AuditScope :=
    match ds with
    | [] => Ok sc
    | domain :: ds' =>
        let resolved_4 := DNS_get_a domain in
        let resolved_6 := DNS_get_aaaa domain in
        let sc := mkScope (domains sc) (roots sc)
                          (list_to_set resolved_6 ∪
                           (list_to_set resolved_4 ∪ addresses sc))
                          (web_pages sc) in
        match resolved_4, resolved_6 with
        | [], [] =>
            Raise (Exception "RuntimeError"
                             ("Aborting audit: cannot resolve: " +:+ domain))
        | _, _ => resolve ds' sc
        end
    end.

Definition add_targets (sc : AuditScope) (audit_config : AuditConfig)
             (dns_resolution : Z) : result AuditScope :=
    if negb ((dns_resolution =? 0) || (dns_resolution =? 1) ||
             (dns_resolution =? 2)) then
      Raise (Exception "ValueError"
                       "Argument 'dns_resolution' can only be 0, 1 or 2")
    else
      let '(sc, new_domains) :=
        foldl add_target (sc, ∅) (targets audit_config) in
      let '(sc, new_domains) :=
        if include_subdomains audit_config then
          foldl add_roots (sc, new_domains) (elements new_domains)
        else (sc, new_domains) in
      if dns_resolution =? 0 then Ok sc
      else
        resolve (elements (if dns_resolution =? 1 then new_domains
                           else domains sc)) sc.

  (** *** Membership *)

  (** The values a caller may pass as [target]. *)
Inductive pyval : Type :=
    | PyNone
    | PyBool (b : bool)
    | PyInt (n : Z)
    | PyStr (s : string)
    | PyUnicode (s : string).

Definition truthy (v : pyval) : bool :=
    match v with
    | PyNone => false
    | PyBool b => b
    | PyInt n => negb (n =? 0)
    | PyStr s | PyUnicode s => negb (String.eqb s "")
    end.

  (** What [__contains__] does besides returning: each parser it consults
      and each warning it raises, in order. *)
Inductive event : Type :=
    | TryParsedURL (s : string)
    | TryIPAddress (s : string)
    | TryDomainRegex (s : string)
    | Warn (msg : string).

Definition __contains__ (sc : AuditScope) (target : pyval)
    : result bool * list event :=
    (* Trivial case. *)
    if negb (truthy target) then (Ok false, [])
    else
      match target with
      | PyStr s | PyUnicode s =>
          let original := s in
          (* If it's an URL... *)
          let target :=
            match ParsedURL s with
            | Some (_, host) => host
            | None => s
            end in
          (* If it's an IP address... *)
          match parse_address target with
          | Some address =>
              (Ok (bool_decide (address ∈ addresses sc)),
               [TryParsedURL s; TryIPAddress target])
          | None =>
              (* If it's a domain name... *)
              if _re_is_domain target then
                let target := lower target in
                (Ok (bool_decide (target ∈ domains sc) ||
                     existsb (fun domain => endswith target ("." +:+ domain))
                             (elements (roots sc))),
                 [TryParsedURL s; TryIPAddress target; TryDomainRegex target])
              else
                (Ok false,
                 [TryParsedURL s; TryIPAddress target; TryDomainRegex target;
                  Warn ("Can't determine if this is out of scope or not: "
                        +:+ original)])
          end
      | _ => (Raise (Exception "TypeError" "Expected str"), [])
      end.

End WithParsers.

End Scope.

(** ** Messages and data items ([messaging/codes.py], [messaging/message.py],
    [api/data]) *)

Module Messaging.

Inductive MessageType : Type :=
  | MSG_TYPE_DATA | MSG_TYPE_CONTROL | MSG_TYPE_STATUS | MSG_TYPE_RPC.

Inductive MessageCode : Type :=
  | MSG_DATA
  | MSG_CONTROL_ACK
  | MSG_CONTROL_ERROR
  | MSG_CONTROL_WARNING
  | MSG_CONTROL_STOP
  | MSG_CONTROL_STOP_AUDIT
  | MSG_STATUS (code : Z)
  | MSG_RPC (code : Z).

Inductive ResourceType : Type :=
  | RESOURCE_URL | RESOURCE_BASE_URL | RESOURCE_DOMAIN | RESOURCE_IP.

(** [data_type] together with the subtype attribute that goes with it. *)
Inductive DataType : Type :=
  | TYPE_INFORMATION (information_type : Z)
  | TYPE_RESOURCE (resource_type : ResourceType)
  | TYPE_VULNERABILITY (vulnerability_type : string).

#[local] Set Warnings "-register-all".

(** A data item: its identity hash, its type, the cached answer of
    [is_in_scope()] and the items discovered alongside it. *)
Inductive Data : Type :=
  mkData (identity : string) (data_type : DataType) (is_in_scope : bool)
         (discovered : list Data).

Definition identity (d : Data) : string :=
  match d with mkData i _ _ _ => i end.
Definition data_type (d : Data) : DataType :=
  match d with mkData _ t _ _ => t end.
Definition is_in_scope (d : Data) : bool :=
  match d with mkData _ _ s _ => s end.
Definition discovered (d : Data) : list Data :=
  match d with mkData _ _ _ l => l end.

(** An object travelling in an argument list or in a data payload: a
    [Data] instance or anything else. *)
Inductive pyobj : Type :=
  | ObjData (d : Data)
  | ObjOther (repr : string).

(** [message_info], by the shapes the modelled code builds. *)
Inductive MessageInfo : Type :=
  | InfoNone
  | InfoData (l : list pyobj)
  | InfoIdentity (ack_identity : option string)
  | InfoError (message traceback : string)
  | InfoWarnings (wlist : list string)
  | InfoBool (b : bool)
  | InfoRpc (response_queue : option Z) (argv : list pyobj).

Record Message : Type := mkMessage {
  message_type : MessageType;
  message_code : MessageCode;
  message_info : MessageInfo;
  audit_name   : option string;
  plugin_name  : option string;
  priority     : Z
}.

Definition is_ack (m : Message) : bool :=
  match message_type m, message_code m with
  | MSG_TYPE_CONTROL, MSG_CONTROL_ACK => true
  | _, _ => false
  end.

Definition is_data (m : Message) : bool :=
  match message_type m with MSG_TYPE_DATA => true | _ => false end.

Definition is_warning (m : Message) : bool :=
  match message_type m, message_code m with
  | MSG_TYPE_CONTROL, MSG_CONTROL_WARNING => true
  | _, _ => false
  end.

Definition is_stop_audit (m : Message) : bool :=
  match message_type m, message_code m with
  | MSG_TYPE_CONTROL, MSG_CONTROL_STOP_AUDIT => true
  | _, _ => false
  end.

End Messaging.

(** ** [golismero/managers/processmanager.py] *)

Module ProcessManager.
Import Messaging.

Record PluginInfo : Type := mkPluginInfo {
  info_plugin_name   : string;
  info_plugin_module : string;
  info_plugin_class  : string
}.

Record PluginContext : Type := mkContext {
  orchestrator_pid : Z;
  plugin_info      : option PluginInfo;
  ctx_audit_name   : option string
}.

(** The [plugin_name] property: [None] when not running a plugin. *)
Definition ctx_plugin_name (context : PluginContext) : option string :=
  info_plugin_name <$> plugin_info context.

(** What reaches the Orchestrator, in the order it happened: a message put
    on the queue, a message handed to [dispatch_msg] directly, or an RPC
    run in place by [rpcManager.execute_rpc]. *)
Inductive BusEvent : Type :=
  | Enqueued (m : Message)
  | Dispatched (m : Message)
  | RpcExecuted (audit : option string) (code : MessageCode) (info : MessageInfo).

(** The part of the process a call can observe or change: its own process
    id, whether the queue still accepts messages (it does not once the
    parent is gone) and the bus events so far. *)
Record World : Type := mkWorld {
  getpid      : Z;
  queue_alive : bool;
  bus         : list BusEvent
}.

Definition emit (ev : BusEvent) (w : World) : World :=
  mkWorld (getpid w) (queue_alive w) (bus w ++ [ev]).

Definition M : Type → Type := ST World.

Section WithPriorities.

  (** [MessagePriority] lives in [messaging/codes.py], which is not part
      of the sources: its three constants are parameters. *)
Variable MSG_PRIORITY_LOW MSG_PRIORITY_MEDIUM MSG_PRIORITY_HIGH : Z.

Definition send_raw_msg (context : PluginContext) (message : Message)
    : M unit :=
    fun w =>
      (* Hack for urgent messages: if we're in the same process
         as the Orchestrator, skip the queue and dispatch them now. *)
      if (MSG_PRIORITY_HIGH <=? priority message) &&
         (orchestrator_pid context =? getpid w) then
        (Ok tt, emit (Dispatched message) w)
      (* Put the message in the queue. *)
      else if queue_alive w then (Ok tt, emit (Enqueued message) w)
      (* If we reached this point we can assume the parent process is dead. *)
      else exit 1 w.

Definition send_msg (context : PluginContext) (message_type : MessageType)
             (message_code : MessageCode) (message_info : MessageInfo)
             (priority : Z) : M unit :=
    fun w =>
      if (match message_type with MSG_TYPE_RPC => true | _ => false end) &&
         (orchestrator_pid context =? getpid w) then
        (Ok tt,
         emit (RpcExecuted (ctx_audit_name context) message_code message_info) w)
      else
        send_raw_msg context
          (mkMessage message_type message_code message_info
                     (ctx_audit_name context) (ctx_plugin_name context)
                     priority) w.

Definition send_ack (context : PluginContext) (ack_identity : option string)
    : M unit :=
    send_msg context MSG_TYPE_CONTROL MSG_CONTROL_ACK
             (InfoIdentity ack_identity) MSG_PRIORITY_LOW.

  (** *** The worker entry point *)

  (** What one plugin call does, as the worker sees it: whether getting
      the plugin ready (cache reset, temporary storage, class lookup,
      import, instantiation) raised; the bus events the callback caused by
      itself; how the callback ended ([None], a list, or an exception);
      and the warnings recorded by [catch_warnings] meanwhile. *)
Record PluginRun : Type := mkRun {
    load_error      : option exn;
    emitted         : list BusEvent;
    call_outcome    : result (option (list pyobj));
    plugin_warnings : list string
  }.

  (** [TempDataStorage.on_finish] ([api/data]) is not part of the sources:
      it is a parameter, and it may raise. *)
Variable on_finish : option (list pyobj) → result (list pyobj).

Definition exn_message (e : exn) : string :=
    match e with Exception _ msg => msg | _ => "" end.

Definition format_exc (e : exn) : string :=
    match e with
    | Exception kind msg => kind +:+ ": " +:+ msg
    | KeyboardInterrupt => "KeyboardInterrupt"
    | SystemExit _ => "SystemExit"
    end.

  (** [obj.identity] *)
Definition obj_identity (o : pyobj) : result string :=
    match o with
    | ObjData d => Ok (identity d)
    | ObjOther _ => Raise (Exception "AttributeError" "identity")
    end.

Section Call.

Variable context : PluginContext.
Variable func : string.
Variable argv : list pyobj.
Variable argd : gmap string pyobj.
Variable run : PluginRun.

Definition send_error (e : exn) : M unit :=
      send_msg context MSG_TYPE_CONTROL MSG_CONTROL_ERROR
               (InfoError (exn_message e) (format_exc e)) MSG_PRIORITY_MEDIUM.

    (** The [finally] suite that follows the callback, for [recv_info]. *)
Definition recv_info_epilogue (result : option (list pyobj)) : M unit :=
      (* Get the data sent to the plugin. *)
      let* input_data :=
        match argd !! "info" with
        | Some o => ret o
        | None =>
            match argv with
            | o :: _ => ret o
            | [] => raise (Exception "IndexError" "tuple index out of range")
            end
        end in
      (* Validate and sanitize the result data. *)
      let* result := lift (on_finish result) in
      (* Always send back the input data as a result. *)
      let result := result ++ [input_data] in
      (* Send the result data to the Orchestrator. *)
      when (match result with [] => false | _ => true end)
           (try_except
              (send_msg context MSG_TYPE_DATA MSG_DATA (InfoData result)
                        MSG_PRIORITY_MEDIUM)
              is_Exception send_error).

    (** [result = None; try: result = callback(...) finally: ...] *)
Definition call_plugin : M unit :=
      fun w =>
        let w1 := mkWorld (getpid w) (queue_alive w) (bus w ++ emitted run) in
        let result :=
          match call_outcome run with Ok r => r | Raise _ => None end in
        try_finally
          (lift (match call_outcome run with
                 | Ok _ => Ok tt
                 | Raise e => Raise e
                 end))
          (when (String.eqb func "recv_info") (recv_info_epilogue result))
          w1.

Definition send_warnings : M unit :=
      when (match plugin_warnings run with [] => false | _ => true end)
           (try_except
              (send_msg context MSG_TYPE_CONTROL MSG_CONTROL_WARNING
                        (InfoWarnings (plugin_warnings run))
                        MSG_PRIORITY_MEDIUM)
              is_Exception send_error).

    (** The [finally] suite that sends back the ACK. *)
Definition ack_identity : option string :=
      if String.eqb func "recv_info" then
        match argv with
        | o :: _ =>
            match obj_identity o with Ok i => Some i | Raise _ => None end
        | [] =>
            match argd !! "information" with
            | Some o =>
                match obj_identity o with Ok i => Some i | Raise _ => None end
            | None => None
            end
        end
      else None.

Definition _bootstrap : M unit :=
      try_except
        (try_finally
           (try_except
              (try_finally
                 (let* _ := match load_error run with
                            | Some e => raise e
                            | None => ret tt
                            end in
                  call_plugin)
                 (* Send plugin warnings to the Orchestrator. *)
                 send_warnings)
              (* Tell the Orchestrator there's been an error. *)
              is_Exception send_error)
           (* Send back an ACK. *)
           (send_ack context ack_identity))
        (* On keyboard interrupt or fatal error, tell the Orchestrator we
           need to stop. *)
        (fun _ => true)
        (fun _ =>
           let* _ :=
             try_except
               (send_msg context MSG_TYPE_CONTROL MSG_CONTROL_STOP
                         (InfoBool false) MSG_PRIORITY_MEDIUM)
               (fun e => match e with SystemExit _ => false | _ => true end)
               (fun _ => ret tt) in
           exit 1).

End Call.

End WithPriorities.

(** *** Vocabulary for statements about the bus *)

(** The message an event carries, if it is a message at all. *)
Definition event_message (ev : BusEvent) : option Message :=
  match ev with
  | Enqueued m | Dispatched m => Some m
  | RpcExecuted _ _ _ => None
  end.

Definition carries (Q : Message → Prop) (ev : BusEvent) : Prop :=
  ∃ m, event_message ev = Some m ∧ Q m.

(** While the queue accepts messages, [c] leaves the process as it is but
    for events it appends to the bus, every one of which satisfies [Q]. *)
Definition appends {A} (Q : BusEvent → Prop) (c : M A) : Prop :=
  ∀ w, queue_alive w = true →
       ∃ evs, (c w).2 = mkWorld (getpid w) true (bus w ++ evs) ∧ Forall Q evs.

(** The message a call builds for a given type, code and payload. *)
Definition worker_message (context : PluginContext) ty code info prio
  : Message :=
  mkMessage ty code info (ctx_audit_name context) (ctx_plugin_name context) prio.

(** An event before the ACK: caused by the callback itself, or a message
    of the worker that is not an ACK. *)
Definition before_ack (run : PluginRun) (ev : BusEvent) : Prop :=
  ev ∈ emitted run ∨ carries (fun m => is_ack m = false) ev.

(** An event after the ACK: a message that is neither an ACK nor data. *)
Definition after_ack (ev : BusEvent) : Prop :=
  carries (fun m => is_ack m = false ∧ is_data m = false) ev.

(** *** Sample inputs *)

Definition ctx_demo : PluginContext :=
  mkContext 100 (Some (mkPluginInfo "testing/recon/spider" "spider.py" "Spider"))
            (Some "audit-1").

Definition url_demo : Data :=
  mkData "id-url-1" (TYPE_RESOURCE RESOURCE_URL) true [].

Definition found_demo : Data :=
  mkData "id-url-2" (TYPE_RESOURCE RESOURCE_URL) true [].

(** A [recv_info] call as the notifier issues it: the item alone, by
    position. *)
Definition argv_demo : list pyobj := [ObjData url_demo].

(** A callback that returns one item, one that returns nothing, one that
    raises. *)
Definition run_returns : PluginRun :=
  mkRun None [] (Ok (Some [ObjData found_demo])) [].
Definition run_returns_none : PluginRun := mkRun None [] (Ok None) [].
Definition run_raises : PluginRun :=
  mkRun None [] (Raise (Exception "ValueError" "boom")) ["deprecated call"].

(** A sanitizer that turns [None] into the empty list. *)
Definition on_finish_demo (r : option (list pyobj)) : result (list pyobj) :=
  Ok (default [] r).

End ProcessManager.

(** ** [golismero/messaging/notifier.py] *)

Module Notifier.
Import Messaging.

(** A call as the process manager receives it:
    [run_plugin(context, func, argv, argd)] without the context. *)
Definition PluginCall : Type := string * list pyobj * gmap string pyobj.

(** [AuditNotifier.__run_plugin]: the payload is the only argument and
    goes by position,
    [processManager.run_plugin(context, method, (payload,), {})]. *)
Definition __run_plugin (method : string) (payload : pyobj) : PluginCall :=
  (method, [payload], ∅).

(** [AuditNotifier.send_info] *)
Definition send_info (message_info : pyobj) : PluginCall :=
  __run_plugin "recv_info" message_info.

End Notifier.

(** ** [golismero/managers/auditmanager.py] *)

Module AuditManager.
Import Messaging.

#[global] Instance ResourceType_eq_dec : EqDecision ResourceType.
Proof. solve_decision. Defined.

#[global] Instance DataType_eq_dec : EqDecision DataType.
Proof. solve_decision. Defined.

(** *** Collaborators that are not part of the sources *)

(** The plugin manager ([managers/pluginmanager.py]), by what the audit
    reads from it: the stage bounds and the plugins by name. *)
Record TestingPlugin : Type := mkPlugin {
  plugin_stage  : Z;
  recursive     : bool;
  accepted_info : option (list DataType)   (* None: every type *)
}.

Record PluginManager : Type := mkPluginManager {
  min_stage : Z;
  max_stage : Z;
  plugins   : gmap string TestingPlugin
}.

Definition get_plugin_by_name (pluginManager : PluginManager) (name : string)
  : result TestingPlugin :=
  match plugins pluginManager !! name with
  | Some p => Ok p
  | None => Raise (Exception "KeyError" name)
  end.

(** Modelled from the spec: the audit database ([database/auditdb.py] is
    not part of the sources).  It holds at most one record per identity,
    and one progress bit per (item, plugin) and per (item, stage) pair;
    re-inserting an identity keeps a single record, the last one winning. *)
Record AuditDB : Type := mkDB {
  store       : gmap string Data;
  plugin_done : gset (string * string);
  stage_done  : gset (string * Z)
}.

Definition empty_db : AuditDB := mkDB ∅ ∅ ∅.

(** Modelled from the spec: [has(identity)], optionally restricted to one
    data type. *)
Definition has_data_key (db : AuditDB) (identity : string)
           (type : option DataType) : bool :=
  match store db !! identity, type with
  | Some _, None => true
  | Some d, Some t => bool_decide (data_type d = t)
  | None, _ => false
  end.

(** Modelled from the spec: [add(item)], insert or merge by identity. *)
Definition add_data (db : AuditDB) (data : Data) : AuditDB :=
  mkDB (<[identity data := data]> (store db)) (plugin_done db) (stage_done db).

(** Modelled from the spec: [get(identity)]. *)
Definition get_data (db : AuditDB) (identity : string) : option Data :=
  store db !! identity.

(** Modelled from the spec: [mark_plugin_finished(identity, plugin_name)]
    and [has_plugin_finished]; a pair once processed stays processed. *)
Definition mark_plugin_finished (db : AuditDB) (identity plugin_name : string)
  : AuditDB :=
  mkDB (store db) ({[(identity, plugin_name)]} ∪ plugin_done db) (stage_done db).

Definition has_plugin_finished (db : AuditDB) (identity plugin_name : string)
  : bool :=
  bool_decide ((identity, plugin_name) ∈ plugin_done db).

(** Modelled from the spec: [mark_stage_finished(identity, stage)]. *)
Definition mark_stage_finished (db : AuditDB) (identity : string) (stage : Z)
  : AuditDB :=
  mkDB (store db) (plugin_done db) ({[(identity, stage)]} ∪ stage_done db).

(** Modelled from the spec: [get_pending(stage)], every identity not yet
    marked finished at [stage]. *)
Definition get_pending_data (db : AuditDB) (stage : Z) : list string :=
  filter (fun identity => (identity, stage) ∉ stage_done db)
         (elements (dom (store db))).

(** The notifier the audit talks to.  The [notifier.py] among the sources
    is an earlier revision: it has neither [is_runnable_stage] nor
    [acknowledge], and its [notify] reads one item where the audit hands
    it a list.  The audit's notifier is therefore an interface. *)
Record AuditNotifier : Type := mkNotifier {
  notify            : Message → result Z;   (* how many plugins were notified *)
  is_runnable_stage : list Data → Z → bool;
  acknowledge_nt    : Message → result unit
}.

Definition accepts (p : TestingPlugin) (d : Data) : bool :=
  match accepted_info p with
  | None => true
  | Some types => bool_decide (data_type d ∈ types)
  end.

(** Modelled from the spec: [is_runnable_stage], whether any registered
    plugin at that stage would accept any of the pending items. *)
Definition spec_is_runnable_stage (pluginManager : PluginManager)
           (datalist : list Data) (stage : Z) : bool :=
  existsb (fun p => (plugin_stage p =? stage) && existsb (accepts p) datalist)
          ((map_to_list (plugins pluginManager)).*2).

(** Modelled from the spec: a notifier that notifies, for a data message,
    every registered plugin accepting some item of the payload. *)
Definition spec_notifier (pluginManager : PluginManager) : AuditNotifier :=
  mkNotifier
    (fun message =>
       match message_info message with
       | InfoData l =>
           let datalist : list Data :=
             omap (fun o => match o with ObjData d => Some d | _ => None end) l in
           Ok (Z.of_nat (List.length (filter (fun p => existsb (accepts p) datalist)
                                        ((map_to_list (plugins pluginManager)).*2))))
       | _ => Ok 0
       end)
    (spec_is_runnable_stage pluginManager)
    (fun _ => Ok tt).

(** *** The audit *)

Record Audit : Type := mkAudit {
  name                   : string;
  max_links              : Z;       (* audit_config.max_links *)
  current_stage          : Z;
  is_report_started      : bool;
  followed_links         : Z;
  show_max_links_warning : bool;
  expecting_ack          : Z;
  database               : AuditDB;
  outbox                 : list Message   (* orchestrator.enqueue_msg, in order *)
}.

(** [Audit.__init__] *)
Definition new_audit (audit_name : string) (config_max_links : Z)
           (pluginManager : PluginManager) : Audit :=
  mkAudit audit_name config_max_links (min_stage pluginManager) false 0 true 0
          empty_db [].

Definition set_current_stage (v : Z) (a : Audit) : Audit :=
  mkAudit (name a) (max_links a) v (is_report_started a) (followed_links a)
          (show_max_links_warning a) (expecting_ack a) (database a) (outbox a).
Definition set_is_report_started (v : bool) (a : Audit) : Audit :=
  mkAudit (name a) (max_links a) (current_stage a) v (followed_links a)
          (show_max_links_warning a) (expecting_ack a) (database a) (outbox a).
Definition set_followed_links (v : Z) (a : Audit) : Audit :=
  mkAudit (name a) (max_links a) (current_stage a) (is_report_started a) v
          (show_max_links_warning a) (expecting_ack a) (database a) (outbox a).
Definition set_show_max_links_warning (v : bool) (a : Audit) : Audit :=
  mkAudit (name a) (max_links a) (current_stage a) (is_report_started a)
          (followed_links a) v (expecting_ack a) (database a) (outbox a).
Definition set_expecting_ack (v : Z) (a : Audit) : Audit :=
  mkAudit (name a) (max_links a) (current_stage a) (is_report_started a)
          (followed_links a) (show_max_links_warning a) v (database a) (outbox a).
Definition set_database (v : AuditDB) (a : Audit) : Audit :=
  mkAudit (name a) (max_links a) (current_stage a) (is_report_started a)
          (followed_links a) (show_max_links_warning a) (expecting_ack a) v
          (outbox a).
Definition set_outbox (v : list Message) (a : Audit) : Audit :=
  mkAudit (name a) (max_links a) (current_stage a) (is_report_started a)
          (followed_links a) (show_max_links_warning a) (expecting_ack a)
          (database a) v.

(** Size of a discovery tree, and of a queue of them. *)
Fixpoint data_size (d : Data) : nat :=
  match d with
  | mkData _ _ _ l => S (list_sum (map data_size l))
  end.
Definition queue_size (queue : list Data) : nat :=
  list_sum (map data_size queue).

Definition is_url (d : Data) : bool :=
  match data_type d with
  | TYPE_RESOURCE RESOURCE_URL => true
  | _ => false
  end.

Section WithCollaborators.

  (** [MessagePriority] ([messaging/codes.py]) is not part of the sources. *)
Variable MSG_PRIORITY_LOW MSG_PRIORITY_MEDIUM MSG_PRIORITY_HIGH : Z.

Variable pluginManager : PluginManager.
Variable notifier : AuditNotifier.

  (** [ReportManager.generate_reports(notifier)]: the number of report
      plugins launched, unless it raises. *)
Variable report_manager_generate_reports : AuditNotifier → result Z.

  (** [ImportManager.import_results()], by its effect on the database. *)
Variable import_results : AuditDB → result AuditDB.

  (** The constructors of the target data types ([api/data/resource]). *)
Variable IP Domain Url : string → Data.

  (** [Audit.send_msg]: build the message and hand it to the Orchestrator. *)
Definition send_msg (message_type : MessageType) (message_code : MessageCode)
             (message_info : MessageInfo) (priority : Z) : ST Audit unit :=
    modify (fun a =>
      set_outbox (outbox a ++ [mkMessage message_type message_code message_info
                                         (Some (name a)) None priority]) a).

  (** [AuditScope.get_targets] *)
Definition get_targets (scope : Scope.AuditScope) : list Data :=
    map IP (elements (Scope.addresses scope)) ++
    map Domain (elements (Scope.domains scope)) ++
    map Url (elements (Scope.web_pages scope)).

  (** The loop of [run] that stores the targets. *)
Definition store_targets (target_data : list Data) : ST Audit unit :=
    for_each target_data (fun data =>
      modify (fun a =>
        if has_data_key (database a) (identity data) (Some (data_type data))
        then set_database (add_data (database a) data) a
        else a)).

  (** [Audit.run].  [scope] is the outcome of [AuditScope(self.config)],
      [found_plugins] that of [find_plugins], and [db] the database
      [AuditDB(self.name, self.config.audit_db)] opens.  The execution
      context saved and restored around the body, and the plugin manager's
      and notifier's own bookkeeping in between, are not part of the audit
      state. *)
Definition run (scope : result Scope.AuditScope) (found_plugins : bool)
             (db : AuditDB) : ST Audit unit :=
    (* Reset the number of unacknowledged messages. *)
    let* _ := modify (set_expecting_ack 0) in
    let* target_data :=
      (* Calculate the audit scope. *)
      let* audit_scope := lift scope in
      (* Find the plugins. *)
      let* _ := when (negb found_plugins)
                     (raise (Exception "RuntimeError"
                                       "Failed to find any plugins!")) in
      (* Create the database. *)
      let* _ := modify (set_database db) in
      (* Add the targets to the database, but only if they're new. *)
      let target_data := get_targets audit_scope in
      let* _ := store_targets target_data in
      (* Import external results. *)
      let* a := get in
      let* imported := lift (import_results (database a)) in
      let* _ := modify (set_database imported) in
      ret target_data in
    (* XXX HACK *)
    send_msg MSG_TYPE_DATA MSG_DATA (InfoData (map ObjData target_data))
             MSG_PRIORITY_MEDIUM.

  (** [Audit.generate_reports] *)
Definition generate_reports : ST Audit unit :=
    let* a := get in
    (* Check if the report generation is already started. *)
    if is_report_started a then
      raise (Exception "RuntimeError" "Why are you asking for the report twice?")
    else
      (* An ACK is expected after launching the report plugins. *)
      let* _ := modify (fun a => set_expecting_ack (expecting_ack a + 1) a) in
      try_finally
        ((* Mark the report generation as started for this audit. *)
         let* _ := modify (set_is_report_started true) in
         (* Start the report generation. *)
         let* launched := lift (report_manager_generate_reports notifier) in
         modify (fun a => set_expecting_ack (expecting_ack a + launched) a))
        (* Send the ACK after launching the report plugins. *)
        (send_msg MSG_TYPE_CONTROL MSG_CONTROL_ACK InfoNone MSG_PRIORITY_LOW).

  (** The [for stage in xrange(...)] loop of [update_stage].  It answers
      whether it left through the [return] after sending pending data,
      and, for the record, the stages whose pending data it read. *)
Fixpoint scan_stages (stages : list Z) : ST Audit (bool * list Z) :=
    match stages with
    | [] => ret (false, [])
    | stage :: rest =>
        let* _ := modify (set_current_stage stage) in
        let* a := get in
        let pending := get_pending_data (database a) stage in
        match pending with
        | [] =>
            let* r := scan_stages rest in
            ret (r.1, stage :: r.2)
        | _ =>
            (* Get the pending data. *)
            let datalist := omap (get_data (database a)) pending in
            (* If we don't have any suitable plugins... *)
            if negb (is_runnable_stage notifier datalist stage) then
              (* Mark all data as having finished this stage. *)
              let* _ :=
                for_each pending (fun identity =>
                  modify (fun a =>
                    set_database
                      (mark_stage_finished (database a) identity stage) a)) in
              (* Skip to the next stage. *)
              let* r := scan_stages rest in
              ret (r.1, stage :: r.2)
            else
              (* Send the pending data to the Orchestrator. *)
              let* _ := send_msg MSG_TYPE_DATA MSG_DATA
                                 (InfoData (map ObjData datalist))
                                 MSG_PRIORITY_MEDIUM in
              (* We're done, return. *)
              ret (true, [stage])
        end
    end.

  (** [xrange(pluginManager.min_stage, pluginManager.max_stage + 1)] *)
Definition stage_range : list Z :=
    seqZ (min_stage pluginManager)
         (max_stage pluginManager + 1 - min_stage pluginManager).

  (** [Audit.update_stage] *)
Definition update_stage : ST Audit unit :=
    let* a := get in
    (* If the reports are finished... *)
    if is_report_started a then
      (* Send the audit end message. *)
      send_msg MSG_TYPE_CONTROL MSG_CONTROL_STOP_AUDIT (InfoBool true)
               MSG_PRIORITY_MEDIUM
    (* If the reports are not yet launched... *)
    else
      (* Look for the earliest stage with pending data. *)
      let* r := scan_stages stage_range in
      if r.1 then ret tt
      else
        (* If we reached this point, we finished the last stage.
           Launch the report generation. *)
        let* _ := modify (set_current_stage (max_stage pluginManager + 1)) in
        generate_reports.

  (** The stages [update_stage] reads the pending data of, in order, when
      run on [a]. *)
Definition scanned_stages (a : Audit) : list Z :=
    if is_report_started a then []
    else match scan_stages stage_range a with
         | (Ok (_, log), _) => log
         | (Raise _, _) => []
         end.

  (** [Audit.acknowledge] *)
Definition acknowledge (message : Message) : ST Audit unit :=
    try_finally
      ((* Decrease the expected ACK count. *)
       let* _ := modify (fun a => set_expecting_ack (expecting_ack a - 1) a) in
       (* Tell the notifier about this ACK. *)
       lift (acknowledge_nt notifier message))
      ((* Check for audit stage termination. *)
       let* a := get in
       when (expecting_ack a =? 0)
            (* Update the current stage. *)
            update_stage).

  (** *** Dispatch *)

  (** The [if not database.has_data_key(data.identity)] block: count the
      link, and answer whether the data object is kept ([false] stands for
      the [continue] that skips it). *)
Definition count_link (data : Data) : ST Audit bool :=
    let* a := get in
    (* Is the data new? *)
    if negb (has_data_key (database a) (identity data) None) && is_url data then
      (* Increase the number of links followed. *)
      let* _ := modify (fun a => set_followed_links (followed_links a + 1) a) in
      let* a := get in
      (* Maximum number of links reached? *)
      if (0 <? max_links a) && (max_links a <=? followed_links a) then
        (* Show a warning, but only once. *)
        let* _ :=
          when (show_max_links_warning a)
               (let* _ := modify (set_show_max_links_warning false) in
                send_msg MSG_TYPE_CONTROL MSG_CONTROL_WARNING
                         (InfoWarnings
                            ["Maximum number of links (" +:+ pretty (max_links a)
                             +:+ ") reached! Audit: " +:+ name a])
                         MSG_PRIORITY_HIGH) in
        (* Skip this data object. *)
        ret false
      else ret true
    else ret true.

  (** The body of [for data in message.message_info], threading
      [data_for_plugins]. *)
Definition dispatch_item (message : Message) (data_for_plugins : list Data)
             (o : pyobj) : ST Audit (list Data) :=
    match o with
    | ObjOther _ =>
        (* Check the type: warn and continue. *)
        ret data_for_plugins
    | ObjData data =>
        let* keep := count_link data in
        if negb keep then ret data_for_plugins
        else
          (* Add the data to the database. *)
          let* _ := modify (fun a =>
                      set_database (add_data (database a) data) a) in
          (* If the data is in scope... *)
          if is_in_scope data then
            (* If the plugin is not recursive, mark the data as already
               processed by it. *)
            let* _ :=
              match plugin_name message with
              | Some plugin_name =>
                  if String.eqb plugin_name "" then ret tt
                  else
                    let* plugin_info :=
                      lift (get_plugin_by_name pluginManager plugin_name) in
                    when (recursive plugin_info)
                         (modify (fun a =>
                            set_database
                              (mark_plugin_finished (database a) (identity data)
                                                    plugin_name) a))
              | None => ret tt
              end in
            (* The data will be sent to the plugins. *)
            ret (data_for_plugins ++ [data])
          (* If the data is NOT in scope... *)
          else
            (* Mark the data as having completed all stages. *)
            let* _ := modify (fun a =>
                        set_database
                          (mark_stage_finished (database a) (identity data)
                                               (max_stage pluginManager)) a) in
            ret data_for_plugins
    end.

Fixpoint dispatch_items (message : Message) (l : list pyobj)
           (data_for_plugins : list Data) : ST Audit (list Data) :=
    match l with
    | [] => ret data_for_plugins
    | o :: l' =>
        let* data_for_plugins := dispatch_item message data_for_plugins o in
        dispatch_items message l' data_for_plugins
    end.

  (** The [while queue:] loop over newly discovered data, on the database,
      the [visited] set and [data_for_plugins].  [fuel] bounds the number
      of iterations; [queue_size queue] of them are enough. *)
Fixpoint discover (fuel : nat) (queue : list Data)
           (st : AuditDB * gset string * list Data)
    : AuditDB * gset string * list Data :=
    match fuel, queue with
    | O, _ | _, [] => st
    | S fuel', data :: queue' =>
        let '(db, visited, data_for_plugins) := st in
        if bool_decide (identity data ∉ visited) &&
           negb (has_data_key db (identity data) None) then
          let db := add_data db data in                (* No merging because it's new. *)
          let visited := {[identity data]} ∪ visited in (* Prevents infinite loop. *)
          let queue' := queue' ++ discovered data in    (* Recursive. *)
          if is_in_scope data then
            discover fuel' queue' (db, visited, data_for_plugins ++ [data])
          else
            discover fuel' queue'
                     (mark_stage_finished db (identity data)
                                          (max_stage pluginManager),
                      visited, data_for_plugins)
        else discover fuel' queue' st
    end.

  (** [for data in list(data_for_plugins): queue = list(data.discovered) ...] *)
Definition discover_all (originals : list Data)
             (st : AuditDB * gset string * list Data)
    : AuditDB * gset string * list Data :=
    foldl (fun st data =>
             discover (queue_size (discovered data)) (discovered data) st)
          st originals.

  (** [Audit.__dispatch_msg].  The payload of a data message is a list of
      objects (a lone [Data] instance is wrapped into a one-item list
      first, so it is a list here as well); a payload of another shape is
      not one the loop can go through. *)
Definition __dispatch_msg (message : Message) : ST Audit bool :=
    match message_type message with
    | MSG_TYPE_DATA =>
        match message_info message with
        | InfoData l =>
            (* For each data object sent... *)
            let* data_for_plugins := dispatch_items message l [] in
            (* Recursively process newly discovered data, if any. *)
            let* a := get in
            let '(db, _, data_for_plugins) :=
              discover_all data_for_plugins
                (database a,
                 list_to_set (identity <$> data_for_plugins),
                 data_for_plugins) in
            let* _ := modify (set_database db) in
            (* If we have data to be sent... *)
            match data_for_plugins with
            | [] => ret false
            | _ =>
                (* Send the message to the plugins, and track the expected
                   ACKs. *)
                let* notified :=
                  lift (notify notifier
                          (mkMessage (message_type message)
                                     (message_code message)
                                     (InfoData (map ObjData data_for_plugins))
                                     (audit_name message) (plugin_name message)
                                     (priority message))) in
                let* _ := modify (fun a =>
                            set_expecting_ack (expecting_ack a + notified) a) in
                (* Tell the Orchestrator we sent the message. *)
                ret true
            end
        | _ => raise (Exception "TypeError" "payload is not a list of data")
        end
    (* Tell the Orchestrator we dropped the message. *)
    | _ => ret false
    end.

  (** [Audit.dispatch_msg] only wraps [__dispatch_msg] in the audit's
      execution context. *)
Definition dispatch_msg (message : Message) : ST Audit bool :=
    __dispatch_msg message.

End WithCollaborators.

(** *** Vocabulary for statements about an audit *)

(** One step related to the next as far as the cap warning goes: nothing
    was sent and the one-shot flag is as before, or the flag was up, is
    down now, and one warning was sent. *)
Definition warned_at_most_once (a a' : Audit) : Prop :=
  (outbox a' = outbox a ∧
   show_max_links_warning a' = show_max_links_warning a) ∨
  (show_max_links_warning a = true ∧ show_max_links_warning a' = false ∧
   ∃ w, is_warning w = true ∧ outbox a' = outbox a ++ [w]).

(** How many of the stored items are URL resources. *)
Definition stored_urls (db : AuditDB) : nat :=
  List.length (filter (fun kv => is_url kv.2 = true) (map_to_list (store db))).

(** How many messages in an outbox are cap warnings, ACKs, stop messages. *)
Definition count_warnings (l : list Message) : nat :=
  List.length (filter (fun m => is_warning m = true) l).
Definition count_acks (l : list Message) : nat :=
  List.length (filter (fun m => is_ack m = true) l).

(** *** Sample inputs *)

(** Three stages; a plain plugin at the first, a recursive one at the
    second, both taking URL resources. *)
Definition pm_demo : PluginManager :=
  mkPluginManager 0 2
    (<["testing/recon/spider" :=
         mkPlugin 0 false (Some [TYPE_RESOURCE RESOURCE_URL])]>
     (<["testing/scan/brute" :=
          mkPlugin 1 true (Some [TYPE_RESOURCE RESOURCE_URL])]> ∅)).

Definition url_item (n : Z) : Data :=
  mkData ("url-" +:+ pretty n) (TYPE_RESOURCE RESOURCE_URL) true [].

Definition ten_urls : list pyobj :=
  ObjData <$> (url_item <$> seqZ 1 10).

Definition data_msg (audit : string) (plugin : option string)
           (l : list pyobj) : Message :=
  mkMessage MSG_TYPE_DATA MSG_DATA (InfoData l) (Some audit) plugin 1.

Definition ack_msg (audit : string) (plugin : option string)
           (ack : option string) : Message :=
  mkMessage MSG_TYPE_CONTROL MSG_CONTROL_ACK (InfoIdentity ack) (Some audit)
            plugin 0.

(** Target data types whose identity is the target text behind a tag. *)
Definition IP_demo (address : string) : Data :=
  mkData ("ip:" +:+ address) (TYPE_RESOURCE RESOURCE_IP) true [].
Definition Domain_demo (domain : string) : Data :=
  mkData ("domain:" +:+ domain) (TYPE_RESOURCE RESOURCE_DOMAIN) true [].
Definition Url_demo (url : string) : Data :=
  mkData ("url:" +:+ url) (TYPE_RESOURCE RESOURCE_URL) true [].

Definition scope_demo : Scope.AuditScope :=
  Scope.mkScope {["example.com"]} ∅ {["93.184.216.34"]}
                {["http://example.com/"]}.

(** An audit in its second stage: item [url-1] went through the first
    stage, item [url-2] has just been discovered, one ACK is awaited. *)
Definition audit_in_stage_1 : Audit :=
  mkAudit "audit-1" 0 1 false 2 true 1
          (mkDB (<["url-1" := url_item 1]> (<["url-2" := url_item 2]> ∅))
                ∅ {[("url-1", 0)]})
          [].

(** The same audit later on: both items went through the first two
    stages; no plugin is registered at the last one. *)
Definition audit_before_last_stage : Audit :=
  mkAudit "audit-1" 0 1 false 2 true 1
          (mkDB (<["url-1" := url_item 1]> (<["url-2" := url_item 2]> ∅))
                ∅
                {[("url-1", 0); ("url-1", 1); ("url-2", 0); ("url-2", 1)]})
          [].

(** An audit whose reports have been launched, awaiting their last ACK. *)
Definition audit_reporting : Audit :=
  mkAudit "audit-1" 0 3 true 2 true 1 empty_db [].

(** A report manager that launches one report plugin. *)
Definition one_report (_ : AuditNotifier) : result Z := Ok 1.

End AuditManager.

(** ** The registry of audits ([class AuditManager] of
    [golismero/managers/auditmanager.py]) *)

Module AuditRegistry.
Import Messaging AuditManager.

(** What the registry asks of its collaborators, in the order it asks:
    the network manager, the database of an audit, the cache manager. *)
Inductive ResourceEvent : Type :=
  | ReleasedSlots (audit_name : string)   (* netManager.release_all_slots *)
  | Compacted (audit_name : string)       (* database.compact *)
  | DbClosed (audit_name : string)        (* database.close *)
  | CacheCleaned (audit_name : string).   (* cacheManager.clean *)

(** The dictionary [__audits], and the requests made so far. *)
Record Registry : Type := mkRegistry {
  audits : gmap string Audit;
  trail  : list ResourceEvent
}.

Definition set_audits (v : gmap string Audit) (m : Registry) : Registry :=
  mkRegistry v (trail m).

(** [if not message.audit_name]: no name, or the empty one. *)
Definition no_audit_name (n : option string) : bool :=
  match n with
  | None => true
  | Some s => String.eqb s ""
  end.

Section WithCollaborators.

Variable MSG_PRIORITY_LOW MSG_PRIORITY_MEDIUM MSG_PRIORITY_HIGH : Z.
Variable pluginManager : PluginManager.
Variable notifier : AuditNotifier.
Variable report_manager_generate_reports : AuditNotifier → result Z.
Variable import_results : AuditDB → result AuditDB.
Variable IP Domain Url : string → Data.

  (** The network manager, the database and the cache manager are not part
      of the sources: how a request to one of them ends (it returns or it
      raises) is a parameter, which may depend on the requests made
      before. *)
Variable release_all_slots : list ResourceEvent → string → result unit.
Variable database_compact : list ResourceEvent → string → result unit.
Variable database_close : list ResourceEvent → string → result unit.
Variable cache_clean : list ResourceEvent → string → result unit.

Definition request (ev : ResourceEvent)
             (outcome : list ResourceEvent → result unit) : ST Registry unit :=
    fun m => (outcome (trail m), mkRegistry (audits m) (trail m ++ [ev])).

  (** [Audit.close] *)
Definition audit_close (audit : Audit) : ST Registry unit :=
    try_finally
      (request (Compacted (name audit))
               (fun t => database_compact t (name audit)))
      (request (DbClosed (name audit))
               (fun t => database_close t (name audit))).

  (** [AuditManager.has_audits] *)
Definition has_audits (m : Registry) : bool :=
    negb (bool_decide (audits m = ∅)).

  (** [AuditManager.get_audit] *)
Definition get_audit (audit_name : string) : ST Registry Audit :=
    fun m => match audits m !! audit_name with
             | Some audit => (Ok audit, m)
             | None => (Raise (Exception "KeyError" audit_name), m)
             end.

  (** [self.get_audit(name).method(...)]: the audit is an object the
      dictionary refers to, so what the method did to it is there
      afterwards, whether the method returned or raised. *)
Definition on_audit {A} (audit_name : string) (method : ST Audit A)
    : ST Registry A :=
    let* audit := get_audit audit_name in
    fun m => let '(r, audit') := method audit in
             (r, set_audits (<[audit_name := audit']> (audits m)) m).

  (** [AuditManager.new_audit], for the name [Audit.__init__] settled on. *)
Definition new_audit (audit_name : string) (config_max_links : Z)
             (scope : result Scope.AuditScope) (found_plugins : bool)
             (db : AuditDB) : ST Registry Audit :=
    (* Create the audit. *)
    let m_audit :=
      AuditManager.new_audit audit_name config_max_links pluginManager in
    (* Store it. *)
    let* _ := modify (fun m => set_audits (<[name m_audit := m_audit]> (audits m)) m) in
    (* Run! *)
    let* _ := on_audit (name m_audit)
                       (run MSG_PRIORITY_MEDIUM import_results IP Domain Url
                            scope found_plugins db) in
    (* Return it. *)
    get_audit (name m_audit).

  (** [AuditManager.remove_audit] *)
Definition remove_audit (audit_name : string) : ST Registry unit :=
    try_finally
      (request (ReleasedSlots audit_name)
               (fun t => release_all_slots t audit_name))
      (try_finally
         (let* audit := get_audit audit_name in
          try_finally
            (audit_close audit)
            (modify (fun m => set_audits (delete audit_name (audits m)) m)))
         (request (CacheCleaned audit_name)
                  (fun t => cache_clean t audit_name))).

  (** [AuditManager.dispatch_msg] *)
Definition dispatch_msg (message : Message) : ST Registry bool :=
    match message_type message with
    (* Send info messages to their target audit *)
    | MSG_TYPE_DATA =>
        match audit_name message with
        | Some n =>
            if no_audit_name (Some n) then
              raise (Exception "ValueError" "Info message with no target audit!")
            else
              on_audit n (AuditManager.dispatch_msg MSG_PRIORITY_HIGH
                            pluginManager notifier message)
        | None =>
            raise (Exception "ValueError" "Info message with no target audit!")
        end
    (* Process control messages *)
    | MSG_TYPE_CONTROL =>
        match message_code message with
        (* Send ACKs to their target audit *)
        | MSG_CONTROL_ACK =>
            match audit_name message with
            | Some n =>
                if no_audit_name (Some n) then ret true
                else
                  let* _ := on_audit n
                              (acknowledge MSG_PRIORITY_LOW MSG_PRIORITY_MEDIUM
                                 pluginManager notifier
                                 report_manager_generate_reports message) in
                  ret true
            | None => ret true
            end
        (* Stop an audit if requested *)
        | MSG_CONTROL_STOP_AUDIT =>
            match audit_name message with
            | Some n =>
                if no_audit_name (Some n) then
                  raise (Exception "ValueError"
                                   "I don't know which audit to stop...")
                else
                  let* audit := get_audit n in
                  let* _ := audit_close audit in
                  let* _ := remove_audit n in
                  ret true
            | None =>
                raise (Exception "ValueError"
                                 "I don't know which audit to stop...")
            end
        | _ => ret true
        end
    | _ => ret true
    end.

  (** The loop of [AuditManager.close] over a list of names. *)
Definition close_names (names : list string) : ST Registry unit :=
    for_each names (fun audit_name =>
      try_except (remove_audit audit_name) (fun _ => true) (fun _ => ret tt)).

  (** [AuditManager.close]: the names are listed before the loop starts
      ([keys], not [iterkeys]). *)
Definition close : ST Registry unit :=
    fun m => close_names (map_to_list (audits m)).*1 m.

End WithCollaborators.

(** *** Sample inputs *)

(** Collaborators that always return, and a database that cannot be
    compacted. *)
Definition returns (_ : list ResourceEvent) (_ : string) : result unit :=
  Ok tt.
Definition disk_full (_ : list ResourceEvent) (_ : string) : result unit :=
  Raise (Exception "IOError" "disk full").

(** A registry with two audits, and the message that stops the first. *)
Definition registry_demo : Registry :=
  mkRegistry (<["audit-1" := audit_reporting]>
              (<["audit-2" := AuditManager.new_audit "audit-2" 0 pm_demo]> ∅))
             [].

Definition stop_audit_msg (audit : option string) : Message :=
  mkMessage MSG_TYPE_CONTROL MSG_CONTROL_STOP_AUDIT (InfoBool true) audit
            None 1.

End AuditRegistry.

(** ** The launcher and the pool ([PluginPoolManager], [_launcher],
    [PluginLauncher] and [class ProcessManager] of
    [golismero/managers/processmanager.py]) *)

Module Launching.
Import Messaging ProcessManager.

(** The arguments of one plugin call: [(context, func, argv, argd)]. *)
Definition PluginCall : Type :=
  PluginContext * string * list pyobj * gmap string pyobj.

(** What travels on the launcher's queue: a plugin call, or the boolean
    that tells the launcher to quit ([True]: wait for the subprocesses). *)
Inductive QueueItem : Type :=
  | CallPlugin (call : PluginCall)
  | Quit (wait : bool).

(** How one [queue.get()] of the launcher ends: with an item, or with an
    exception. *)
Inductive QueueRead : Type :=
  | Got (item : QueueItem)
  | GetFailed.

(** The requests made to [multiprocessing.Pool] and the plugin calls made
    in place, in order. *)
Inductive PoolEvent : Type :=
  | PoolCreated (processes : Z) (maxtasksperchild : option Z)
  | WarmedUp (processes : Z)         (* map_async(do_nothing, ...) *)
  | Submitted (call : PluginCall)    (* apply_async(bootstrap, call) *)
  | RanInline (call : PluginCall)    (* bootstrap, in place *)
  | PoolClosed
  | PoolTerminated
  | PoolJoined
  | CacheCleared.                    (* plugin_class_cache.clear() *)

Record PluginPoolManager : Type := mkPool {
  pool_max_processes       : option Z;
  pool_refresh_after_tasks : option Z;
  has_pool                 : bool;        (* __pool is not None *)
  events                   : list PoolEvent
}.

Definition set_has_pool (v : bool) (s : PluginPoolManager) : PluginPoolManager :=
  mkPool (pool_max_processes s) (pool_refresh_after_tasks s) v (events s).

(** [max_process is not None and max_process > 0] *)
Definition multiprocessing_mode (max_process : option Z) : bool :=
  match max_process with
  | Some n => 0 <? n
  | None => false
  end.

(** How [_launcher] stands after reading what was there to read: still
    blocked in [queue.get()], or through. *)
Inductive LauncherEnd : Type :=
  | Waiting
  | Finished.

(** How the consumer loop is left, if it is: the value of [wait] by then,
    and whether by [return] or by an exception. *)
Inductive LoopExit : Type :=
  | StillWaiting
  | Exits (wait : bool) (outcome : result unit).

Section Pool.

  (** [multiprocessing] is a library, and the plugin call made in place
      ends as [bootstrap] ends: how each request ends (it returns or it
      raises) is a parameter, which may depend on the requests made
      before. *)
Variable library : list PoolEvent → PoolEvent → result unit.

Definition request (ev : PoolEvent) : ST PluginPoolManager unit :=
    fun s => (library (events s) ev,
              mkPool (pool_max_processes s) (pool_refresh_after_tasks s)
                     (has_pool s) (events s ++ [ev])).

  (** [PluginPoolManager.__init__] *)
Definition new_pool_manager (max_process refresh_after_tasks : option Z)
    : PluginPoolManager :=
    mkPool max_process refresh_after_tasks false [].

  (** [PluginPoolManager.run_plugin] *)
Definition pool_run_plugin (call : PluginCall) : ST PluginPoolManager unit :=
    fun s =>
      (* If we have a process pool, run the plugin asynchronously *)
      if has_pool s then request (Submitted call) s
      (* Otherwise just call the plugin directly *)
      else request (RanInline call) s.

  (** [PluginPoolManager.start] *)
Definition pool_start : ST PluginPoolManager unit :=
    fun s =>
      (* If we already have a process pool, do nothing *)
      if has_pool s then (Ok tt, s)
      else
        match pool_max_processes s with
        | Some n =>
            if 0 <? n then
              (* Create the process pool *)
              (let* _ := request (PoolCreated n (pool_refresh_after_tasks s)) in
               let* _ := modify (set_has_pool true) in
               (* Force the pool to start all its processes. *)
               request (WarmedUp n)) s
            else (Ok tt, set_has_pool false s)
        | None => (Ok tt, set_has_pool false s)
        end.

  (** [PluginPoolManager.stop] *)
Definition pool_stop (wait : bool) : ST PluginPoolManager unit :=
    let* _ :=
      fun s =>
        (* If we have a process pool... *)
        if has_pool s then
          ((* Either wait patiently, or kill the damn things! *)
           let* _ := request (if wait then PoolClosed else PoolTerminated) in
           let* _ := request PoolJoined in
           (* Destroy the process pool *)
           modify (set_has_pool false)) s
        else (Ok tt, s) in
    (* Clear the plugin instance cache *)
    modify (fun s => mkPool (pool_max_processes s) (pool_refresh_after_tasks s)
                            (has_pool s) (events s ++ [CacheCleared])).

  (** The consumer loop of [_launcher] over the reads of the queue that
      have ended so far. *)
Fixpoint consumer_loop (reads : list QueueRead)
    : ST PluginPoolManager LoopExit :=
    match reads with
    | [] => ret StillWaiting
    (* If we reached this point we can assume the parent process is dead. *)
    | GetFailed :: _ => ret (Exits false (Raise (SystemExit 1)))
    (* Handle the message to quit. *)
    | Got (Quit wait) :: _ => ret (Exits wait (Ok tt))
    (* Handle the message to call a plugin. *)
    | Got (CallPlugin call) :: rest =>
        fun s => match pool_run_plugin call s with
                 | (Ok _, s') => consumer_loop rest s'
                 | (Raise e, s') => (Ok (Exits true (Raise e)), s')
                 end
    end.

  (** [_launcher] *)
Definition _launcher (reads : list QueueRead) (max_process : option Z)
             (refresh_after_tasks : option Z)
    : result LauncherEnd * PluginPoolManager :=
    (* Instance the pool manager. *)
    let pool := new_pool_manager max_process refresh_after_tasks in
    (* Start the pool manager. *)
    (let* _ := pool_start in
     let* left := consumer_loop reads in
     match left with
     | StillWaiting => ret Waiting
     | Exits wait outcome =>
         let* _ :=
           try_finally
             (lift outcome)
             ((* Stop the pool manager. *)
              try_except (pool_stop wait) (fun _ => true)
                         (fun _ => exit 1)) in
         ret Finished
     end) pool.

End Pool.

(** What the Orchestrator's process asks of the queue and of the launcher
    process, and the plugin calls it makes in place, in order. *)
Inductive HostEvent : Type :=
  | LauncherCreated (max_process : Z) (refresh_after_tasks : option Z)
  | ProcessStarted
  | Put (item : QueueItem)                   (* queue.put_nowait *)
  | ProcessJoined (timeout : option Z)
  | ProcessTerminated
  | Bootstrapped (call : PluginCall).        (* bootstrap, in place *)

(** [PluginLauncher]: its [__alive] flag, and the requests so far. *)
Record PluginLauncher : Type := mkLauncher {
  alive       : bool;
  host_events : list HostEvent
}.

Definition stopped {A} : ST PluginLauncher A :=
  raise (Exception "RuntimeError" "Plugin launcher was stopped").

(** [class ProcessManager]: its configuration, whether it holds a
    launcher, and the requests so far (its launcher's among them). *)
Record ProcessManager : Type := mkProcessManager {
  max_processes       : option Z;
  refresh_after_tasks : option Z;
  launcher            : option bool;   (* the [__alive] flag of [__launcher] *)
  host_trail          : list HostEvent
}.

(** A method of the launcher the manager holds. *)
Definition on_launcher {A} (method : ST PluginLauncher A)
    : ST ProcessManager (option A) :=
  fun pm =>
    match launcher pm with
    | Some flag =>
        let '(r, l) := method (mkLauncher flag (host_trail pm)) in
        (match r with Ok x => Ok (Some x) | Raise e => Raise e end,
         mkProcessManager (max_processes pm) (refresh_after_tasks pm)
                          (Some (alive l)) (host_events l))
    | None => (Ok None, pm)
    end.

Definition set_launcher (v : option bool) (pm : ProcessManager)
    : ProcessManager :=
  mkProcessManager (max_processes pm) (refresh_after_tasks pm) v
                   (host_trail pm).

Section Host.

  (** The queue and the launcher process belong to [multiprocessing]: how
      each request to them ends (it returns or it raises, as [join] does
      on a process that was never started) is a parameter, which may
      depend on the requests made before. *)
Variable host_library : list HostEvent → HostEvent → result unit.

  (** How a plugin call made in the Orchestrator's own process ends. *)
Variable bootstrap : PluginCall → result unit.

Definition host_request (ev : HostEvent) : ST PluginLauncher unit :=
    fun l => (host_library (host_events l) ev,
              mkLauncher (alive l) (host_events l ++ [ev])).

  (** [PluginLauncher.run_plugin] *)
Definition launcher_run_plugin (call : PluginCall) : ST PluginLauncher unit :=
    fun l =>
      (* Raise an exception if the launcher had been stopped. *)
      if negb (alive l) then stopped l
      (* Send the plugin run request to the launcher process. *)
      else host_request (Put (CallPlugin call)) l.

  (** [PluginLauncher.start] *)
Definition launcher_start : ST PluginLauncher unit :=
    fun l =>
      if negb (alive l) then stopped l
      (* Start the launcher process. *)
      else host_request ProcessStarted l.

  (** [PluginLauncher.stop]: only [terminate] is guarded, by
      [except Exception]. *)
Definition launcher_stop (wait : bool) : ST PluginLauncher unit :=
    fun l =>
      (* Raise an exception if the launcher was already stopped. *)
      if negb (alive l) then stopped l
      else
        ((* Signal the launcher process to stop. *)
         let* _ := host_request (Put (Quit wait)) in
         (* Wait for the launcher process to stop. *)
         let* _ :=
           if wait then host_request (ProcessJoined None)
           else
             let* _ := host_request (ProcessJoined (Some 3)) in
             try_except (host_request ProcessTerminated) is_Exception
                        (fun _ => ret tt) in
         (* Clean up. *)
         modify (fun l => mkLauncher false (host_events l))) l.

  (** [ProcessManager.run_plugin] *)
Definition run_plugin (call : PluginCall) : ST ProcessManager unit :=
    fun pm =>
      match launcher pm with
      (* If we have a dispatcher, run the plugin asynchronously *)
      | Some _ =>
          (let* _ := on_launcher (launcher_run_plugin call) in ret tt) pm
      (* Otherwise just call the plugin directly *)
      | None =>
          (bootstrap call,
           mkProcessManager (max_processes pm) (refresh_after_tasks pm) None
                            (host_trail pm ++ [Bootstrapped call]))
      end.

  (** [PluginLauncher(max_processes, refresh_after_tasks)], which creates
      the queue and the process object; the launcher is held only once
      the constructor has returned. *)
Definition new_launcher (n : Z) : ST ProcessManager unit :=
    fun pm =>
      let created := LauncherCreated n (refresh_after_tasks pm) in
      (host_library (host_trail pm) created,
       mkProcessManager
         (max_processes pm) (refresh_after_tasks pm)
         (match host_library (host_trail pm) created with
          | Ok _ => Some true
          | Raise _ => launcher pm
          end)
         (host_trail pm ++ [created])).

  (** [ProcessManager.start] *)
Definition start : ST ProcessManager unit :=
    fun pm =>
      match launcher pm with
      (* If we already have a process pool, do nothing *)
      | Some _ => (Ok tt, pm)
      | None =>
          match max_processes pm with
          | Some n =>
              if 0 <? n then
                (* Create the process pool *)
                (let* _ := new_launcher n in
                 (* Start it *)
                 let* _ := on_launcher launcher_start in
                 ret tt) pm
              else (Ok tt, set_launcher None pm)
          | None => (Ok tt, set_launcher None pm)
          end
      end.

  (** [ProcessManager.stop] *)
Definition stop (wait : bool) : ST ProcessManager unit :=
    fun pm =>
      match launcher pm with
      (* If we have a process pool... *)
      | Some _ =>
          ((* Stop it. *)
           let* _ := on_launcher (launcher_stop wait) in
           (* Clean up. *)
           modify (set_launcher None)) pm
      | None => (Ok tt, pm)
      end.

End Host.

(** A queue and a launcher process that do as asked: every request
    returns, except that [terminate] may raise an [Exception]. *)
Definition host_cooperates
    (host_library : list HostEvent → HostEvent → result unit) : Prop :=
  (∀ t ev, ev ≠ ProcessTerminated → host_library t ev = Ok tt) ∧
  (∀ t e, host_library t ProcessTerminated = Raise e → is_Exception e = true).

(** What the launcher process reads from its queue once everything put
    there has arrived. *)
Definition queue_reads (trail : list HostEvent) : list QueueRead :=
  omap (fun ev => match ev with Put item => Some (Got item) | _ => None end)
       trail.

(** The plugin calls a pool manager has run so far, submitted or in
    place, in order. *)
Definition served (evs : list PoolEvent) : list PluginCall :=
  omap (fun ev => match ev with
                  | Submitted call | RanInline call => Some call
                  | _ => None
                  end) evs.

(** The plugin calls at the head of the queue, up to the first read that
    is not one. *)
Fixpoint leading_calls (reads : list QueueRead) : list PluginCall :=
  match reads with
  | Got (CallPlugin call) :: rest => call :: leading_calls rest
  | _ => []
  end.

(** *** Sample inputs *)

Definition call_demo : PluginCall := (ctx_demo, "recv_info", argv_demo, ∅).

Definition library_returns (_ : list PoolEvent) (_ : PoolEvent) : result unit :=
  Ok tt.

Definition bootstrap_returns (_ : PluginCall) : result unit := Ok tt.

(** A queue and a process whose requests all return, and a launcher whose
    process was started. *)
Definition host_returns (_ : list HostEvent) (_ : HostEvent) : result unit :=
  Ok tt.

Definition launcher_demo : PluginLauncher := mkLauncher true [ProcessStarted].

Definition process_manager_demo : ProcessManager :=
  mkProcessManager (Some 4) None None [].

End Launching.

(** ** Vocabulary for the invariants of the worker *)

Module WorkerFacts.
Import Messaging ProcessManager.

(** While the queue accepts messages, [c] keeps it so and lets nothing
    out but exceptions that [except Exception] catches. *)
Definition mild {A} (c : M A) : Prop :=
  ∀ w, queue_alive w = true →
       queue_alive (c w).2 = true ∧
       match (c w).1 with
       | Raise e => is_Exception e = true
       | Ok _ => True
       end.

(** While the queue accepts messages, [c] keeps it so and returns. *)
Definition calm {A} (c : M A) : Prop :=
  ∀ w, queue_alive w = true →
       queue_alive (c w).2 = true ∧ ∃ x, (c w).1 = Ok x.

(** In a process other than the Orchestrator's whose queue is gone, [c]
    changes nothing. *)
Definition silent {A} (context : PluginContext) (c : M A) : Prop :=
  ∀ w, queue_alive w = false → orchestrator_pid context ≠ getpid w →
       (c w).2 = w.

(** Loading the plugin, the callback and the sanitizer raise nothing but
    what [except Exception] catches. *)
Definition no_fatal_error
    (on_finish : option (list pyobj) → result (list pyobj)) (run : PluginRun)
    : Prop :=
  (∀ e, load_error run = Some e → is_Exception e = true) ∧
  (∀ e, call_outcome run = Raise e → is_Exception e = true) ∧
  (∀ r e, on_finish r = Raise e → is_Exception e = true).

Definition is_stop (m : Message) : bool :=
  match message_type m, message_code m with
  | MSG_TYPE_CONTROL, MSG_CONTROL_STOP => true
  | _, _ => false
  end.

(** An event of a call that ends well: caused by the callback itself, or a
    message of the worker other than the request to stop. *)
Definition no_stop (run : PluginRun) (ev : BusEvent) : Prop :=
  ev ∈ emitted run ∨ carries (fun m => is_stop m = false) ev.

(** An event of a call to a callback other than [recv_info]: caused by the
    callback itself, or a message of the worker that holds no data. *)
Definition no_data (run : PluginRun) (ev : BusEvent) : Prop :=
  ev ∈ emitted run ∨ carries (fun m => is_data m = false) ev.

(** The message that asks the Orchestrator to stop. *)
Definition stop_message (context : PluginContext) (priority : Z) : Message :=
  mkMessage MSG_TYPE_CONTROL MSG_CONTROL_STOP (InfoBool false)
            (ctx_audit_name context) (ctx_plugin_name context) priority.

(** *** Sample inputs *)

(** A plugin whose loading is interrupted, and a callback that is. *)
Definition run_load_interrupted : PluginRun :=
  mkRun (Some KeyboardInterrupt) [] (Ok None) [].
Definition run_callback_interrupted : PluginRun :=
  mkRun None [] (Raise KeyboardInterrupt) [].

(** A worker process whose queue works, and one whose parent is gone. *)
Definition worker_world : World := mkWorld 200 true [].
Definition orphan_world : World := mkWorld 200 false [].

End WorkerFacts.

(** ** Vocabulary for the invariants of the scope *)

Module ScopeFacts.
Import Scope.

(** [sc'] holds every domain, root, address and page of [sc]. *)
Definition scope_le (sc sc' : AuditScope) : Prop :=
  domains sc ⊆ domains sc' ∧ roots sc ⊆ roots sc' ∧
  addresses sc ⊆ addresses sc' ∧ web_pages sc ⊆ web_pages sc'.

(** The synthetic URL guessed for a host. *)
Definition guessed_url (host : string) : string := "http://" +:+ host +:+ "/".

(** A domain name for which the resolver has an answer. *)
Definition resolvable (DNS_get_a DNS_get_aaaa : string → list string)
           (domain : string) : Prop :=
  DNS_get_a domain ≠ [] ∨ DNS_get_aaaa domain ≠ [].

(** *** Sample inputs *)

(** Parsers that refuse everything, a host name splitter that finds no
    subdomain part, and a resolver with one answer for every name. *)
Definition never_an_address (_ : string) (_ : option Z) : bool := false.
Definition never_a_network (_ : string) : option (list string) := None.
Definition never_a_url (_ : string) : option (string * string) := None.
Definition whole_hostname (hostname : string) : string * string * string :=
  ("", hostname, "").
Definition one_a_record (_ : string) : list string := ["93.184.216.34"].
Definition no_aaaa_record (_ : string) : list string := [].

(** One domain target, subdomains included. *)
Definition config_demo : AuditConfig := mkConfig ["Example.com"] true.

(** A scope that already holds a domain. *)
Definition scope_before : AuditScope := mkScope {["example.org"]} ∅ ∅ ∅.

End ScopeFacts.

(** ** Reasoning about stateful computations *)

Module STLogic.

(** Every run of [c] takes a state to one related to it by [R], whether it
    returns or raises. *)
Definition keeps {S A} (R : S → S → Prop) (c : ST S A) : Prop :=
  ∀ s, R s (c s).2.

(** From a state satisfying [P], a run of [c] that returns [x] ends in a
    state satisfying [Q x]. *)
Definition triple {S A} (P : S → Prop) (c : ST S A) (Q : A → S → Prop)
  : Prop :=
  ∀ s, P s → ∀ x s', c s = (Ok x, s') → Q x s'.

End STLogic.

(** ** Vocabulary for the invariants of the coordinator *)

Module AuditFacts.
Import Messaging AuditManager.

(** [db'] holds every record identity and every progress mark of [db]. *)
Definition db_le (db db' : AuditDB) : Prop :=
  dom (store db) ⊆ dom (store db') ∧
  plugin_done db ⊆ plugin_done db' ∧
  stage_done db ⊆ stage_done db'.

(** An item fit to be handed to the plugins: in scope and recorded. *)
Definition deliverable (db : AuditDB) (d : Data) : Prop :=
  is_in_scope d = true ∧ is_Some (store db !! identity d).

(** The [Data] instances among the objects of a payload, in order. *)
Definition payload_data (l : list pyobj) : list Data :=
  omap (fun o => match o with ObjData d => Some d | ObjOther _ => None end) l.

(** Every record of [db] is still the same record in [db']. *)
Definition records_kept (db db' : AuditDB) : Prop :=
  ∀ id d, store db !! id = Some d → store db' !! id = Some d.

(** A stage the scan of [update_stage] stops at: items are pending there
    and the notifier has a plugin for them. *)
Definition ready_stage (notifier : AuditNotifier) (db : AuditDB) (stage : Z)
  : Prop :=
  get_pending_data db stage ≠ [] ∧
  is_runnable_stage notifier
    (omap (get_data db) (get_pending_data db stage)) stage = true.

(** The request to stop an audit, as the audit posts it. *)
Definition stop_audit_of (a : Audit) (priority : Z) : Message :=
  mkMessage MSG_TYPE_CONTROL MSG_CONTROL_STOP_AUDIT (InfoBool true)
            (Some (name a)) None priority.

(** *** Sample inputs *)

(** A notifier no plugin is registered with. *)
Definition idle_notifier : AuditNotifier :=
  mkNotifier (fun _ => Ok 0) (fun _ _ => false) (fun _ => Ok tt).

(** One new URL, as the spider reports it. *)
Definition one_url_msg : Message :=
  data_msg "audit-1" (Some "testing/recon/spider") [ObjData (url_item 1)].

End AuditFacts.

(** * Properties *)

(** ** Scope *)

Module ScopeProofs.
Import Scope.

Section Facts.

Variable IPAddress : string → option Z → bool.
Variable IPNetwork : string → option (list string).
Variable ParsedURL : string → option (string * string).
Variable split_hostname : string → string * string * string.
Variable DNS_get_a DNS_get_aaaa : string → list string.

Local Abbreviation add_target := (add_target IPAddress IPNetwork ParsedURL).
Local Abbreviation add_targets :=
    (add_targets IPAddress IPNetwork ParsedURL split_hostname
                 DNS_get_a DNS_get_aaaa).
Local Abbreviation __contains__ := (__contains__ IPAddress ParsedURL).

  (** The domain test comes first in [add_target]: a target the regular
      expression accepts never reaches the address parser, whatever that
      parser would have said, and leaves the address set as it was. *)
Lemma add_target_domain_first sc new_domains target :
    _re_is_domain target = true →
    addresses (add_target (sc, new_domains) target).1 = addresses sc ∧
    lower target ∈ domains (add_target (sc, new_domains) target).1.
Proof.
    intros Hre. unfold Scope.add_target. rewrite Hre.
    destruct (decide (lower target ∈ domains sc)) as [Hin|Hout]; simpl.
    - done.
    - split; [done | set_solver].
Qed.

  (** A dotted quad is accepted by the domain regular expression. *)
Example dotted_quad_matches_domain_regex :
    _re_is_domain "192.168.1.1" = true.
Proof. reflexivity. Qed.

  (** A bracketed or colon-separated IPv6 literal is not. *)
Example ipv6_does_not_match_domain_regex :
    _re_is_domain "[::1]" = false ∧ _re_is_domain "fe80::1" = false.
Proof. split; reflexivity. Qed.

  (** The scope built from the single target ["192.168.1.1"], with name
    resolution off. *)
Lemma add_targets_dotted_quad :
  add_targets empty_scope (mkConfig ["192.168.1.1"] false) 0
  = Ok (mkScope {["192.168.1.1"]} ∅ ∅ {["http://192.168.1.1/"]}).
Proof. vm_compute. reflexivity. Qed.

(** C4, the code at [targets = ["192.168.1.1"]]: whatever the address
    parser answers (so also when it accepts the string as an IPv4
    address), the target is recorded as a domain with the synthetic URL,
    and the address set stays empty. *)
Theorem add_targets_ipv4_literal_recorded_as_domain :
  ∃ sc,
    (add_targets empty_scope (mkConfig ["192.168.1.1"] false) 0 = Ok sc) ∧
    ("192.168.1.1" ∈ domains sc) ∧
    ("192.168.1.1" ∉ addresses sc) ∧
    ("http://192.168.1.1/" ∈ web_pages sc).
Proof.
  eexists. split; [apply add_targets_dotted_quad |]. simpl.
  split; [by apply elem_of_singleton |].
  split; [apply not_elem_of_empty | by apply elem_of_singleton].
Qed.

(** The membership test, which tries the address parser before the
    regular expression, then answers that this very target is out of
    scope as soon as the parser accepts it. *)
Lemma ipv4_target_then_out_of_scope sc :
  IPAddress "192.168.1.1" None = true →
  ParsedURL "192.168.1.1" = None →
  add_targets empty_scope (mkConfig ["192.168.1.1"] false) 0 = Ok sc →
  (__contains__ sc (PyStr "192.168.1.1")).1 = Ok false.
Proof.
  intros Hip Hurl. rewrite add_targets_dotted_quad.
  intros [= <-]. unfold Scope.__contains__, parse_address.
  simpl truthy. cbn [negb]. rewrite Hurl.
  change (startswith "192.168.1.1" "[" && endswith_char "192.168.1.1" "]")
    with false.
  cbn iota. rewrite Hip. reflexivity.
Qed.

(** C10: a falsy target is out of scope at once: no parser is consulted
      and no warning is issued. *)
Theorem contains_falsy_target sc target :
    truthy target = false →
    __contains__ sc target = (Ok false, []).
Proof.
    intros Hfalsy. unfold Scope.__contains__. rewrite Hfalsy. reflexivity.
Qed.

End Facts.

Lemma contains_falsy_target_witness :
  truthy (PyStr "") = false ∧
  __contains__ (fun _ _ => true) (fun s => Some (s, s))
               (mkScope {["example.com"]} ∅ ∅ ∅) (PyStr "")
  = (Ok false, []).
Proof.
  split; [reflexivity | apply contains_falsy_target; reflexivity].
Defined.

(** A truthy string that is neither URL, address nor domain does reach the
    parsers and does get the warning, so the early exit is what spares the
    empty string. *)
Example contains_unknown_target_warns :
  __contains__ (fun _ _ => false) (fun _ => None) empty_scope (PyStr "!")
  = (Ok false,
     [TryParsedURL "!"; TryIPAddress "!"; TryDomainRegex "!";
      Warn "Can't determine if this is out of scope or not: !"]).
Proof. reflexivity. Qed.

End ScopeProofs.

(** ** Message routing and the worker *)

Module ProcessManagerProofs.
Import Messaging ProcessManager.

Lemma appends_lift {A} (Q : BusEvent → Prop) (r : result A) :
  appends Q (lift r).
Proof.
  intros [pid alive evs] Halive; simpl in *; subst.
  exists []. by rewrite app_nil_r.
Qed.

Lemma appends_ret {A} (Q : BusEvent → Prop) (a : A) : appends Q (ret a).
Proof. apply appends_lift. Qed.

Lemma appends_raise {A} (Q : BusEvent → Prop) (e : exn) :
  appends Q (@raise World A e).
Proof. apply appends_lift. Qed.

(** Two steps in a row append the events of both. *)
Lemma appends_then {A B} (Q : BusEvent → Prop) (c : M A) (k : result A → M B) :
  appends Q c → (∀ r, appends Q (k r)) →
  appends Q (fun w => k (c w).1 (c w).2).
Proof.
  intros Hc Hk w Halive.
  destruct (Hc w Halive) as (evs1 & Hw1 & HQ1).
  destruct (Hk (c w).1 (c w).2) as (evs2 & Hw2 & HQ2).
  { by rewrite Hw1. }
  exists (evs1 ++ evs2). split.
  - rewrite Hw2, Hw1. simpl. by rewrite app_assoc.
  - by apply Forall_app.
Qed.

Lemma appends_bind {A B} (Q : BusEvent → Prop) (c : M A) (k : A → M B) :
  appends Q c → (∀ a, appends Q (k a)) → appends Q (bind c k).
Proof.
  intros Hc Hk w Halive.
  set (K := fun r : result A => match r with
                                | Ok a => k a
                                | Raise e => raise e
                                end).
  assert (HK : ∀ r, appends Q (K r)).
  { intros [a|e]; [apply Hk | apply appends_lift]. }
  destruct (appends_then Q c K Hc HK w Halive) as (evs & Hw & HQ).
  exists evs. split; [| done].
  rewrite <- Hw. unfold bind. by destruct (c w) as [[a|e] w'].
Qed.

Lemma appends_try_finally {A} (Q : BusEvent → Prop) (body : M A) (fin : M unit) :
  appends Q body → appends Q fin → appends Q (try_finally body fin).
Proof.
  intros Hb Hf w Halive.
  destruct (appends_then Q body (fun _ => fin) Hb (fun _ => Hf) w Halive)
    as (evs & Hw & HQ).
  exists evs. split; [| done].
  rewrite <- Hw. unfold try_finally.
  destruct (body w) as [r w']. simpl. by destruct (fin w') as [[[]|e] w''].
Qed.

Lemma appends_try_except {A} (Q : BusEvent → Prop) (body : M A) catches
      (handler : exn → M A) :
  appends Q body → (∀ e, appends Q (handler e)) →
  appends Q (try_except body catches handler).
Proof.
  intros Hb Hh w Halive.
  set (K := fun r : result A =>
              match r with
              | Raise e => if catches e then handler e else raise e
              | Ok a => ret a
              end).
  assert (HK : ∀ r, appends Q (K r)).
  { intros [a|e]; [apply appends_ret |]. simpl.
    destruct (catches e); [apply Hh | apply appends_lift]. }
  destruct (appends_then Q body K Hb HK w Halive) as (evs & Hw & HQ).
  exists evs. split; [| done].
  rewrite <- Hw. unfold try_except.
  destruct (body w) as [[a|e] w']; simpl; [done |].
  by destruct (catches e).
Qed.

Lemma appends_when (Q : BusEvent → Prop) (b : bool) (c : M unit) :
  appends Q c → appends Q (when b c).
Proof. destruct b; [done | intros _; apply appends_ret]. Qed.

Lemma appends_weaken {A} (Q Q' : BusEvent → Prop) (c : M A) :
  (∀ ev, Q ev → Q' ev) → appends Q c → appends Q' c.
Proof.
  intros HQ Hc w Halive. destruct (Hc w Halive) as (evs & Hw & Hevs).
  exists evs. split; [done |]. eapply Forall_impl; eauto.
Qed.

(** A handler sees of its body only the outcome and the state it left. *)
Lemma try_finally_split {S A} (body : ST S A) (fin : ST S unit) s :
  try_finally body fin s = try_finally (lift (body s).1) fin (body s).2.
Proof. unfold try_finally, lift. by destruct (body s). Qed.

Lemma try_except_split {S A} (body : ST S A) catches (handler : exn → ST S A) s :
  try_except body catches handler s
  = try_except (lift (body s).1) catches handler (body s).2.
Proof. unfold try_except, lift. by destruct (body s) as [[a|e] s']. Qed.

Section Routing.

Variable MSG_PRIORITY_LOW MSG_PRIORITY_MEDIUM MSG_PRIORITY_HIGH : Z.

Local Abbreviation send_raw_msg := (send_raw_msg MSG_PRIORITY_HIGH).
Local Abbreviation send_msg := (send_msg MSG_PRIORITY_HIGH).

(** A message that is not an RPC always leaves as exactly one event that
    carries it, as long as the queue accepts messages. *)
Lemma send_msg_alive context ty code info prio w :
  ty ≠ MSG_TYPE_RPC → queue_alive w = true →
  ∃ ev, send_msg context ty code info prio w = (Ok tt, emit ev w) ∧
        event_message ev =
          Some (mkMessage ty code info (ctx_audit_name context)
                          (ctx_plugin_name context) prio).
Proof.
  intros Hty Halive. unfold ProcessManager.send_msg, ProcessManager.send_raw_msg.
  replace (match ty with MSG_TYPE_RPC => true | _ => false end) with false
    by by destruct ty.
  simpl. rewrite Halive.
  destruct ((MSG_PRIORITY_HIGH <=? prio) && (orchestrator_pid context =? getpid w));
    eexists; split; reflexivity.
Qed.

Lemma appends_send (Q : BusEvent → Prop) context ty code info prio :
  ty ≠ MSG_TYPE_RPC →
  (∀ ev, event_message ev =
           Some (mkMessage ty code info (ctx_audit_name context)
                           (ctx_plugin_name context) prio) → Q ev) →
  appends Q (send_msg context ty code info prio).
Proof.
  intros Hty HQ w Halive.
  destruct (send_msg_alive context ty code info prio w Hty Halive)
    as (ev & Hsend & Hev).
  exists [ev]. rewrite Hsend. split.
  - unfold emit. simpl. by rewrite Halive.
  - repeat constructor. by apply HQ.
Qed.


End Routing.


Section Worker.

Variable MSG_PRIORITY_LOW MSG_PRIORITY_MEDIUM MSG_PRIORITY_HIGH : Z.
Variable on_finish : option (list pyobj) → result (list pyobj).
Variable context : PluginContext.
Variable func : string.
Variable argv : list pyobj.
Variable argd : gmap string pyobj.
Variable run : PluginRun.

Local Abbreviation send_msg := (send_msg MSG_PRIORITY_HIGH context).
Local Abbreviation send_error :=
  (send_error MSG_PRIORITY_MEDIUM MSG_PRIORITY_HIGH context).
Local Abbreviation recv_info_epilogue :=
  (recv_info_epilogue MSG_PRIORITY_MEDIUM MSG_PRIORITY_HIGH on_finish
                      context argv argd).
Local Abbreviation call_plugin :=
  (call_plugin MSG_PRIORITY_MEDIUM MSG_PRIORITY_HIGH on_finish
               context func argv argd run).
Local Abbreviation send_warnings :=
  (send_warnings MSG_PRIORITY_MEDIUM MSG_PRIORITY_HIGH context run).
Local Abbreviation _bootstrap :=
  (_bootstrap MSG_PRIORITY_LOW MSG_PRIORITY_MEDIUM MSG_PRIORITY_HIGH on_finish
              context func argv argd run).

Local Abbreviation before_ack := (before_ack run).

Lemma after_ack_before_ack ev : after_ack ev → before_ack ev.
Proof. intros (m & Hm & Hack & _). right. by exists m. Qed.

Lemma after_ack_not_data ev :
  after_ack ev → carries (fun m => is_data m = false) ev.
Proof. intros (m & Hm & _ & Hdata). by exists m. Qed.

Lemma appends_send_error e : appends after_ack (send_error e).
Proof. apply appends_send; [done |]. intros ev Hev. by eexists. Qed.

Lemma appends_send_warnings : appends after_ack send_warnings.
Proof.
  apply appends_when, appends_try_except.
  - apply appends_send; [done |]. intros ev Hev. by eexists.
  - apply appends_send_error.
Qed.

Lemma appends_recv_info_epilogue r : appends before_ack (recv_info_epilogue r).
Proof.
  unfold ProcessManager.recv_info_epilogue.
  apply appends_bind.
  { destruct (argd !! "info"); [apply appends_ret |].
    destruct argv; [apply appends_raise | apply appends_ret]. }
  intros input. apply appends_bind; [apply appends_lift |].
  intros l. apply appends_when. apply appends_try_except.
  - apply appends_send; [done |]. intros ev Hev. right. by eexists.
  - intros e. eapply appends_weaken;
      [apply after_ack_before_ack | apply appends_send_error].
Qed.

Lemma appends_call_plugin : appends before_ack call_plugin.
Proof.
  unfold ProcessManager.call_plugin.
  apply (appends_then before_ack
           (fun w => (Ok tt, mkWorld (getpid w) (queue_alive w)
                                     (bus w ++ emitted run)))
           (fun _ => try_finally _ _)).
  - intros w Halive. exists (emitted run). simpl. rewrite Halive.
    split; [done |]. apply Forall_forall. intros ev Hev. by left.
  - intros _. apply appends_try_finally; [apply appends_lift |].
    apply appends_when, appends_recv_info_epilogue.
Qed.

(** Everything up to the ACK: the guarded call, the warnings and the
    error report. *)
Lemma appends_guarded_call :
  appends before_ack
    (try_except
       (try_finally
          (bind (match load_error run with
                 | Some e => raise e
                 | None => ret tt
                 end) (fun _ => call_plugin))
          send_warnings)
       is_Exception send_error).
Proof.
  apply appends_try_except;
    [| intros e; eapply appends_weaken;
         [apply after_ack_before_ack | apply appends_send_error]].
  apply appends_try_finally;
    [| eapply appends_weaken;
         [apply after_ack_before_ack | apply appends_send_warnings]].
  apply appends_bind; [| intros _; apply appends_call_plugin].
  destruct (load_error run); [apply appends_raise | apply appends_ret].
Qed.

(** What holds of every call: it sends exactly one ACK, at LOW
    priority.  Whatever the
    callback did (returned, raised an exception, was interrupted) and
    whether or not the plugin could be loaded, the bus grows by some
    events that hold no ACK of the worker, then the ACK, then at most
    messages that are neither ACK nor data.  For a [recv_info] call that
    passes the item by position, as every call the notifier issues does,
    the ACK carries the item's identity. *)
Theorem bootstrap_sends_one_ack w :
  queue_alive w = true →
  (∃ pre ack_ev post,
     bus (_bootstrap w).2 = bus w ++ pre ++ [ack_ev] ++ post ∧
     Forall before_ack pre ∧
     event_message ack_ev =
       Some (worker_message context MSG_TYPE_CONTROL MSG_CONTROL_ACK
                            (InfoIdentity (ack_identity func argv argd))
                            MSG_PRIORITY_LOW) ∧
     Forall after_ack post) ∧
  (∀ d rest kw,
     ack_identity "recv_info" (ObjData d :: rest) kw = Some (identity d)) ∧
  (∀ d, let '(method, args, kw) := Notifier.send_info (ObjData d) in
        ack_identity method args kw = Some (identity d)).
Proof.
  intros Halive. split; [| done].
  unfold ProcessManager._bootstrap.
  match goal with
  | |- context [try_finally ?i (send_ack _ _ _ _)] => set (inner := i)
  end.
  destruct (appends_guarded_call w Halive) as (pre & Hw1 & Hpre).
  fold inner in Hw1.
  unfold try_except at 1. unfold try_finally.
  destruct (inner w) as [r w1]. simpl in Hw1. subst w1.
  unfold send_ack.
  destruct (send_msg_alive MSG_PRIORITY_HIGH context MSG_TYPE_CONTROL
              MSG_CONTROL_ACK (InfoIdentity (ack_identity func argv argd))
              MSG_PRIORITY_LOW (mkWorld (getpid w) true (bus w ++ pre)))
    as (ack_ev & Hack & Hev); [done | done |].
  rewrite Hack. exists pre, ack_ev.
  destruct r as [[]|e].
  - exists []. simpl. rewrite <- app_assoc. done.
  - unfold bind, try_except.
    destruct (send_msg_alive MSG_PRIORITY_HIGH context MSG_TYPE_CONTROL
                MSG_CONTROL_STOP (InfoBool false) MSG_PRIORITY_MEDIUM
                (emit ack_ev (mkWorld (getpid w) true (bus w ++ pre))))
      as (stop_ev & Hstop & Hsev); [done | done |].
    rewrite Hstop. exists [stop_ev]. simpl.
    rewrite <- !app_assoc. repeat split; try done.
    repeat constructor. by eexists.
Qed.

(** The handlers [_bootstrap] wraps around the guarded body. *)
Local Abbreviation handlers body :=
  (try_except
     (try_finally
        (try_except (try_finally body send_warnings) is_Exception send_error)
        (send_ack MSG_PRIORITY_LOW MSG_PRIORITY_HIGH context
                  (ack_identity func argv argd)))
     (fun _ => true)
     (fun _ =>
        bind (try_except
                (send_msg MSG_TYPE_CONTROL MSG_CONTROL_STOP (InfoBool false)
                          MSG_PRIORITY_MEDIUM)
                (fun e => match e with SystemExit _ => false | _ => true end)
                (fun _ => ret tt))
             (fun _ => exit 1))).

(** They see of the body only its outcome and the world it left. *)
Lemma handlers_split (body : M unit) w :
  handlers body w = handlers (lift (body w).1) (body w).2.
Proof.
  unfold try_except at 1 3. unfold try_finally at 1 3.
  unfold try_except at 1 2. unfold try_finally, lift.
  by destruct (body w).
Qed.

(** What follows the callback's own suite, for any outcome [r] of it:
    warnings, error report, ACK and stop message hold no data. *)
Lemma appends_after_call (r : result unit) :
  appends (carries (fun m => is_data m = false)) (handlers (lift r)).
Proof.
  apply appends_try_except.
  - apply appends_try_finally.
    + apply appends_try_except.
      * apply appends_try_finally; [apply appends_lift |].
        eapply appends_weaken;
          [apply after_ack_not_data | apply appends_send_warnings].
      * intros e. eapply appends_weaken;
          [apply after_ack_not_data | apply appends_send_error].
    + apply appends_send; [done |]. intros ev Hev. by eexists.
  - intros _. apply appends_bind; [| intros _; apply appends_raise].
    apply appends_try_except; [| intros _; apply appends_ret].
    apply appends_send; [done |]. intros ev Hev. by eexists.
Qed.

(** C9: in a [recv_info] call whose callback ran (it returned a list,
    returned [None] or raised), the input item is appended to the
    sanitized result, and that list, which is therefore not empty and
    holds the input item, leaves as the one data message of the call. *)
Theorem recv_info_sends_back_input w input sanitized :
  queue_alive w = true →
  func = "recv_info" →
  load_error run = None →
  (argd !! "info" = Some input ∨
   (argd !! "info" = None ∧ head argv = Some input)) →
  on_finish (match call_outcome run with Ok r => r | Raise _ => None end)
  = Ok sanitized →
  ∃ data_ev rest,
    bus (_bootstrap w).2 = bus w ++ emitted run ++ [data_ev] ++ rest ∧
    event_message data_ev =
      Some (worker_message context MSG_TYPE_DATA MSG_DATA
                           (InfoData (sanitized ++ [input]))
                           MSG_PRIORITY_MEDIUM) ∧
    Forall (carries (fun m => is_data m = false)) rest ∧
    sanitized ++ [input] ≠ [] ∧
    input ∈ sanitized ++ [input].
Proof.
  intros Halive Hfunc Hload Hinput Hfinish.
  set (w1 := mkWorld (getpid w) true (bus w ++ emitted run)).
  destruct (send_msg_alive MSG_PRIORITY_HIGH context MSG_TYPE_DATA MSG_DATA
              (InfoData (sanitized ++ [input])) MSG_PRIORITY_MEDIUM w1)
    as (data_ev & Hsend & Hev); [done | done |].
  assert (Hnonempty : sanitized ++ [input] ≠ []).
  { by destruct sanitized. }
  (* The callback and its [finally] suite. *)
  assert (Hcall :
    bind (match load_error run with
          | Some e => raise e
          | None => ret tt
          end) (fun _ => call_plugin) w
    = (match call_outcome run with Ok _ => Ok tt | Raise e => Raise e end,
       emit data_ev w1)).
  { rewrite Hload. unfold bind, ret, ProcessManager.call_plugin.
    rewrite Halive. fold w1. rewrite Hfunc. simpl String.eqb. cbn [when].
    assert (Hepi : recv_info_epilogue
                     (match call_outcome run with Ok r => r | Raise _ => None end)
                     w1 = (Ok tt, emit data_ev w1)).
    { unfold ProcessManager.recv_info_epilogue, bind.
      assert (Hlookup :
        (match argd !! "info" with
         | Some o => ret o
         | None => match argv with
                   | o :: _ => ret o
                   | [] => raise (Exception "IndexError"
                                            "tuple index out of range")
                   end
         end) w1 = (Ok input, w1)).
      { destruct Hinput as [-> | [-> Hhead]]; [done |].
        destruct argv as [|o rest]; [done |]. by injection Hhead as ->. }
      rewrite Hlookup. unfold lift. rewrite Hfinish.
      replace (match sanitized ++ [input] with [] => false | _ => true end)
        with true by (by destruct sanitized).
      cbn [when]. unfold try_except. by rewrite Hsend. }
    unfold try_finally, lift. rewrite Hepi. done. }
  exists data_ev.
  unfold ProcessManager._bootstrap.
  rewrite handlers_split, Hcall. cbn [fst snd].
  destruct (appends_after_call
              (match call_outcome run with
               | Ok _ => Ok tt
               | Raise e => Raise e
               end) (emit data_ev w1)) as (rest & Hrest & HQ); [done |].
  exists rest. split;
    [| repeat split; try done; apply elem_of_app; right; by constructor].
  etrans; [apply (f_equal bus Hrest) |].
  simpl. by rewrite <- !app_assoc.
Qed.

(** The callback of a [recv_info] call and its [finally] suite, when the
    item is found and the sanitizer returns: the item goes back as data. *)
Lemma call_plugin_sends_input w input sanitized :
  queue_alive w = true →
  func = "recv_info" →
  load_error run = None →
  (argd !! "info" = Some input ∨
   (argd !! "info" = None ∧ head argv = Some input)) →
  on_finish (match call_outcome run with Ok r => r | Raise _ => None end)
  = Ok sanitized →
  ∃ data_ev,
    bind (match load_error run with
          | Some e => raise e
          | None => ret tt
          end) (fun _ => call_plugin) w
    = (match call_outcome run with Ok _ => Ok tt | Raise e => Raise e end,
       emit data_ev (mkWorld (getpid w) true (bus w ++ emitted run))) ∧
    event_message data_ev =
      Some (worker_message context MSG_TYPE_DATA MSG_DATA
                           (InfoData (sanitized ++ [input]))
                           MSG_PRIORITY_MEDIUM).
Proof.
  intros Halive Hfunc Hload Hinput Hfinish.
  set (w1 := mkWorld (getpid w) true (bus w ++ emitted run)).
  destruct (send_msg_alive MSG_PRIORITY_HIGH context MSG_TYPE_DATA MSG_DATA
              (InfoData (sanitized ++ [input])) MSG_PRIORITY_MEDIUM w1)
    as (data_ev & Hsend & Hev); [done | done |].
  exists data_ev. split; [| done].
  rewrite Hload. unfold bind, ret, ProcessManager.call_plugin.
  rewrite Halive. fold w1. rewrite Hfunc. simpl String.eqb. cbn [when].
  assert (Hepi : recv_info_epilogue
                   (match call_outcome run with Ok r => r | Raise _ => None end)
                   w1 = (Ok tt, emit data_ev w1)).
  { unfold ProcessManager.recv_info_epilogue, bind.
    assert (Hlookup :
      (match argd !! "info" with
       | Some o => ret o
       | None => match argv with
                 | o :: _ => ret o
                 | [] => raise (Exception "IndexError"
                                          "tuple index out of range")
                 end
       end) w1 = (Ok input, w1)).
    { destruct Hinput as [-> | [-> Hhead]]; [done |].
      destruct argv as [|o rest]; [done |]. by injection Hhead as ->. }
    rewrite Hlookup. unfold lift. rewrite Hfinish.
    replace (match sanitized ++ [input] with [] => false | _ => true end)
      with true by (by destruct sanitized).
    cbn [when]. unfold try_except. by rewrite Hsend. }
  unfold try_finally, lift. rewrite Hepi. done.
Qed.

(** C6, where the code departs from it: a [recv_info] call that passes
    the item by keyword, [recv_info(info=x)].  The data suite looks the
    item up under [argd["info"]] and sends it back as data, so the call
    is one the worker serves; the ACK suite, finding no positional
    argument, looks under [argd["information"]], finds nothing, and the
    one ACK of the call carries no identity instead of the identity of
    the item. *)
Theorem keyword_call_ack_carries_no_identity w d sanitized :
  queue_alive w = true →
  func = "recv_info" →
  argv = [] →
  argd !! "info" = Some (ObjData d) →
  argd !! "information" = None →
  load_error run = None →
  on_finish (match call_outcome run with Ok r => r | Raise _ => None end)
  = Ok sanitized →
  (∃ data_ev rest,
     bus (_bootstrap w).2 = bus w ++ emitted run ++ [data_ev] ++ rest ∧
     event_message data_ev =
       Some (worker_message context MSG_TYPE_DATA MSG_DATA
                            (InfoData (sanitized ++ [ObjData d]))
                            MSG_PRIORITY_MEDIUM) ∧
     Forall (carries (fun m => is_data m = false)) rest) ∧
  (∃ pre ack_ev post,
     bus (_bootstrap w).2 = bus w ++ pre ++ [ack_ev] ++ post ∧
     Forall before_ack pre ∧
     event_message ack_ev =
       Some (worker_message context MSG_TYPE_CONTROL MSG_CONTROL_ACK
                            (InfoIdentity None) MSG_PRIORITY_LOW) ∧
     Forall after_ack post) ∧
  InfoIdentity None ≠ InfoIdentity (Some (identity d)).
Proof.
  intros Halive Hfunc Hargv Hinfo Hinformation Hload Hfinish.
  split; [| split; [| done]].
  - destruct (call_plugin_sends_input w (ObjData d) sanitized)
      as (data_ev & Hcall & Hev); [done | done | done | by left | done |].
    exists data_ev.
    unfold ProcessManager._bootstrap.
    rewrite handlers_split, Hcall. cbn [fst snd].
    destruct (appends_after_call
                (match call_outcome run with
                 | Ok _ => Ok tt
                 | Raise e => Raise e
                 end)
                (emit data_ev (mkWorld (getpid w) true (bus w ++ emitted run))))
      as (rest & Hrest & HQ); [done |].
    exists rest. split; [| done].
    etrans; [apply (f_equal bus Hrest) |].
    simpl. by rewrite <- !app_assoc.
  - assert (Hnone : ack_identity func argv argd = None).
    { unfold ProcessManager.ack_identity.
      rewrite Hfunc, Hargv, Hinformation. reflexivity. }
    destruct (bootstrap_sends_one_ack w Halive)
      as ((pre & ack_ev & post & Hbus & Hpre & Hack & Hpost) & _).
    exists pre, ack_ev, post. by rewrite Hnone in Hack.
Qed.

End Worker.

(** The keyword call by evaluation: the item comes back as data, and the
    ACK that follows carries no identity. *)
Example bootstrap_keyword_call_trace :
  bus (_bootstrap 0 1 2 on_finish_demo ctx_demo "recv_info" []
                  {["info" := ObjData url_demo]} run_returns
                  (mkWorld 200 true [])).2
  = [Enqueued (worker_message ctx_demo MSG_TYPE_DATA MSG_DATA
                              (InfoData [ObjData found_demo; ObjData url_demo])
                              1);
     Enqueued (worker_message ctx_demo MSG_TYPE_CONTROL MSG_CONTROL_ACK
                              (InfoIdentity None) 0)].
Proof. vm_compute. reflexivity. Qed.

Lemma keyword_call_ack_carries_no_identity_witness :
  ({["info" := ObjData url_demo]} : gmap string pyobj) !! "info"
  = Some (ObjData url_demo) ∧
  ∃ pre ack_ev post,
    bus (_bootstrap 0 1 2 on_finish_demo ctx_demo "recv_info" []
                    {["info" := ObjData url_demo]} run_returns
                    (mkWorld 200 true [])).2
    = [] ++ pre ++ [ack_ev] ++ post ∧
    Forall (before_ack run_returns) pre ∧
    event_message ack_ev =
      Some (worker_message ctx_demo MSG_TYPE_CONTROL MSG_CONTROL_ACK
                           (InfoIdentity None) 0) ∧
    Forall after_ack post.
Proof.
  split; [vm_compute; reflexivity |].
  destruct (keyword_call_ack_carries_no_identity 0 1 2 on_finish_demo
              ctx_demo "recv_info" [] {["info" := ObjData url_demo]}
              run_returns (mkWorld 200 true []) url_demo
              [ObjData found_demo]) as (_ & Hack & _).
  - reflexivity.
  - reflexivity.
  - reflexivity.
  - vm_compute. reflexivity.
  - vm_compute. reflexivity.
  - reflexivity.
  - reflexivity.
  - exact Hack.
Defined.

(** A crashing callback in a worker process, by evaluation: the input
    item comes back as data, then the warnings, the error, and last the
    ACK with the item's identity. *)
Example bootstrap_crashing_callback :
  bus (_bootstrap 0 1 2 on_finish_demo ctx_demo "recv_info" argv_demo ∅
                  run_raises (mkWorld 200 true [])).2
  = [Enqueued (worker_message ctx_demo MSG_TYPE_DATA MSG_DATA
                              (InfoData [ObjData url_demo]) 1);
     Enqueued (worker_message ctx_demo MSG_TYPE_CONTROL MSG_CONTROL_WARNING
                              (InfoWarnings ["deprecated call"]) 1);
     Enqueued (worker_message ctx_demo MSG_TYPE_CONTROL MSG_CONTROL_ERROR
                              (InfoError "boom" "ValueError: boom") 1);
     Enqueued (worker_message ctx_demo MSG_TYPE_CONTROL MSG_CONTROL_ACK
                              (InfoIdentity (Some "id-url-1")) 0)].
Proof. vm_compute. reflexivity. Qed.

(** The same call when the item is passed by keyword: the data suite
    looks it up under ["info"], the ACK suite under ["information"], so
    the ACK then carries no identity. *)
Example bootstrap_keyword_call_ack :
  ack_identity "recv_info" [] {["info" := ObjData url_demo]} = None.
Proof. vm_compute. reflexivity. Qed.

Lemma bootstrap_sends_one_ack_witness :
  queue_alive (mkWorld 200 true []) = true ∧
  ∃ pre ack_ev post,
    bus (_bootstrap 0 1 2 on_finish_demo ctx_demo "recv_info" argv_demo ∅
                    run_raises (mkWorld 200 true [])).2
    = [] ++ pre ++ [ack_ev] ++ post ∧
    Forall (before_ack run_raises) pre ∧
    event_message ack_ev =
      Some (worker_message ctx_demo MSG_TYPE_CONTROL MSG_CONTROL_ACK
              (InfoIdentity (ack_identity "recv_info" argv_demo ∅)) 0) ∧
    Forall after_ack post.
Proof.
  split; [reflexivity |].
  exact (proj1 (bootstrap_sends_one_ack 0 1 2 on_finish_demo ctx_demo
                  "recv_info" argv_demo ∅ run_raises (mkWorld 200 true [])
                  eq_refl)).
Defined.

Lemma recv_info_sends_back_input_witness :
  ∃ data_ev rest,
    bus (_bootstrap 0 1 2 on_finish_demo ctx_demo "recv_info" argv_demo ∅
                    run_raises (mkWorld 200 true [])).2
    = [] ++ emitted run_raises ++ [data_ev] ++ rest ∧
    event_message data_ev =
      Some (worker_message ctx_demo MSG_TYPE_DATA MSG_DATA
                           (InfoData ([] ++ [ObjData url_demo])) 1) ∧
    Forall (carries (fun m => is_data m = false)) rest ∧
    [] ++ [ObjData url_demo] ≠ [] ∧
    ObjData url_demo ∈ [] ++ [ObjData url_demo].
Proof.
  apply (recv_info_sends_back_input 0 1 2 on_finish_demo ctx_demo
           "recv_info" argv_demo ∅ run_raises (mkWorld 200 true [])
           (ObjData url_demo) []).
  - reflexivity.
  - reflexivity.
  - reflexivity.
  - right. split; reflexivity.
  - reflexivity.
Defined.

End ProcessManagerProofs.

Module AuditManagerProofs.
Import Messaging AuditManager.

Section Coordinator.

Variable MSG_PRIORITY_LOW MSG_PRIORITY_MEDIUM MSG_PRIORITY_HIGH : Z.
Variable pluginManager : PluginManager.
Variable notifier : AuditNotifier.
Variable report_manager_generate_reports : AuditNotifier → result Z.
Variable IP Domain Url : string → Data.

Local Abbreviation count_link := (count_link MSG_PRIORITY_HIGH).
Local Abbreviation dispatch_item :=
  (dispatch_item MSG_PRIORITY_HIGH pluginManager).
Local Abbreviation dispatch_items :=
  (dispatch_items MSG_PRIORITY_HIGH pluginManager).
Local Abbreviation dispatch_msg :=
  (dispatch_msg MSG_PRIORITY_HIGH pluginManager notifier).
Local Abbreviation generate_reports :=
  (generate_reports MSG_PRIORITY_LOW notifier report_manager_generate_reports).
Local Abbreviation update_stage :=
  (update_stage MSG_PRIORITY_LOW MSG_PRIORITY_MEDIUM pluginManager notifier
                report_manager_generate_reports).
Local Abbreviation acknowledge :=
  (acknowledge MSG_PRIORITY_LOW MSG_PRIORITY_MEDIUM pluginManager notifier
               report_manager_generate_reports).
Local Abbreviation scan_stages := (scan_stages MSG_PRIORITY_MEDIUM notifier).
Local Abbreviation scanned_stages :=
  (scanned_stages MSG_PRIORITY_MEDIUM pluginManager notifier).
Local Abbreviation stage_range := (stage_range pluginManager).

(** *** Dispatch: which producers get marked *)

(** What [dispatch_item] does with an in-scope item it keeps, sent by a
    registered plugin: the (item, plugin) pair is marked exactly when the
    plugin is recursive. *)
Lemma dispatch_item_in_scope message data_for_plugins data a a1 p info :
  count_link data a = (Ok true, a1) →
  is_in_scope data = true →
  plugin_name message = Some p → p ≠ "" →
  plugins pluginManager !! p = Some info →
  dispatch_item message data_for_plugins (ObjData data) a
  = (Ok (data_for_plugins ++ [data]),
     set_database
       (if recursive info
        then mark_plugin_finished (add_data (database a1) data)
                                  (identity data) p
        else add_data (database a1) data) a1).
Proof.
  intros Hlink Hscope Hname Hp Hinfo.
  unfold AuditManager.dispatch_item, bind. rewrite Hlink. simpl negb. cbn iota.
  unfold modify at 1. rewrite Hscope, Hname.
  replace (String.eqb p "") with false
    by (symmetry; by apply String.eqb_neq).
  unfold lift, get_plugin_by_name. rewrite Hinfo.
  destruct (recursive info); reflexivity.
Qed.

(** *** Bootstrap: what a fresh database holds after [run] *)

(** Over a database with no record the guard of the storing loop is never
    true, so the loop stores nothing. *)
Lemma store_targets_empty_store target_data a :
  store (database a) = ∅ →
  store_targets target_data a = (Ok tt, a).
Proof.
  intros Hempty. unfold store_targets.
  induction target_data as [|data l IH]; [done |].
  cbn [for_each]. unfold bind, modify at 1.
  unfold has_data_key. rewrite Hempty, lookup_empty. exact IH.
Qed.

(** On a fresh database, and with no importer configured, [run] comes down
    to sending the targets. *)
Lemma run_fresh_database sc a :
  run MSG_PRIORITY_MEDIUM (fun db => Ok db) IP Domain Url
      (Ok sc) true empty_db a
  = (Ok tt,
     set_outbox
       (outbox a ++
        [mkMessage MSG_TYPE_DATA MSG_DATA
                   (InfoData (map ObjData (get_targets IP Domain Url sc)))
                   (Some (name a)) None MSG_PRIORITY_MEDIUM])
       (set_database empty_db (set_expecting_ack 0 a))).
Proof.
  unfold run, bind, lift, modify at 1, when, negb, ret, modify at 1.
  rewrite store_targets_empty_store by done.
  reflexivity.
Qed.

(** C2, the code over a fresh database: [run] ends with the database as
    empty as it was opened, no target has a record in it, and the data
    message carrying the targets is sent all the same.  (No importer is
    configured here, so that nothing else fills the database.) *)
Theorem run_fresh_database_interns_no_target sc a :
  let a' := (run MSG_PRIORITY_MEDIUM (fun db => Ok db) IP Domain Url
                 (Ok sc) true empty_db a).2 in
  database a' = empty_db ∧
  (∀ data, data ∈ get_targets IP Domain Url sc →
           has_data_key (database a') (identity data) None = false) ∧
  outbox a' =
    outbox a ++
    [mkMessage MSG_TYPE_DATA MSG_DATA
               (InfoData (map ObjData (get_targets IP Domain Url sc)))
               (Some (name a)) None MSG_PRIORITY_MEDIUM].
Proof.
  rewrite run_fresh_database. simpl.
  split; [done |]. split; [| done].
  intros data _. unfold has_data_key. simpl. by rewrite lookup_empty.
Qed.

(** *** Reports *)

Local Abbreviation twice_error :=
  (Exception "RuntimeError" "Why are you asking for the report twice?").

Local Abbreviation stop_audit a :=
  (mkMessage MSG_TYPE_CONTROL MSG_CONTROL_STOP_AUDIT (InfoBool true)
             (Some (name a)) None MSG_PRIORITY_MEDIUM).

(** The audit after a run of ACKs. *)
Local Abbreviation after_acks a acks :=
  (foldl (fun a message => (acknowledge message a).2) a acks).

(** One ACK while the latch is set: the counter goes down by one, and the
    stop message is sent when it reaches zero. *)
Lemma acknowledge_with_latch message a :
  is_report_started a = true →
  (acknowledge message a).2
  = if expecting_ack a - 1 =? 0
    then set_outbox (outbox a ++ [stop_audit a]) (set_expecting_ack 0 a)
    else set_expecting_ack (expecting_ack a - 1) a.
Proof.
  intros Hset.
  unfold AuditManager.acknowledge, try_finally, bind, modify, lift, get.
  simpl. destruct (expecting_ack a - 1 =? 0) eqn:Hzero; cbn [when].
  - apply Z.eqb_eq in Hzero. rewrite Hzero.
    unfold AuditManager.update_stage, bind, get. simpl. rewrite Hset.
    unfold AuditManager.send_msg, modify. simpl.
    by destruct (acknowledge_nt notifier message) as [[]|e].
  - unfold ret. by destruct (acknowledge_nt notifier message) as [[]|e].
Qed.

(** A run of ACKs while the latch is set: fewer ACKs than the counter
    awaits send nothing, and exactly as many send the stop message with
    the last of them. *)
Lemma drain_with_latch acks :
  ∀ a, is_report_started a = true →
    (Z.of_nat (List.length acks) < expecting_ack a →
     outbox (after_acks a acks) = outbox a ∧
     expecting_ack (after_acks a acks)
     = expecting_ack a - Z.of_nat (List.length acks)) ∧
    (acks ≠ [] → Z.of_nat (List.length acks) = expecting_ack a →
     outbox (after_acks a acks) = outbox a ++ [stop_audit a] ∧
     expecting_ack (after_acks a acks) = 0).
Proof.
  induction acks as [|message rest IH]; intros a Hset.
  { split; [| done]. intros _. simpl. split; [done | lia]. }
  cbn [foldl]. rewrite acknowledge_with_latch by done.
  simpl List.length. split.
  - intros Hfew.
    replace (expecting_ack a - 1 =? 0) with false
      by (symmetry; apply Z.eqb_neq; lia).
    destruct (IH (set_expecting_ack (expecting_ack a - 1) a) Hset)
      as [Hbelow _].
    destruct Hbelow as [Hout Hcount]; [simpl; lia |].
    split; [exact Hout |]. rewrite Hcount. simpl. lia.
  - intros _ Hall. destruct rest as [|message' rest'].
    + replace (expecting_ack a - 1 =? 0) with true
        by (symmetry; apply Z.eqb_eq; simpl in Hall; lia).
      done.
    + replace (expecting_ack a - 1 =? 0) with false
        by (symmetry; apply Z.eqb_neq; simpl List.length in Hall; lia).
      destruct (IH (set_expecting_ack (expecting_ack a - 1) a) Hset)
        as [_ Hexact].
      apply Hexact; [done |]. simpl List.length in *. simpl. lia.
Qed.

(** C7: report generation starts at most once.  A call made with the
    latch set raises and changes nothing.  A call made with the latch
    clear sets it, counts one ACK for the kickoff and one for every
    report plugin the report manager launched, and, whether or not the
    report manager raises, ends by sending one ACK at LOW priority; any
    further call raises without sending.  The report stage then drains:
    as long as fewer ACKs have arrived than the kickoff left the counter
    at, nothing more is sent, and the ACK that brings the counter to zero
    sends the stop message.  With the latch set, a stage update, and so
    the ACK that brings the counter to zero, sends the stop message. *)
Theorem generate_reports_once a message :
  (is_report_started a = true →
     generate_reports a = (Raise twice_error, a)) ∧
  (is_report_started a = false →
     let a' := (generate_reports a).2 in
     is_report_started a' = true ∧
     outbox a' =
       outbox a ++ [mkMessage MSG_TYPE_CONTROL MSG_CONTROL_ACK InfoNone
                              (Some (name a)) None MSG_PRIORITY_LOW] ∧
     (generate_reports a).1 =
       match report_manager_generate_reports notifier with
       | Ok _ => Ok tt
       | Raise e => Raise e
       end ∧
     generate_reports a' = (Raise twice_error, a') ∧
     expecting_ack a' =
       expecting_ack a + 1 +
       match report_manager_generate_reports notifier with
       | Ok launched => launched
       | Raise _ => 0
       end ∧
     (∀ acks,
        (Z.of_nat (List.length acks) < expecting_ack a' →
         outbox (after_acks a' acks) = outbox a') ∧
        (acks ≠ [] → Z.of_nat (List.length acks) = expecting_ack a' →
         outbox (after_acks a' acks) = outbox a' ++ [stop_audit a] ∧
         expecting_ack (after_acks a' acks) = 0))) ∧
  (is_report_started a = true →
     update_stage a =
       (Ok tt,
        set_outbox
          (outbox a ++ [mkMessage MSG_TYPE_CONTROL MSG_CONTROL_STOP_AUDIT
                                  (InfoBool true) (Some (name a)) None
                                  MSG_PRIORITY_MEDIUM]) a) ∧
     (expecting_ack a = 1 →
      outbox (acknowledge message a).2 =
        outbox a ++ [mkMessage MSG_TYPE_CONTROL MSG_CONTROL_STOP_AUDIT
                               (InfoBool true) (Some (name a)) None
                               MSG_PRIORITY_MEDIUM])).
Proof.
  split; [| split].
  - intros Hset. unfold AuditManager.generate_reports, bind, get.
    by rewrite Hset.
  - intros Hclear. cbv zeta.
    assert (Hkick :
      let a' := (generate_reports a).2 in
      is_report_started a' = true ∧
      outbox a' =
        outbox a ++ [mkMessage MSG_TYPE_CONTROL MSG_CONTROL_ACK InfoNone
                               (Some (name a)) None MSG_PRIORITY_LOW] ∧
      (generate_reports a).1 =
        match report_manager_generate_reports notifier with
        | Ok _ => Ok tt
        | Raise e => Raise e
        end ∧
      generate_reports a' = (Raise twice_error, a') ∧
      expecting_ack a' =
        expecting_ack a + 1 +
        match report_manager_generate_reports notifier with
        | Ok launched => launched
        | Raise _ => 0
        end ∧
      name a' = name a).
    { unfold AuditManager.generate_reports, bind, get.
      rewrite Hclear. unfold modify at 1, try_finally, bind, modify at 1, lift.
      destruct (report_manager_generate_reports notifier) as [n|e];
        unfold modify, AuditManager.send_msg; simpl;
        repeat split; try done; lia. }
    cbv zeta in Hkick.
    destruct Hkick as (Hlatch & Hout & Hres & Htwice & Hcount & Hname).
    repeat (split; [done |]).
    intros acks.
    destruct (drain_with_latch acks (generate_reports a).2 Hlatch)
      as [Hbelow Hexact].
    split.
    + intros Hfew. by destruct (Hbelow Hfew).
    + intros Hne Hall. rewrite <- Hname. by apply Hexact.
  - intros Hset.
    assert (Hstop : update_stage a =
       (Ok tt,
        set_outbox
          (outbox a ++ [mkMessage MSG_TYPE_CONTROL MSG_CONTROL_STOP_AUDIT
                                  (InfoBool true) (Some (name a)) None
                                  MSG_PRIORITY_MEDIUM]) a)).
    { unfold AuditManager.update_stage, bind, get. by rewrite Hset. }
    split; [done |]. intros Hack.
    unfold AuditManager.acknowledge, try_finally, bind, modify, lift, get.
    rewrite Hack.
    destruct (acknowledge_nt notifier message) as [[]|e]; simpl;
      unfold AuditManager.update_stage, bind, get; simpl; rewrite Hset;
      reflexivity.
Qed.

(** *** Stage advancement *)

Lemma set_database_same a : set_database (database a) a = a.
Proof. by destruct a. Qed.

(** The loop that marks every pending item finished at a stage. *)
Lemma mark_all_pending pending stage a :
  for_each pending (fun identity =>
    modify (fun a =>
      set_database (mark_stage_finished (database a) identity stage) a)) a
  = (Ok tt,
     set_database
       (foldl (fun db identity => mark_stage_finished db identity stage)
              (database a) pending) a).
Proof.
  revert a. induction pending as [|id l IH]; intros a.
  - simpl. by rewrite set_database_same.
  - cbn [for_each foldl]. unfold bind, modify at 1. rewrite IH. reflexivity.
Qed.

Lemma foldl_mark_store pending stage db :
  store (foldl (fun db identity => mark_stage_finished db identity stage)
               db pending) = store db.
Proof. revert db. induction pending as [|id l IH]; intros db; [done |].
       simpl. by rewrite IH. Qed.

Lemma foldl_mark_stage_done pending stage db id s :
  (id, s) ∈ stage_done
              (foldl (fun db identity => mark_stage_finished db identity stage)
                     db pending)
  ↔ (id, s) ∈ stage_done db ∨ (s = stage ∧ id ∈ pending).
Proof.
  revert db. induction pending as [|x l IH]; intros db.
  - simpl. split; [by left |]. intros [H | [_ H]]; [done |].
    by apply not_elem_of_nil in H.
  - simpl. rewrite IH. unfold mark_stage_finished at 1. simpl.
    rewrite elem_of_union, elem_of_singleton, elem_of_cons.
    split.
    + intros [[[= -> ->] | H] | [-> H]]; eauto.
    + intros [H | [-> [-> | H]]]; eauto.
Qed.

(** The pending items of a stage depend on the records and on the marks
    of that stage alone. *)
Lemma get_pending_data_ext db1 db2 stage :
  store db1 = store db2 →
  (∀ id, (id, stage) ∈ stage_done db1 ↔ (id, stage) ∈ stage_done db2) →
  get_pending_data db1 stage = get_pending_data db2 stage.
Proof.
  intros Hstore Hmarks. unfold get_pending_data. rewrite Hstore.
  apply list_filter_iff. intros id. by rewrite Hmarks.
Qed.

Lemma get_data_ext db1 db2 (ids : list string) :
  store db1 = store db2 →
  omap (get_data db1) ids = omap (get_data db2) ids.
Proof. intros Hstore. unfold get_data. by rewrite Hstore. Qed.

(** What the scan over a list of distinct stages does: it reads the
    stages in order from the first one and stops early only after
    sending; it changes no record and removes no mark; every mark it adds
    is at a stage it read; and at each stage it read where items were
    pending and the notifier found none of them runnable, all of them end
    up marked. *)
Lemma scan_stages_spec stages :
  NoDup stages → ∀ a,
  ∃ sent log a',
    scan_stages stages a = (Ok (sent, log), a') ∧
    log `prefix_of` stages ∧
    head log = head stages ∧
    store (database a') = store (database a) ∧
    (∀ id s, (id, s) ∈ stage_done (database a) →
             (id, s) ∈ stage_done (database a')) ∧
    (∀ id s, (id, s) ∈ stage_done (database a') →
             (id, s) ∈ stage_done (database a) ∨ s ∈ log) ∧
    (∀ s, s ∈ log →
          get_pending_data (database a) s ≠ [] →
          is_runnable_stage notifier
            (omap (get_data (database a)) (get_pending_data (database a) s)) s
          = false →
          ∀ id, id ∈ get_pending_data (database a) s →
                (id, s) ∈ stage_done (database a')).
Proof.
  induction stages as [|stage rest IH]; intros Hnodup a.
  { exists false, [], a. simpl. repeat split; try done; eauto.
    intros s Hs. by apply not_elem_of_nil in Hs. }
  apply NoDup_cons in Hnodup as [Hfresh Hnodup].
  cbn [AuditManager.scan_stages]. unfold bind at 1, modify at 1.
  unfold bind at 1, get at 1.
  set (a1 := set_current_stage stage a).
  change (database a1) with (database a).
  destruct (get_pending_data (database a) stage) as [|id0 pending0] eqn:Hpending.
  - (* Nothing pending: next stage. *)
    destruct (IH Hnodup a1)
      as (sent & log & a' & Hscan & Hprefix & Hhead & Hstore & Hkeep & Hnew & Hmark).
    exists sent, (stage :: log), a'. unfold bind. rewrite Hscan. simpl.
    repeat split; try done.
    + by apply prefix_cons.
    + intros id s Hin. destruct (Hnew id s Hin); [by left |].
      right. by apply elem_of_cons; right.
    + intros s Hs Hne Hrun id Hid.
      apply elem_of_cons in Hs as [-> | Hs].
      * by rewrite Hpending in Hne.
      * by apply (Hmark s Hs Hne Hrun id Hid).
  - rewrite <- Hpending.
    destruct (is_runnable_stage notifier
                (omap (get_data (database a))
                      (get_pending_data (database a) stage)) stage) eqn:Hrunnable;
      cbn [negb].
    + (* Runnable: send and return. *)
      exists true, [stage].
      eexists. unfold bind, AuditManager.send_msg, modify. simpl.
      split; [reflexivity |]. simpl.
      repeat split; try done.
      * apply prefix_cons, prefix_nil.
      * intros id s Hin. by left.
      * intros s Hs Hne Hrun. apply list_elem_of_singleton in Hs as ->.
        by rewrite Hrunnable in Hrun.
    + (* Not runnable: mark all pending data, next stage. *)
      unfold bind at 1. rewrite mark_all_pending.
      set (a2 := set_database _ a1).
      destruct (IH Hnodup a2)
        as (sent & log & a' & Hscan & Hprefix & Hhead & Hstore & Hkeep & Hnew & Hmark).
      assert (Hstore2 : store (database a2) = store (database a)).
      { subst a2. simpl. apply foldl_mark_store. }
      assert (Hmarks2 : ∀ id s,
                 (id, s) ∈ stage_done (database a2)
                 ↔ (id, s) ∈ stage_done (database a) ∨
                   (s = stage ∧ id ∈ get_pending_data (database a) stage)).
      { intros id s. subst a2. simpl. apply foldl_mark_stage_done. }
      exists sent, (stage :: log), a'. unfold bind. rewrite Hscan. simpl.
      repeat split; try done.
      * by apply prefix_cons.
      * congruence.
      * intros id s Hin. apply Hkeep, Hmarks2. by left.
      * intros id s Hin. destruct (Hnew id s Hin) as [Hin2 | Hlog].
        -- apply Hmarks2 in Hin2 as [? | [-> _]]; [by left |].
           right. apply elem_of_cons. by left.
        -- right. apply elem_of_cons. by right.
      * intros s Hs Hne Hrun id Hid.
        apply elem_of_cons in Hs as [-> | Hs].
        -- apply Hkeep, Hmarks2. by right.
        -- assert (Hne_stage : s ≠ stage).
           { intros ->. apply Hfresh. by eapply elem_of_prefix. }
           assert (Hsame : get_pending_data (database a2) s
                           = get_pending_data (database a) s).
           { apply get_pending_data_ext; [done |].
             intros id'. rewrite Hmarks2.
             split; [intros [Hold | [Heq _]]; [done | by destruct Hne_stage]
                    | by left]. }
           apply (Hmark s Hs).
           ++ by rewrite Hsame.
           ++ rewrite Hsame.
              by rewrite (get_data_ext (database a2) (database a)).
           ++ by rewrite Hsame.
Qed.

Local Abbreviation ready a stage :=
  (AuditFacts.ready_stage notifier (database a) stage).

Lemma ready_stage_ext db1 db2 stage :
  store db1 = store db2 →
  (∀ id, (id, stage) ∈ stage_done db1 ↔ (id, stage) ∈ stage_done db2) →
  AuditFacts.ready_stage notifier db1 stage
  ↔ AuditFacts.ready_stage notifier db2 stage.
Proof.
  intros Hstore Hmarks. unfold AuditFacts.ready_stage.
  rewrite (get_pending_data_ext db1 db2 stage Hstore Hmarks).
  by rewrite (get_data_ext db1 db2 _ Hstore).
Qed.

(** How far the scan goes: through all the stages when none is ready,
    and otherwise up to the first ready one, where it sends and returns. *)
Lemma scan_stages_log stages :
  NoDup stages → ∀ a,
  ((∀ s, s ∈ stages → ¬ ready a s) →
   ∃ a', scan_stages stages a = (Ok (false, stages), a')) ∧
  (∀ pre s post,
     stages = pre ++ s :: post →
     (∀ s', s' ∈ pre → ¬ ready a s') → ready a s →
     ∃ a', scan_stages stages a = (Ok (true, pre ++ [s]), a')).
Proof.
  induction stages as [|stage rest IH]; intros Hnodup a.
  { split; [intros _; by exists a |].
    intros pre s post Heq. by destruct pre. }
  apply NoDup_cons in Hnodup as [Hfresh Hnodup].
  (* The rest of the scan, from a state whose database differs from that
     of [a] by marks at [stage] only. *)
  assert (Hrest : ∀ a2,
    store (database a2) = store (database a) →
    (∀ id s, s ≠ stage →
       (id, s) ∈ stage_done (database a2) ↔ (id, s) ∈ stage_done (database a)) →
    ¬ ready a stage →
    ((∀ s, s ∈ stage :: rest → ¬ ready a s) →
     ∃ a', scan_stages rest a2 = (Ok (false, rest), a')) ∧
    (∀ pre s post,
       stage :: rest = pre ++ s :: post →
       (∀ s', s' ∈ pre → ¬ ready a s') → ready a s →
       ∃ pre' a', pre = stage :: pre' ∧
                  scan_stages rest a2 = (Ok (true, pre' ++ [s]), a'))).
  { intros a2 Hstore Hmarks Hnot.
    assert (Hsame : ∀ s, s ∈ rest → ready a2 s ↔ ready a s).
    { intros s Hs. apply ready_stage_ext; [done |].
      intros id. apply Hmarks. by intros ->. }
    destruct (IH Hnodup a2) as [IHall IHfirst]. split.
    - intros Hnone. apply IHall. intros s Hs Hready.
      apply (Hnone s); [by right |]. by apply Hsame.
    - intros pre s post Heq Hpre Hready.
      destruct pre as [|stage' pre']; simpl in Heq.
      { injection Heq as -> ->. by destruct Hnot. }
      injection Heq as -> Hrest.
      destruct (IHfirst pre' s post Hrest) as [a' Hscan].
      + intros s' Hs' Hready'. apply (Hpre s'); [by right |].
        apply Hsame; [| done]. rewrite Hrest. apply elem_of_app. by left.
      + apply Hsame; [| done]. rewrite Hrest. apply elem_of_app. right. by left.
      + by exists pre', a'. }
  destruct (scan_stages (stage :: rest) a) as [r af] eqn:Hrun. revert Hrun.
  cbn [AuditManager.scan_stages]. unfold bind at 1, modify at 1.
  unfold bind at 1, get at 1.
  set (a1 := set_current_stage stage a).
  change (database a1) with (database a).
  destruct (get_pending_data (database a) stage) as [|id0 pending0] eqn:Hpending.
  - (* Nothing pending: next stage. *)
    assert (Hnot : ¬ ready a stage).
    { intros [Hne _]. by rewrite Hpending in Hne. }
    destruct (Hrest a1) as [Hall Hfirst]; [done | done | done |].
    unfold bind. intros Hrun. split.
    + intros Hnone. destruct (Hall Hnone) as [a' Hscan].
      rewrite Hscan in Hrun. injection Hrun as <- <-. by eexists.
    + intros pre s post Heq Hpre Hready.
      destruct (Hfirst pre s post Heq Hpre Hready) as (pre' & a' & -> & Hscan).
      rewrite Hscan in Hrun. injection Hrun as <- <-. by eexists.
  - rewrite <- Hpending.
    destruct (is_runnable_stage notifier
                (omap (get_data (database a))
                      (get_pending_data (database a) stage)) stage) eqn:Hrunnable;
      cbn [negb].
    + (* Runnable: send and return. *)
      assert (Hready : ready a stage).
      { split; [by rewrite Hpending | done]. }
      unfold bind, AuditManager.send_msg, modify. intros [= <- <-]. split.
      * intros Hnone. destruct (Hnone stage); [by left | done].
      * intros pre s post Heq Hpre _.
        destruct pre as [|stage' pre']; simpl in Heq.
        -- injection Heq as <- _. by eexists.
        -- injection Heq as <- _. destruct (Hpre stage); [by left | done].
    + (* Not runnable: mark all pending data, next stage. *)
      assert (Hnot : ¬ ready a stage).
      { intros [_ Hrun]. by rewrite Hrunnable in Hrun. }
      unfold bind at 1. rewrite mark_all_pending.
      set (a2 := set_database _ a1).
      destruct (Hrest a2) as [Hall Hfirst]; [| | done |].
      { subst a2. simpl. apply foldl_mark_store. }
      { intros id s Hs. subst a2. simpl. rewrite foldl_mark_stage_done.
        split; [intros [H | [Heq _]]; [done | by destruct Hs] | by left]. }
      unfold bind. intros Hrun. split.
      * intros Hnone. destruct (Hall Hnone) as [a' Hscan].
        rewrite Hscan in Hrun. injection Hrun as <- <-. by eexists.
      * intros pre s post Heq Hpre Hready.
        destruct (Hfirst pre s post Heq Hpre Hready) as (pre' & a' & -> & Hscan).
        rewrite Hscan in Hrun. injection Hrun as <- <-. by eexists.
Qed.

Lemma generate_reports_database a :
  database (generate_reports a).2 = database a.
Proof.
  unfold AuditManager.generate_reports, bind, get.
  destruct (is_report_started a); [done |].
  unfold modify at 1, try_finally, bind, modify at 1, lift.
  by destruct (report_manager_generate_reports notifier).
Qed.

Lemma head_stage_range :
  min_stage pluginManager ≤ max_stage pluginManager →
  head stage_range = Some (min_stage pluginManager).
Proof.
  intros Hle. unfold AuditManager.stage_range. by rewrite seqZ_cons by lia.
Qed.


(** *** The cap on followed links *)

Lemma warned_refl a : warned_at_most_once a a.
Proof. by left. Qed.

Lemma warned_trans a1 a2 a3 :
  warned_at_most_once a1 a2 → warned_at_most_once a2 a3 →
  warned_at_most_once a1 a3.
Proof.
  intros [[Ho1 Hs1] | (Hs1 & Hs1' & w & Hw & Ho1)]
         [[Ho2 Hs2] | (Hs2 & Hs2' & w' & Hw' & Ho2)].
  - left. split; congruence.
  - right. repeat split; [congruence | done |]. exists w'. split; congruence.
  - right. repeat split; [done | congruence |]. exists w. split; congruence.
  - congruence.
Qed.

Lemma count_link_warns_once data a :
  ∃ keep, (count_link data a).1 = Ok keep ∧
          warned_at_most_once a (count_link data a).2.
Proof.
  unfold AuditManager.count_link, bind, get.
  destruct (negb (has_data_key (database a) (identity data) None) && is_url data);
    [| exists true; split; [done | apply warned_refl]].
  unfold modify at 1. simpl.
  destruct ((0 <? max_links a) && (max_links a <=? followed_links a + 1));
    [| exists true; split; [done | by left]].
  destruct (show_max_links_warning a) eqn:Hshow; simpl.
  - exists false. split; [done |]. right. rewrite Hshow.
    repeat split; try done. eexists. split; [| reflexivity]. done.
  - exists false. split; [done |]. left. by rewrite Hshow.
Qed.

Lemma dispatch_item_warns_once message data_for_plugins o a :
  warned_at_most_once a (dispatch_item message data_for_plugins o a).2.
Proof.
  destruct o as [data | repr]; [| apply warned_refl].
  unfold AuditManager.dispatch_item, bind.
  destruct (count_link_warns_once data a) as (keep & Hkeep & Hwarned).
  destruct (count_link data a) as [r a1]. simpl in Hkeep, Hwarned. subst r.
  destruct keep; simpl; [| done].
  eapply warned_trans; [exact Hwarned |].
  unfold modify at 1.
  destruct (is_in_scope data); [| by left].
  destruct (plugin_name message) as [p|]; [| by left].
  destruct (String.eqb p ""); [by left |].
  unfold lift. destruct (get_plugin_by_name pluginManager p) as [info|e];
    [| by left].
  destruct (recursive info); by left.
Qed.

Lemma dispatch_items_warns_once message l data_for_plugins a :
  warned_at_most_once a (dispatch_items message l data_for_plugins a).2.
Proof.
  revert data_for_plugins a.
  induction l as [|o l IH]; intros data_for_plugins a; [apply warned_refl |].
  cbn [AuditManager.dispatch_items]. unfold bind.
  pose proof (dispatch_item_warns_once message data_for_plugins o a) as Hitem.
  destruct (dispatch_item message data_for_plugins o a) as [[dfp|e] a1];
    simpl in Hitem; [| done].
  eapply warned_trans; [exact Hitem | apply IH].
Qed.

(** Over one dispatch the audit sends at most one cap warning, and none
    once the one-shot flag is down; the flag never comes back up. *)
Lemma dispatch_msg_warns_once message a :
  warned_at_most_once a (dispatch_msg message a).2.
Proof.
  unfold AuditManager.dispatch_msg, AuditManager.__dispatch_msg.
  destruct (message_type message); try apply warned_refl.
  destruct (message_info message) as [|l| | | | |]; try apply warned_refl.
  unfold bind.
  pose proof (dispatch_items_warns_once message l [] a) as Hitems.
  destruct (dispatch_items message l [] a) as [[dfp|e] a1];
    simpl in Hitems; [| done].
  eapply warned_trans; [exact Hitems |].
  unfold get.
  destruct (discover_all _ _ _) as [[db visited] dfp'].
  unfold modify at 1.
  destruct dfp' as [|d dfp'']; [by left |].
  unfold lift. destruct (notify notifier _) as [n|e]; by left.
Qed.

Lemma dispatch_msg_quiet_after_warning message a :
  show_max_links_warning a = false →
  outbox (dispatch_msg message a).2 = outbox a ∧
  show_max_links_warning (dispatch_msg message a).2 = false.
Proof.
  intros Hdown.
  destruct (dispatch_msg_warns_once message a) as [[Hout Hshow] | (Hup & _)];
    [split; congruence | congruence].
Qed.

(** *** The discovery loop terminates *)

Lemma queue_size_cons data queue :
  queue_size (data :: queue) = (data_size data + queue_size queue)%nat.
Proof. reflexivity. Qed.

Lemma queue_size_app q1 q2 :
  queue_size (q1 ++ q2) = (queue_size q1 + queue_size q2)%nat.
Proof. unfold queue_size. by rewrite map_app, list_sum_app. Qed.

Lemma data_size_discovered data :
  data_size data = S (queue_size (discovered data)).
Proof. by destruct data. Qed.

(** [queue_size queue] iterations are enough: any larger bound gives the
    same result, so the loop is total. *)
Lemma discover_fuel_enough n :
  ∀ queue st m,
    (queue_size queue ≤ n)%nat → (n ≤ m)%nat →
    discover pluginManager m queue st = discover pluginManager n queue st.
Proof.
  induction n as [|n IH]; intros queue st m Hsize Hle.
  - destruct queue as [|data queue].
    + by destruct m.
    + rewrite queue_size_cons, data_size_discovered in Hsize. lia.
  - destruct m as [|m]; [lia |].
    destruct queue as [|data queue]; [done |].
    rewrite queue_size_cons, data_size_discovered in Hsize.
    destruct st as [[db visited] dfp]. cbn [discover].
    destruct (bool_decide (identity data ∉ visited) &&
              negb (has_data_key db (identity data) None)).
    + destruct (is_in_scope data);
        apply IH; rewrite ?queue_size_app; lia.
    + apply IH; lia.
Qed.

End Coordinator.

(** *** The code on concrete audits *)

Local Abbreviation nt_demo := (spec_notifier pm_demo).
Local Abbreviation spider := "testing/recon/spider".
Local Abbreviation brute := "testing/scan/brute".

(** C1, the code on one in-scope item sent back by a plugin: the pair is
    left unmarked for the plugin that is not recursive, and marked for
    the recursive one. *)
Theorem dispatch_marks_recursive_producer_only :
  (recursive <$> plugins pm_demo !! spider) = Some false ∧
  has_plugin_finished
    (database (dispatch_msg 2 pm_demo nt_demo
                 (data_msg "audit-1" (Some spider) [ObjData (url_item 1)])
                 (new_audit "audit-1" 0 pm_demo)).2)
    "url-1" spider = false ∧
  (recursive <$> plugins pm_demo !! brute) = Some true ∧
  has_plugin_finished
    (database (dispatch_msg 2 pm_demo nt_demo
                 (data_msg "audit-1" (Some brute) [ObjData (url_item 1)])
                 (new_audit "audit-1" 0 pm_demo)).2)
    "url-1" brute = true.
Proof. vm_compute. done. Qed.

(** The target items of the sample scope, none of which [run] stores. *)
Example scope_demo_targets :
  get_targets IP_demo Domain_demo Url_demo scope_demo
  = [IP_demo "93.184.216.34"; Domain_demo "example.com";
     Url_demo "http://example.com/"].
Proof. vm_compute. reflexivity. Qed.

Example run_scope_demo :
  let a' := (run 1 (fun db => Ok db) IP_demo Domain_demo Url_demo
                 (Ok scope_demo) true empty_db
                 (new_audit "audit-1" 0 pm_demo)).2 in
  database a' = empty_db ∧
  outbox a' = [data_msg "audit-1" None
                 [ObjData (IP_demo "93.184.216.34");
                  ObjData (Domain_demo "example.com");
                  ObjData (Url_demo "http://example.com/")]].
Proof. vm_compute. done. Qed.

(** C3, the code at [max_links = 2] and ten new URL resources in one
    message: one URL resource is admitted, not two; one warning about the
    cap is sent; the one-shot flag is down afterwards. *)
Theorem dispatch_ten_urls_cap_two_admits_one :
  let a' := (dispatch_msg 2 pm_demo nt_demo
               (data_msg "audit-1" (Some spider) ten_urls)
               (new_audit "audit-1" 2 pm_demo)).2 in
  stored_urls (database a') = 1%nat ∧
  count_warnings (outbox a') = 1%nat ∧
  show_max_links_warning a' = false.
Proof. vm_compute. done. Qed.

(** With the cap at three the same message gets two URL resources in. *)
Example dispatch_ten_urls_cap_three :
  stored_urls
    (database (dispatch_msg 2 pm_demo nt_demo
                 (data_msg "audit-1" (Some spider) ten_urls)
                 (new_audit "audit-1" 3 pm_demo)).2) = 2%nat.
Proof. vm_compute. reflexivity. Qed.



Lemma generate_reports_once_witness :
  is_report_started
    (generate_reports 0 nt_demo one_report audit_before_last_stage).2 = true ∧
  expecting_ack
    (generate_reports 0 nt_demo one_report audit_before_last_stage).2
  = expecting_ack audit_before_last_stage + 1 + 1 ∧
  outbox (acknowledge 0 1 pm_demo nt_demo one_report
            (ack_msg "audit-1" None None) audit_reporting).2
  = [mkMessage MSG_TYPE_CONTROL MSG_CONTROL_STOP_AUDIT (InfoBool true)
               (Some "audit-1") None 1].
Proof.
  split; [| split].
  - destruct (generate_reports_once 0 1 pm_demo nt_demo one_report
                audit_before_last_stage (ack_msg "audit-1" None None))
      as (_ & Hfirst & _).
    destruct (Hfirst eq_refl) as (Hlatch & _). exact Hlatch.
  - destruct (generate_reports_once 0 1 pm_demo nt_demo one_report
                audit_before_last_stage (ack_msg "audit-1" None None))
      as (_ & Hfirst & _).
    destruct (Hfirst eq_refl) as (_ & _ & _ & _ & Hcount & _). exact Hcount.
  - destruct (generate_reports_once 0 1 pm_demo nt_demo one_report
                audit_reporting (ack_msg "audit-1" None None))
      as (_ & _ & Hstop).
    destruct (Hstop eq_refl) as (_ & Hack). exact (Hack eq_refl).
Defined.

End AuditManagerProofs.

(** ** Rules for stateful computations *)

Module STRules.
Import STLogic.

Section Keeps.

Context {S : Type} (R : S → S → Prop) `{!PreOrder R}.

Lemma keeps_lift {A} (r : result A) : keeps R (lift r).
Proof. intros s. simpl. reflexivity. Qed.

Lemma keeps_ret {A} (x : A) : keeps R (ret x).
Proof. apply keeps_lift. Qed.

Lemma keeps_raise {A} (e : exn) : keeps R (@raise S A e).
Proof. apply keeps_lift. Qed.

Lemma keeps_get : keeps R (@get S).
Proof. intros s. simpl. reflexivity. Qed.

Lemma keeps_modify (f : S → S) : (∀ s, R s (f s)) → keeps R (modify f).
Proof. intros Hf s. apply Hf. Qed.

Lemma keeps_bind {A B} (c : ST S A) (k : A → ST S B) :
  keeps R c → (∀ x, keeps R (k x)) → keeps R (bind c k).
Proof.
  intros Hc Hk s. unfold bind. specialize (Hc s).
  destruct (c s) as [[x|e] s1]; simpl in *; [| done].
  etrans; [exact Hc | apply Hk].
Qed.

Lemma keeps_when (b : bool) (c : ST S unit) : keeps R c → keeps R (when b c).
Proof. destruct b; [done | intros _; apply keeps_ret]. Qed.

Lemma keeps_try_finally {A} (body : ST S A) (fin : ST S unit) :
  keeps R body → keeps R fin → keeps R (try_finally body fin).
Proof.
  intros Hb Hf s. unfold try_finally. specialize (Hb s).
  destruct (body s) as [r s1]. specialize (Hf s1).
  destruct (fin s1) as [[[]|e] s2]; simpl in *; by etrans.
Qed.

Lemma keeps_try_except {A} (body : ST S A) catches (handler : exn → ST S A) :
  keeps R body → (∀ e, keeps R (handler e)) →
  keeps R (try_except body catches handler).
Proof.
  intros Hb Hh s. unfold try_except. specialize (Hb s).
  destruct (body s) as [[x|e] s1]; simpl in *; [done |].
  destruct (catches e); [| done]. etrans; [exact Hb | apply Hh].
Qed.

Lemma keeps_for_each {A} (l : list A) (body : A → ST S unit) :
  (∀ x, keeps R (body x)) → keeps R (for_each l body).
Proof.
  intros Hbody. induction l as [|x l IH]; [apply keeps_ret |].
  cbn [for_each]. apply keeps_bind; [apply Hbody | by intros _].
Qed.

End Keeps.

Section Triple.

Context {S : Type}.

Lemma triple_conseq {A} (P P' : S → Prop) (Q Q' : A → S → Prop) (c : ST S A) :
  (∀ s, P' s → P s) → (∀ x s, Q x s → Q' x s) →
  triple P c Q → triple P' c Q'.
Proof. intros HP HQ Hc s Hs x s' Hrun. eapply HQ, Hc; eauto. Qed.

Lemma triple_ret {A} (P : S → Prop) (x : A) :
  triple P (ret x) (fun y s => y = x ∧ P s).
Proof. by intros s Hs y s' [= <- <-]. Qed.

Lemma triple_lift {A} (P : S → Prop) (r : result A) :
  triple P (lift r) (fun y s => r = Ok y ∧ P s).
Proof. intros s Hs y s' [= -> <-]. done. Qed.

Lemma triple_get (P : S → Prop) :
  triple P get (fun y s => y = s ∧ P s).
Proof. by intros s Hs y s' [= <- <-]. Qed.

Lemma triple_modify (P : S → Prop) (f : S → S) :
  triple P (modify f) (fun _ s' => ∃ s, P s ∧ s' = f s).
Proof. intros s Hs y s' [= <-]. eauto. Qed.

Lemma triple_bind {A B} (P : S → Prop) (Q : A → S → Prop) (T : B → S → Prop)
      (c : ST S A) (k : A → ST S B) :
  triple P c Q → (∀ x, triple (Q x) (k x) T) → triple P (bind c k) T.
Proof.
  intros Hc Hk s Hs y s' Hrun. unfold bind in Hrun.
  destruct (c s) as [[x|e] s1] eqn:Hcs; [| done].
  eapply Hk; [| exact Hrun]. by eapply Hc.
Qed.

Lemma triple_when (P : S → Prop) (b : bool) (c : ST S unit)
      (Q : unit → S → Prop) :
  (b = true → triple P c Q) → (b = false → ∀ s, P s → Q tt s) →
  triple P (when b c) Q.
Proof.
  intros Hc Hskip. destruct b; [by apply Hc |].
  intros s Hs [] s' [= <-]. by apply Hskip.
Qed.

End Triple.

End STRules.

(** ** Invariants of the coordinator *)

Module AuditInvariants.
Import Messaging AuditManager AuditFacts STLogic STRules.

#[local] Set Warnings "-clear-no-such-hyp".

Lemma db_le_refl db : db_le db db.
Proof. by repeat split. Qed.

Lemma db_le_trans db1 db2 db3 : db_le db1 db2 → db_le db2 db3 → db_le db1 db3.
Proof.
  intros (Hs1 & Hp1 & Hg1) (Hs2 & Hp2 & Hg2).
  repeat split; etrans; eauto.
Qed.

Lemma db_le_add_data db data : db_le db (add_data db data).
Proof.
  repeat split; try done. simpl. apply dom_insert_subseteq.
Qed.

Lemma db_le_mark_plugin db id p : db_le db (mark_plugin_finished db id p).
Proof. repeat split; try done. simpl. apply union_subseteq_r. Qed.

Lemma db_le_mark_stage db id s : db_le db (mark_stage_finished db id s).
Proof. repeat split; try done. simpl. apply union_subseteq_r. Qed.

Lemma deliverable_mono db db' d :
  db_le db db' → deliverable db d → deliverable db' d.
Proof.
  intros (Hdom & _) [Hscope Hin]. split; [done |].
  apply elem_of_dom, Hdom, elem_of_dom, Hin.
Qed.

Lemma deliverable_add_data db data :
  is_in_scope data = true → deliverable (add_data db data) data.
Proof.
  intros Hscope. split; [done |]. simpl. rewrite lookup_insert_eq. by eexists.
Qed.

Section Dispatch.

Variable MSG_PRIORITY_HIGH : Z.
Variable pluginManager : PluginManager.
Variable notifier : AuditNotifier.

Local Abbreviation count_link := (count_link MSG_PRIORITY_HIGH).
Local Abbreviation dispatch_item :=
  (dispatch_item MSG_PRIORITY_HIGH pluginManager).
Local Abbreviation dispatch_items :=
  (dispatch_items MSG_PRIORITY_HIGH pluginManager).
Local Abbreviation discover := (discover pluginManager).
Local Abbreviation discover_all := (discover_all pluginManager).
Local Abbreviation dispatch_msg :=
  (dispatch_msg MSG_PRIORITY_HIGH pluginManager notifier).

(** Counting a link touches neither the database nor the ACK counter. *)
Lemma count_link_frame data a :
  database (count_link data a).2 = database a ∧
  expecting_ack (count_link data a).2 = expecting_ack a ∧
  ∃ keep, (count_link data a).1 = Ok keep.
Proof.
  unfold AuditManager.count_link, bind, get.
  destruct (negb (has_data_key (database a) (identity data) None) && is_url data);
    [| by eauto].
  unfold modify at 1. simpl.
  destruct ((0 <? max_links a) && (max_links a <=? followed_links a + 1));
    [| by eauto].
  destruct (show_max_links_warning a); simpl; eauto.
Qed.

(** What [dispatch_item] does once the link count let the item through. *)
Lemma dispatch_item_kept message data_for_plugins data a a1 :
  count_link data a = (Ok true, a1) →
  ∃ r db,
    dispatch_item message data_for_plugins (ObjData data) a
    = (r, set_database db a1) ∧
    db_le (database a1) db ∧
    is_Some (store db !! identity data) ∧
    (∀ l, r = Ok l →
          (is_in_scope data = true ∧ l = data_for_plugins ++ [data]) ∨
          (is_in_scope data = false ∧ l = data_for_plugins ∧
           (identity data, max_stage pluginManager) ∈ stage_done db)).
Proof.
  intros Hlink. unfold AuditManager.dispatch_item, bind. rewrite Hlink.
  cbn [negb]. unfold modify at 1.
  assert (Hstored : ∀ db', db_le (add_data (database a1) data) db' →
                           is_Some (store db' !! identity data)).
  { intros db' (Hdom & _). apply elem_of_dom, Hdom. simpl.
    apply elem_of_dom. rewrite lookup_insert_eq. by eexists. }
  destruct (is_in_scope data) eqn:Hscope.
  - destruct (plugin_name message) as [p|]; simpl.
    2:{ eexists _, _. split; [reflexivity |].
        split; [apply db_le_add_data |].
        split; [apply Hstored, db_le_refl |].
        intros l [= <-]. by left. }
    destruct (String.eqb p ""); simpl.
    { eexists _, _. split; [reflexivity |].
      split; [apply db_le_add_data |].
      split; [apply Hstored, db_le_refl |].
      intros l [= <-]. by left. }
    unfold lift. destruct (get_plugin_by_name pluginManager p) as [info|e]; simpl.
    2:{ eexists _, _. split; [reflexivity |].
        split; [apply db_le_add_data |].
        split; [apply Hstored, db_le_refl |]. by intros l [=]. }
    destruct (recursive info); simpl.
    + eexists _, _. split; [reflexivity |].
      split; [eapply db_le_trans; [apply db_le_add_data | apply db_le_mark_plugin] |].
      split; [apply Hstored, db_le_mark_plugin |].
      intros l [= <-]. by left.
    + eexists _, _. split; [reflexivity |].
      split; [apply db_le_add_data |].
      split; [apply Hstored, db_le_refl |].
      intros l [= <-]. by left.
  - simpl. eexists _, _. split; [reflexivity |].
    split; [eapply db_le_trans; [apply db_le_add_data | apply db_le_mark_stage] |].
    split; [apply Hstored, db_le_mark_stage |].
    intros l [= <-]. right. repeat split; try done.
    simpl. apply elem_of_union. left. by apply elem_of_singleton.
Qed.

Lemma count_link_config data a :
  max_links (count_link data a).2 = max_links a ∧
  name (count_link data a).2 = name a.
Proof.
  unfold AuditManager.count_link, bind, get.
  destruct (negb (has_data_key (database a) (identity data) None) && is_url data);
    [| done].
  unfold modify at 1. simpl.
  destruct ((0 <? max_links a) && (max_links a <=? followed_links a + 1));
    [| done].
  by destruct (show_max_links_warning a).
Qed.

(** With the cap off ([max_links] not positive) no item is skipped. *)
Lemma count_link_without_cap data a :
  max_links a ≤ 0 → (count_link data a).1 = Ok true.
Proof.
  intros Hcap. unfold AuditManager.count_link, bind, get.
  destruct (negb (has_data_key (database a) (identity data) None) && is_url data);
    [| done].
  unfold modify at 1. simpl.
  replace (0 <? max_links a) with false by (symmetry; apply Z.ltb_ge; lia).
  done.
Qed.

(** One item of the payload: nothing is lost from the database, the ACK
    counter and the cap stay, and the list for the plugins stays made of
    deliverable items. *)
Lemma dispatch_item_inv message data_for_plugins o a :
  db_le (database a) (database (dispatch_item message data_for_plugins o a).2) ∧
  expecting_ack (dispatch_item message data_for_plugins o a).2 = expecting_ack a ∧
  max_links (dispatch_item message data_for_plugins o a).2 = max_links a ∧
  (∀ l, (dispatch_item message data_for_plugins o a).1 = Ok l →
        Forall (deliverable (database a)) data_for_plugins →
        Forall (deliverable
                  (database (dispatch_item message data_for_plugins o a).2)) l).
Proof.
  destruct o as [data | repr].
  2:{ simpl. split; [apply db_le_refl |]. repeat split; try done.
      by intros l [= <-]. }
  destruct (count_link_frame data a) as (Hdb & Hack & keep & Hkeep).
  destruct (count_link_config data a) as (Hcap & _).
  destruct (count_link data a) as [r a1] eqn:Hlink.
  simpl in Hdb, Hack, Hkeep, Hcap. subst r.
  destruct keep.
  - destruct (dispatch_item_kept message data_for_plugins data a a1 Hlink)
      as (r & db & -> & Hle & Hstored & Hres).
    simpl. rewrite <- Hdb. split; [done |]. split; [done |]. split; [done |].
    intros l Hl Hall.
    assert (Hold : Forall (deliverable db) data_for_plugins).
    { eapply Forall_impl; [exact Hall |]. intros d. by apply deliverable_mono. }
    destruct (Hres l Hl) as [[Hscope ->] | (Hscope & -> & _)]; [| done].
    apply Forall_app. split; [done |]. by repeat constructor.
  - unfold AuditManager.dispatch_item, bind. rewrite Hlink. simpl.
    rewrite Hdb. split; [apply db_le_refl |]. repeat split; try done.
    by intros l [= <-].
Qed.

Lemma dispatch_items_inv message l data_for_plugins a :
  db_le (database a) (database (dispatch_items message l data_for_plugins a).2) ∧
  expecting_ack (dispatch_items message l data_for_plugins a).2 = expecting_ack a ∧
  max_links (dispatch_items message l data_for_plugins a).2 = max_links a ∧
  (∀ l', (dispatch_items message l data_for_plugins a).1 = Ok l' →
         Forall (deliverable (database a)) data_for_plugins →
         Forall (deliverable
                   (database (dispatch_items message l data_for_plugins a).2)) l').
Proof.
  revert data_for_plugins a.
  induction l as [|o l IH]; intros data_for_plugins a.
  { simpl. split; [apply db_le_refl |]. repeat split; try done.
    by intros l' [= <-]. }
  cbn [AuditManager.dispatch_items]. unfold bind.
  destruct (dispatch_item_inv message data_for_plugins o a)
    as (Hle & Hack & Hcap & Hall).
  destruct (dispatch_item message data_for_plugins o a) as [[dfp|e] a1];
    simpl in Hle, Hack, Hcap, Hall.
  - destruct (IH dfp a1) as (Hle' & Hack' & Hcap' & Hall').
    split; [by eapply db_le_trans |]. split; [congruence |]. split; [congruence |].
    intros l' Hres Hdel. apply Hall'; [done |]. by apply Hall.
  - simpl. split; [done |]. split; [done |]. split; [done |]. by intros l' [=].
Qed.

(** *** The discovery loop *)

(** The loop overwrites no record, loses nothing, appends to the list for
    the plugins only, and every item it appends is deliverable and was not
    on record before. *)
Lemma discover_inv fuel :
  ∀ queue db visited data_for_plugins,
    let '(db', visited', l) := discover fuel queue (db, visited, data_for_plugins) in
    db_le db db' ∧ records_kept db db' ∧ visited ⊆ visited' ∧
    ∃ added,
      l = data_for_plugins ++ added ∧
      Forall (fun d => deliverable db' d ∧ store db !! identity d = None) added.
Proof.
  induction fuel as [|fuel IH]; intros queue db visited data_for_plugins.
  { simpl. split; [apply db_le_refl |]. split; [by intros id d Hd |].
    split; [done |]. exists []. by rewrite app_nil_r. }
  destruct queue as [|data queue].
  { simpl. split; [apply db_le_refl |]. split; [by intros id d Hd |].
    split; [done |]. exists []. by rewrite app_nil_r. }
  cbn [AuditManager.discover].
  destruct (bool_decide (identity data ∉ visited)) eqn:Hvisited; cbn [andb];
    [| apply IH].
  destruct (has_data_key db (identity data) None) eqn:Hkey; cbn [negb];
    [apply IH |].
  assert (Hnew : store db !! identity data = None).
  { unfold has_data_key in Hkey. by destruct (store db !! identity data). }
  assert (Hkept : records_kept db (add_data db data)).
  { intros id d Hd. simpl. rewrite lookup_insert_ne; [done |]. congruence. }
  destruct (is_in_scope data) eqn:Hscope.
  - specialize (IH (queue ++ discovered data) (add_data db data)
                   ({[identity data]} ∪ visited) (data_for_plugins ++ [data])).
    destruct (discover fuel _ _) as [[db' visited'] l].
    destruct IH as (Hle & Hrec & Hvis & added & -> & Hadded).
    split; [eapply db_le_trans; [apply db_le_add_data | done] |].
    split; [intros id d Hd; by apply Hrec, Hkept |].
    split; [set_solver |].
    exists (data :: added). split; [by rewrite <- app_assoc |].
    constructor.
    + split; [| done]. eapply deliverable_mono; [exact Hle |].
      by apply deliverable_add_data.
    + eapply Forall_impl; [exact Hadded |]. intros d [Hdel Hnone].
      split; [done |]. simpl in Hnone.
      destruct (decide (identity data = identity d)) as [Heq | Hne].
      * by rewrite Heq, lookup_insert_eq in Hnone.
      * by rewrite lookup_insert_ne in Hnone.
  - specialize (IH (queue ++ discovered data)
                   (mark_stage_finished (add_data db data) (identity data)
                                        (max_stage pluginManager))
                   ({[identity data]} ∪ visited) data_for_plugins).
    destruct (discover fuel _ _) as [[db' visited'] l].
    destruct IH as (Hle & Hrec & Hvis & added & -> & Hadded).
    split; [eapply db_le_trans; [| exact Hle];
            eapply db_le_trans; [apply db_le_add_data | apply db_le_mark_stage] |].
    split; [intros id d Hd; by apply Hrec, Hkept |].
    split; [set_solver |].
    exists added. split; [done |].
    eapply Forall_impl; [exact Hadded |]. intros d [Hdel Hnone].
    split; [done |]. simpl in Hnone.
    destruct (decide (identity data = identity d)) as [Heq | Hne].
    + by rewrite Heq, lookup_insert_eq in Hnone.
    + by rewrite lookup_insert_ne in Hnone.
Qed.

Lemma discover_all_inv originals :
  ∀ db visited data_for_plugins,
    let '(db', visited', l) :=
      discover_all originals (db, visited, data_for_plugins) in
    db_le db db' ∧ records_kept db db' ∧ visited ⊆ visited' ∧
    ∃ added,
      l = data_for_plugins ++ added ∧
      Forall (fun d => deliverable db' d ∧ store db !! identity d = None) added.
Proof.
  unfold AuditManager.discover_all.
  induction originals as [|data originals IH]; intros db visited data_for_plugins.
  { simpl. split; [apply db_le_refl |]. split; [by intros id d Hd |].
    split; [done |]. exists []. by rewrite app_nil_r. }
  cbn [foldl].
  pose proof (discover_inv (queue_size (discovered data)) (discovered data)
                           db visited data_for_plugins) as Hstep.
  destruct (discover _ _ _) as [[db1 visited1] l1].
  destruct Hstep as (Hle1 & Hrec1 & Hvis1 & added1 & -> & Hadded1).
  specialize (IH db1 visited1 (data_for_plugins ++ added1)).
  destruct (foldl _ _ originals) as [[db' visited'] l].
  destruct IH as (Hle & Hrec & Hvis & added & -> & Hadded).
  split; [by eapply db_le_trans |].
  split; [intros id d Hd; by apply Hrec, Hrec1 |].
  split; [set_solver |].
  exists (added1 ++ added). split; [by rewrite app_assoc |].
  apply Forall_app. split.
  - eapply Forall_impl; [exact Hadded1 |]. intros d [Hdel Hnone].
    split; [| done]. by eapply deliverable_mono.
  - eapply Forall_impl; [exact Hadded |]. intros d [Hdel Hnone].
    split; [done |].
    destruct (store db !! identity d) as [d0|] eqn:Hd; [| done].
    apply Hrec1 in Hd. congruence.
Qed.

(** *** A whole dispatch *)

(** The message [__dispatch_msg] hands to the notifier: the incoming one
    with its payload replaced. *)
Local Abbreviation with_payload message l :=
  (mkMessage (message_type message) (message_code message)
             (InfoData (map ObjData l)) (audit_name message)
             (plugin_name message) (priority message)).

Lemma dispatch_msg_spec message a r a' :
  dispatch_msg message a = (r, a') →
  db_le (database a) (database a') ∧
  (r = Ok true →
   ∃ l n, l ≠ [] ∧
          Forall (deliverable (database a')) l ∧
          notify notifier (with_payload message l) = Ok n ∧
          expecting_ack a' = expecting_ack a + n) ∧
  (r ≠ Ok true → expecting_ack a' = expecting_ack a).
Proof.
  unfold AuditManager.dispatch_msg, AuditManager.__dispatch_msg.
  destruct (message_type message) eqn:Htype;
    try (intros [= <- <-]; split; [apply db_le_refl | split; [by intros [=] | done]]).
  destruct (message_info message) as [|payload| | | | |];
    try (intros [= <- <-]; split; [apply db_le_refl | split; [by intros [=] | done]]).
  unfold bind at 1.
  destruct (dispatch_items_inv message payload [] a) as (Hle & Hack & _ & Hall).
  destruct (dispatch_items message payload [] a) as [[dfp|e] a1];
    simpl in Hle, Hack, Hall;
    [| intros [= <- <-]; split; [done | split; [by intros [=] | done]]].
  specialize (Hall dfp eq_refl (Forall_nil_2 _)).
  unfold bind at 1, get at 1.
  pose proof (discover_all_inv dfp (database a1)
                (list_to_set (identity <$> dfp)) dfp) as Hdisc.
  destruct (discover_all _ _) as [[db visited] l].
  destruct Hdisc as (Hle' & _ & _ & added & -> & Hadded).
  unfold bind at 1, modify at 1.
  assert (Hdeliv : Forall (deliverable db) (dfp ++ added)).
  { apply Forall_app. split.
    - eapply Forall_impl; [exact Hall |]. intros d. by apply deliverable_mono.
    - eapply Forall_impl; [exact Hadded |]. by intros d [Hd _]. }
  assert (Hgrow : db_le (database a) db) by by eapply db_le_trans.
  destruct (dfp ++ added) as [|d0 l0] eqn:Hl.
  { intros [= <- <-]. split; [done |]. split; [by intros [=] | done]. }
  unfold bind, lift.
  destruct (notify notifier _) as [n|e] eqn:Hnotify; simpl.
  - intros [= <- <-]. split; [done |]. split; [| done]. intros _.
    exists (d0 :: l0), n. simpl. repeat split; try done.
    by rewrite Hack.
  - intros [= <- <-]. split; [done |]. split; [by intros [=] | done].
Qed.

(** X1: The coordinator never deletes: after a dispatch, whatever its outcome,
    every identity on record and every progress mark is still there. *)
Theorem dispatch_msg_never_deletes message a :
  db_le (database a) (database (dispatch_msg message a).2).
Proof.
  destruct (dispatch_msg message a) as [r a'] eqn:Hrun.
  by destruct (dispatch_msg_spec message a r a' Hrun).
Qed.

(** X2: When a dispatch reports the message as sent, the notifier was handed
    a non-empty list of items that are all in scope and on record, and
    the ACK counter grew by the number of plugins it notified; in every
    other case the counter is unchanged. *)
Theorem dispatch_msg_counts_notified_plugins message a :
  ((dispatch_msg message a).1 = Ok true →
   ∃ l n, l ≠ [] ∧
          Forall (deliverable (database (dispatch_msg message a).2)) l ∧
          notify notifier (with_payload message l) = Ok n ∧
          expecting_ack (dispatch_msg message a).2 = expecting_ack a + n) ∧
  ((dispatch_msg message a).1 ≠ Ok true →
   expecting_ack (dispatch_msg message a).2 = expecting_ack a).
Proof.
  destruct (dispatch_msg message a) as [r a'] eqn:Hrun.
  by destruct (dispatch_msg_spec message a r a' Hrun) as (_ & Hsent & Hnot).
Qed.

(** X3: Discovered data already in the database is ignored: the discovery
    pass overwrites no record, and each item it adds to the list for the
    plugins is in scope, on record afterwards and was not on record
    before. *)
Theorem discover_all_ignores_known_data originals db visited data_for_plugins :
  ∃ added,
    (discover_all originals (db, visited, data_for_plugins)).2
    = data_for_plugins ++ added ∧
    records_kept db (discover_all originals (db, visited, data_for_plugins)).1.1 ∧
    Forall (fun d =>
              deliverable
                (discover_all originals (db, visited, data_for_plugins)).1.1 d ∧
              store db !! identity d = None) added.
Proof.
  pose proof (discover_all_inv originals db visited data_for_plugins) as Hinv.
  destruct (discover_all _ _) as [[db' visited'] l].
  destruct Hinv as (_ & Hrec & _ & added & -> & Hadded).
  by exists added.
Qed.

(** X4: With the cap off, the loop over the payload delivers exactly the
    in-scope [Data] items, in order; every [Data] item of the payload is
    on record afterwards, and every out-of-scope one is marked finished
    at the last stage. *)
Theorem dispatch_items_without_cap message l :
  ∀ data_for_plugins a l',
    max_links a ≤ 0 →
    (dispatch_items message l data_for_plugins a).1 = Ok l' →
    l' = data_for_plugins ++
         filter (fun d => is_in_scope d = true) (payload_data l) ∧
    ∀ d, d ∈ payload_data l →
         is_Some (store (database (dispatch_items message l data_for_plugins a).2)
                  !! identity d) ∧
         (is_in_scope d = false →
          (identity d, max_stage pluginManager)
          ∈ stage_done (database (dispatch_items message l data_for_plugins a).2)).
Proof.
  induction l as [|o l IH]; intros data_for_plugins a l' Hcap Hres.
  { simpl in *. injection Hres as <-. rewrite app_nil_r. split; [done |].
    intros d Hd. by apply elem_of_nil in Hd. }
  cbn [AuditManager.dispatch_items] in *. unfold bind in *.
  destruct o as [data | repr].
  2:{ simpl in *. by apply IH. }
  pose proof (count_link_without_cap data a Hcap) as Hkeep.
  destruct (count_link_config data a) as (Hcfg & _).
  destruct (count_link data a) as [r a1] eqn:Hlink. simpl in Hkeep, Hcfg. subst r.
  destruct (dispatch_item_kept message data_for_plugins data a a1 Hlink)
    as (r & db & Hitem & Hle & Hstored & Hcases).
  rewrite Hitem in *.
  destruct r as [dfp|e]; [| done].
  assert (Hcap1 : max_links (set_database db a1) ≤ 0) by (simpl; lia).
  destruct (IH dfp (set_database db a1) l' Hcap1 Hres) as (Hl' & Hrest).
  destruct (dispatch_items_inv message l dfp (set_database db a1))
    as ((Hdom & _ & Hmarks) & _).
  simpl in Hdom, Hmarks.
  change (payload_data (ObjData data :: l)) with (data :: payload_data l).
  split.
  - rewrite Hl'. destruct (Hcases dfp eq_refl) as [[Hscope ->] | (Hscope & -> & _)].
    + rewrite filter_cons_True by done. by rewrite <- app_assoc.
    + rewrite filter_cons_False by congruence. done.
  - intros d [-> | Hd]%elem_of_cons; [| by apply Hrest].
    split.
    + apply elem_of_dom, Hdom, elem_of_dom, Hstored.
    + intros Hout. apply Hmarks.
      destruct (Hcases dfp eq_refl) as [[Hscope _] | (_ & _ & Hmark)];
        [congruence | done].
Qed.

End Dispatch.

Section Stages.

Variable MSG_PRIORITY_LOW MSG_PRIORITY_MEDIUM MSG_PRIORITY_HIGH : Z.
Variable pluginManager : PluginManager.
Variable notifier : AuditNotifier.
Variable report_manager_generate_reports : AuditNotifier → result Z.
Variable import_results : AuditDB → result AuditDB.
Variable IP Domain Url : string → Data.

Local Abbreviation generate_reports :=
  (generate_reports MSG_PRIORITY_LOW notifier report_manager_generate_reports).
Local Abbreviation update_stage :=
  (update_stage MSG_PRIORITY_LOW MSG_PRIORITY_MEDIUM pluginManager notifier
                report_manager_generate_reports).
Local Abbreviation acknowledge :=
  (acknowledge MSG_PRIORITY_LOW MSG_PRIORITY_MEDIUM pluginManager notifier
               report_manager_generate_reports).
Local Abbreviation scan_stages := (scan_stages MSG_PRIORITY_MEDIUM notifier).
Local Abbreviation stage_range := (stage_range pluginManager).
Local Abbreviation run :=
  (run MSG_PRIORITY_MEDIUM import_results IP Domain Url).

Local Abbreviation ack_of a :=
  (mkMessage MSG_TYPE_CONTROL MSG_CONTROL_ACK InfoNone (Some (name a)) None
             MSG_PRIORITY_LOW).
Local Abbreviation stop_of a :=
  (mkMessage MSG_TYPE_CONTROL MSG_CONTROL_STOP_AUDIT (InfoBool true)
             (Some (name a)) None MSG_PRIORITY_MEDIUM).
Local Abbreviation data_of a datalist :=
  (mkMessage MSG_TYPE_DATA MSG_DATA (InfoData (map ObjData datalist))
             (Some (name a)) None MSG_PRIORITY_MEDIUM).

Lemma filter_none {A} (P : A → Prop) `{∀ x, Decision (P x)} (l : list A) :
  (∀ x, x ∈ l → ¬ P x) → filter P l = [].
Proof.
  induction l as [|x l IH]; intros Hnone; [done |].
  rewrite filter_cons_False by (apply Hnone; by left).
  apply IH. intros y Hy. apply Hnone. by right.
Qed.

Lemma elem_of_get_pending_data db stage id :
  (id ∈ get_pending_data db stage)
  ↔ ((id, stage) ∉ stage_done db) ∧ (id ∈ dom (store db)).
Proof.
  unfold get_pending_data. by rewrite list_elem_of_filter, elem_of_elements.
Qed.

(** The first call of [generate_reports], in closed form. *)
Lemma generate_reports_first a :
  is_report_started a = false →
  generate_reports a
  = (match report_manager_generate_reports notifier with
     | Ok _ => Ok tt
     | Raise e => Raise e
     end,
     mkAudit (name a) (max_links a) (current_stage a) true (followed_links a)
             (show_max_links_warning a)
             (expecting_ack a + 1 +
              match report_manager_generate_reports notifier with
              | Ok n => n
              | Raise _ => 0
              end)
             (database a) (outbox a ++ [ack_of a])).
Proof.
  intros Hclear. unfold AuditManager.generate_reports, bind, get.
  rewrite Hclear. unfold modify at 1, try_finally, bind, modify at 1, lift.
  destruct (report_manager_generate_reports notifier) as [n|e];
    unfold modify, AuditManager.send_msg; simpl; [done |].
  by rewrite Z.add_0_r.
Qed.

(** The scan when the notifier finds nothing runnable anywhere: every
    stage is read, nothing is sent, no mark is lost, and every record
    ends up marked at every stage read. *)
Lemma scan_none_runnable stages :
  (∀ datalist stage, is_runnable_stage notifier datalist stage = false) →
  ∀ a, ∃ a',
    scan_stages stages a = (Ok (false, stages), a') ∧
    outbox a' = outbox a ∧ name a' = name a ∧
    is_report_started a' = is_report_started a ∧
    expecting_ack a' = expecting_ack a ∧
    store (database a') = store (database a) ∧
    stage_done (database a) ⊆ stage_done (database a') ∧
    (∀ id s, id ∈ dom (store (database a)) → s ∈ stages →
             (id, s) ∈ stage_done (database a')).
Proof.
  intros Hnone. induction stages as [|stage rest IH]; intros a.
  { exists a. simpl. repeat split; try done.
    intros id s _ Hs. by apply elem_of_nil in Hs. }
  cbn [AuditManager.scan_stages]. unfold bind at 1, modify at 1.
  unfold bind at 1, get at 1.
  set (a1 := set_current_stage stage a).
  change (database a1) with (database a).
  destruct (get_pending_data (database a) stage) as [|id0 pending0] eqn:Hpending.
  - destruct (IH a1)
      as (a' & Hscan & Hout & Hname & Hlatch & Hack & Hstore & Hkeep & Hmarks).
    exists a'. unfold bind. rewrite Hscan. simpl.
    repeat split; try done.
    intros id s Hid [-> | Hs]%elem_of_cons; [| by apply Hmarks].
    apply Hkeep.
    destruct (decide ((id, stage) ∈ stage_done (database a))) as [Hin | Hnot];
      [done |].
    assert (id ∈ get_pending_data (database a) stage) as Hp
      by by apply elem_of_get_pending_data.
    rewrite Hpending in Hp. by apply elem_of_nil in Hp.
  - rewrite <- Hpending. rewrite Hnone. cbn [negb].
    unfold bind at 1. rewrite AuditManagerProofs.mark_all_pending.
    set (a2 := set_database _ a1).
    assert (Hstore2 : store (database a2) = store (database a)).
    { subst a2. simpl. apply AuditManagerProofs.foldl_mark_store. }
    assert (Hmarks2 : ∀ id s,
               (id, s) ∈ stage_done (database a2)
               ↔ (id, s) ∈ stage_done (database a) ∨
                 (s = stage ∧ id ∈ get_pending_data (database a) stage)).
    { intros id s. subst a2. simpl.
      apply AuditManagerProofs.foldl_mark_stage_done. }
    destruct (IH a2)
      as (a' & Hscan & Hout & Hname & Hlatch & Hack & Hstore & Hkeep & Hmarks).
    exists a'. unfold bind. rewrite Hscan. simpl.
    repeat split; try done.
    + congruence.
    + intros [id s] Hin. apply Hkeep, Hmarks2. by left.
    + intros id s Hid [-> | Hs]%elem_of_cons.
      * apply Hkeep, Hmarks2.
        destruct (decide ((id, stage) ∈ stage_done (database a))) as [Hin | Hnot];
          [by left |].
        right. split; [done |]. by apply elem_of_get_pending_data.
      * apply Hmarks; [| done]. by rewrite Hstore2.
Qed.

(** X5: When no plugin can take any item, the stage update goes through all
    the stages and launches the reports: the audit is in the report stage,
    nothing is pending at any stage any more, and the only message sent
    is the ACK of the report kickoff. *)
Theorem update_stage_nothing_runnable a :
  is_report_started a = false →
  (∀ datalist stage, is_runnable_stage notifier datalist stage = false) →
  is_report_started (update_stage a).2 = true ∧
  current_stage (update_stage a).2 = max_stage pluginManager + 1 ∧
  (∀ stage, stage ∈ stage_range →
            get_pending_data (database (update_stage a).2) stage = []) ∧
  outbox (update_stage a).2 = outbox a ++ [ack_of a].
Proof.
  intros Hclear Hnone.
  destruct (scan_none_runnable stage_range Hnone a)
    as (a' & Hscan & Hout & Hname & Hlatch & Hack & Hstore & Hkeep & Hmarks).
  unfold AuditManager.update_stage, bind, get. rewrite Hclear, Hscan.
  cbn [fst snd]. unfold modify.
  rewrite generate_reports_first by (simpl; congruence).
  simpl. rewrite Hout, Hname. repeat split; try done.
  intros stage Hstage. apply filter_none.
  intros id Hid%elem_of_elements Hpending. apply Hpending.
  apply Hmarks; [by rewrite <- Hstore | done].
Qed.

(** The scan when it ends by sending: the audit is left at the stage it
    sent for, that stage is runnable, and the one message added carries
    the items pending there. *)
Lemma scan_sent stages :
  ∀ a log a',
    scan_stages stages a = (Ok (true, log), a') →
    current_stage a' ∈ stages ∧
    last log = Some (current_stage a') ∧
    is_report_started a' = is_report_started a ∧
    expecting_ack a' = expecting_ack a ∧
    get_pending_data (database a') (current_stage a') ≠ [] ∧
    is_runnable_stage notifier
      (omap (get_data (database a'))
            (get_pending_data (database a') (current_stage a')))
      (current_stage a') = true ∧
    outbox a' =
      outbox a ++
      [data_of a (omap (get_data (database a'))
                       (get_pending_data (database a') (current_stage a')))].
Proof.
  induction stages as [|stage rest IH]; intros a log a'; [by intros [=] |].
  cbn [AuditManager.scan_stages]. unfold bind at 1, modify at 1.
  unfold bind at 1, get at 1.
  set (a1 := set_current_stage stage a).
  change (database a1) with (database a).
  assert (Hnext : ∀ a2 : Audit,
            name a2 = name a → is_report_started a2 = is_report_started a →
            expecting_ack a2 = expecting_ack a → outbox a2 = outbox a →
            bind (scan_stages rest)
                 (fun r => ret (r.1, stage :: r.2)) a2 = (Ok (true, log), a') →
            current_stage a' ∈ stage :: rest ∧
            last log = Some (current_stage a') ∧
            is_report_started a' = is_report_started a ∧
            expecting_ack a' = expecting_ack a ∧
            get_pending_data (database a') (current_stage a') ≠ [] ∧
            is_runnable_stage notifier
              (omap (get_data (database a'))
                    (get_pending_data (database a') (current_stage a')))
              (current_stage a') = true ∧
            outbox a' =
              outbox a ++
              [data_of a (omap (get_data (database a'))
                               (get_pending_data (database a')
                                                 (current_stage a')))]).
  { intros a2 Hname Hlatch Hack Hout. unfold bind.
    destruct (scan_stages rest a2) as [[[sent log']|e] a3] eqn:Hscan; [| done].
    intros [= -> <- <-].
    destruct (IH a2 log' a3 Hscan)
      as (Hin & Hlast & Hlatch' & Hack' & Hpend & Hrun & Hout').
    split; [by apply elem_of_cons; right |].
    split.
    { destruct log' as [|s0 log']; [done |]. by rewrite last_cons, Hlast. }
    rewrite Hlatch', Hack', Hout', Hname, Hlatch, Hack, Hout. done. }
  destruct (get_pending_data (database a) stage) as [|id0 pending0] eqn:Hpending.
  - by apply Hnext.
  - rewrite <- Hpending.
    destruct (is_runnable_stage notifier
                (omap (get_data (database a))
                      (get_pending_data (database a) stage)) stage) eqn:Hrunnable;
      cbn [negb].
    + unfold bind, AuditManager.send_msg, modify. simpl.
      intros [= <- <-]. simpl.
      split; [apply elem_of_cons; by left |].
      repeat split; try done. by rewrite Hpending.
    + unfold bind at 1. rewrite AuditManagerProofs.mark_all_pending.
      by apply Hnext.
Qed.

(** X6: When the stage update does not launch the reports, it has sent exactly
    one message: the items pending at the audit's new current stage, which
    lies within the stage bounds and has a plugin for them. *)
Theorem update_stage_sends_pending_of_current_stage a :
  is_report_started a = false →
  is_report_started (update_stage a).2 = false →
  min_stage pluginManager ≤ current_stage (update_stage a).2
                          ≤ max_stage pluginManager ∧
  get_pending_data (database (update_stage a).2)
                   (current_stage (update_stage a).2) ≠ [] ∧
  is_runnable_stage notifier
    (omap (get_data (database (update_stage a).2))
          (get_pending_data (database (update_stage a).2)
                            (current_stage (update_stage a).2)))
    (current_stage (update_stage a).2) = true ∧
  outbox (update_stage a).2 =
    outbox a ++
    [data_of a (omap (get_data (database (update_stage a).2))
                     (get_pending_data (database (update_stage a).2)
                                       (current_stage (update_stage a).2)))] ∧
  expecting_ack (update_stage a).2 = expecting_ack a.
Proof.
  intros Hclear. unfold AuditManager.update_stage, bind, get. rewrite Hclear.
  destruct (scan_stages stage_range a) as [[[sent log]|e] a'] eqn:Hscan.
  2:{ destruct (AuditManagerProofs.scan_stages_spec
                  MSG_PRIORITY_MEDIUM notifier stage_range (NoDup_seqZ _ _) a)
        as (? & ? & ? & Hok & _). congruence. }
  cbn [fst snd]. destruct sent.
  - simpl. intros _.
    destruct (scan_sent stage_range a log a' Hscan)
      as (Hin & _ & _ & Hack & Hpend & Hrun & Hout).
    split; [| done].
    unfold AuditManager.stage_range in Hin. apply elem_of_seqZ in Hin. lia.
  - unfold modify.
    assert (Hlatch : is_report_started
                       (set_current_stage (max_stage pluginManager + 1) a')
                     = false).
    { destruct (AuditManagerProofs.scan_stages_spec
                  MSG_PRIORITY_MEDIUM notifier stage_range (NoDup_seqZ _ _) a)
        as (sent' & log' & a'' & Hok & _).
      simpl.
      clear -Hscan Hclear. revert a a' log Hscan Hclear.
      induction stage_range as [|stage rest IH]; intros a a' log.
      { by intros [= <- <-]. }
      cbn [AuditManager.scan_stages]. unfold bind at 1, modify at 1.
      unfold bind at 1, get at 1.
      change (database (set_current_stage stage a)) with (database a).
      destruct (get_pending_data (database a) stage) as [|id0 p0] eqn:Hp.
      - unfold bind.
        destruct (scan_stages rest _) as [[[s l]|e] a2] eqn:Hs; [| done].
        intros [= -> <- <-] Hc. by eapply IH.
      - rewrite <- Hp.
        destruct (is_runnable_stage notifier _ stage); cbn [negb].
        + unfold bind, AuditManager.send_msg, modify. by intros [=].
        + unfold bind at 1. rewrite AuditManagerProofs.mark_all_pending.
          unfold bind.
          destruct (scan_stages rest _) as [[[s l]|e] a2] eqn:Hs; [| done].
          intros [= -> <- <-] Hc. by eapply IH. }
    rewrite generate_reports_first by done. simpl. done.
Qed.

(** *** Bootstrap *)

(** One target through the storing loop: nothing but the database can
    change, and in the database neither the set of recorded identities
    nor any progress mark does. *)
Lemma store_targets_frame target_data :
  ∀ a, ∃ db,
    store_targets target_data a = (Ok tt, set_database db a) ∧
    dom (store db) = dom (store (database a)) ∧
    plugin_done db = plugin_done (database a) ∧
    stage_done db = stage_done (database a).
Proof.
  unfold store_targets.
  induction target_data as [|data l IH]; intros a.
  { exists (database a). simpl. unfold ret.
    by rewrite AuditManagerProofs.set_database_same. }
  cbn [for_each]. unfold bind, modify at 1.
  destruct (has_data_key (database a) (identity data) (Some (data_type data)))
    eqn:Hkey.
  - destruct (IH (set_database (add_data (database a) data) a))
      as (db & -> & Hdom & Hplug & Hstage).
    exists db. split; [done |]. simpl in *. rewrite Hdom, Hplug, Hstage.
    repeat split; try done.
    rewrite dom_insert_L.
    assert (identity data ∈ dom (store (database a))) as Hin.
    { apply elem_of_dom. unfold has_data_key in Hkey.
      by destruct (store (database a) !! identity data). }
    apply subseteq_union_1_L. by apply singleton_subseteq_l.
  - apply IH.
Qed.

(** The loop of [run] that stores the targets never creates a record:
    the identities on record, and all the progress marks, are the same
    before and after it, whatever the targets and the database. *)
Theorem store_targets_creates_no_record target_data a :
  (store_targets target_data a).1 = Ok tt ∧
  dom (store (database (store_targets target_data a).2))
  = dom (store (database a)) ∧
  plugin_done (database (store_targets target_data a).2)
  = plugin_done (database a) ∧
  stage_done (database (store_targets target_data a).2)
  = stage_done (database a) ∧
  outbox (store_targets target_data a).2 = outbox a.
Proof.
  destruct (store_targets_frame target_data a) as (db & -> & Hdom & Hp & Hs).
  by simpl.
Qed.

(** The database the importer of [run] is handed: the one [run] opened,
    after the loop over the targets. *)
Local Abbreviation database_before_import db a sc :=
  (database (store_targets (get_targets IP Domain Url sc)
                           (set_database db (set_expecting_ack 0 a))).2).

(** X7: [run] sends the first data message exactly when it returns
    normally, which it does exactly when the scope could be built, some
    plugin was found and the import returned: then the database is the
    one the importer gave back, and the message carries the targets of
    the scope and is the only one sent.  When the scope cannot be built,
    no plugin is found or the import fails, [run] raises that very error
    and sends nothing.  In every case the ACK counter is back at zero. *)
Theorem run_sends_targets_iff_it_returns scope found_plugins db a :
  expecting_ack (run scope found_plugins db a).2 = 0 ∧
  (((run scope found_plugins db a).1 = Ok tt ∧
    ∃ sc imported,
      scope = Ok sc ∧ found_plugins = true ∧
      import_results (database_before_import db a sc) = Ok imported ∧
      database (run scope found_plugins db a).2 = imported ∧
      outbox (run scope found_plugins db a).2
      = outbox a ++ [data_of a (get_targets IP Domain Url sc)]) ∨
   ((∃ e, (run scope found_plugins db a).1 = Raise e ∧
          (scope = Raise e ∨
           (∃ sc, scope = Ok sc ∧ found_plugins = false ∧
                  e = Exception "RuntimeError" "Failed to find any plugins!") ∨
           (∃ sc, scope = Ok sc ∧ found_plugins = true ∧
                  import_results (database_before_import db a sc) = Raise e))) ∧
    outbox (run scope found_plugins db a).2 = outbox a)).
Proof.
  destruct (run scope found_plugins db a) as [r a'] eqn:Hrun. simpl.
  revert Hrun.
  unfold AuditManager.run. unfold bind at 1, modify at 1. unfold bind at 1.
  destruct scope as [sc|e]; unfold bind at 1, lift at 1.
  2:{ intros [= <- <-]. simpl. split; [done |]. right.
      split; [| done]. exists e. split; [done |]. by left. }
  destruct found_plugins; unfold bind at 1, when, negb.
  2:{ intros [= <- <-]. simpl. split; [done |]. right.
      split; [| done]. eexists. split; [done |]. right. left. by exists sc. }
  unfold ret at 1, bind at 1, modify at 1.
  destruct (store_targets_frame (get_targets IP Domain Url sc)
              (set_database db (set_expecting_ack 0 a)))
    as (db' & Hstore & _).
  unfold bind at 1. rewrite Hstore.
  unfold bind at 1, get at 1, bind at 1, lift at 1. simpl database.
  destruct (import_results db') as [imported|e] eqn:Himport.
  - unfold bind, modify, ret, AuditManager.send_msg. simpl.
    intros [= <- <-]. simpl.
    split; [done |]. left. split; [done |]. exists sc, imported.
    rewrite Hstore. simpl. by rewrite Himport.
  - intros [= <- <-]. simpl. split; [done |]. right.
    split; [| done]. exists e. split; [done |]. right. right.
    exists sc. rewrite Hstore. simpl. by rewrite Himport.
Qed.

(** *** The report stage drains *)

(** One ACK after the reports were launched. *)
Lemma acknowledge_after_reports message a :
  is_report_started a = true →
  (acknowledge message a).2
  = if expecting_ack a - 1 =? 0
    then set_outbox (outbox a ++ [stop_of a]) (set_expecting_ack 0 a)
    else set_expecting_ack (expecting_ack a - 1) a.
Proof.
  intros Hlatch.
  assert (Hstep : ∀ r : result unit,
    (try_finally
       (bind (modify (fun a => set_expecting_ack (expecting_ack a - 1) a))
             (fun _ => lift r))
       (bind get (fun a => when (expecting_ack a =? 0) update_stage)) a).2
    = if expecting_ack a - 1 =? 0
      then set_outbox (outbox a ++ [stop_of a]) (set_expecting_ack 0 a)
      else set_expecting_ack (expecting_ack a - 1) a).
  { intros r. unfold try_finally, bind, modify, lift, get. simpl.
    destruct (expecting_ack a - 1 =? 0) eqn:Hzero; cbn [when].
    - apply Z.eqb_eq in Hzero. rewrite Hzero.
      unfold AuditManager.update_stage, bind, get. simpl. rewrite Hlatch.
      unfold AuditManager.send_msg, modify. simpl. by destruct r as [[]|e].
    - unfold ret. by destruct r as [[]|e]. }
  apply Hstep.
Qed.


End Stages.

(** *** The invariants at work on the sample audit *)

Lemma dispatch_msg_counts_notified_plugins_witness :
  let a := AuditManager.new_audit "audit-1" 0 pm_demo in
  let a' := (dispatch_msg 2 pm_demo (spec_notifier pm_demo) one_url_msg a).2 in
  (dispatch_msg 2 pm_demo (spec_notifier pm_demo) one_url_msg a).1 = Ok true ∧
  ∃ n, expecting_ack a' = expecting_ack a + n.
Proof.
  cbv zeta. split; [vm_compute; reflexivity |].
  destruct (dispatch_msg_counts_notified_plugins 2 pm_demo
              (spec_notifier pm_demo) one_url_msg
              (AuditManager.new_audit "audit-1" 0 pm_demo)) as [Hsent _].
  destruct Hsent as (l & n & _ & _ & _ & Hcount); [vm_compute; reflexivity |].
  by exists n.
Defined.

Lemma dispatch_items_without_cap_witness :
  let a := AuditManager.new_audit "audit-1" 0 pm_demo in
  max_links a ≤ 0 ∧
  [url_item 1]
  = [] ++ filter (fun d => is_in_scope d = true)
                 (payload_data [ObjData (url_item 1)]).
Proof.
  cbv zeta. split; [vm_compute; discriminate |].
  apply (dispatch_items_without_cap 2 pm_demo one_url_msg
           [ObjData (url_item 1)] []
           (AuditManager.new_audit "audit-1" 0 pm_demo) [url_item 1]).
  - vm_compute. discriminate.
  - vm_compute. reflexivity.
Defined.

Lemma update_stage_nothing_runnable_witness :
  is_report_started audit_in_stage_1 = false ∧
  is_report_started
    (update_stage 0 1 pm_demo idle_notifier one_report audit_in_stage_1).2
  = true.
Proof.
  split; [reflexivity |].
  apply (update_stage_nothing_runnable 0 1 pm_demo idle_notifier one_report
           audit_in_stage_1); reflexivity.
Defined.

Lemma update_stage_sends_pending_of_current_stage_witness :
  is_report_started audit_in_stage_1 = false ∧
  min_stage pm_demo
  ≤ current_stage (update_stage 0 1 pm_demo (spec_notifier pm_demo) one_report
                     audit_in_stage_1).2
  ≤ max_stage pm_demo.
Proof.
  split; [reflexivity |].
  apply (update_stage_sends_pending_of_current_stage 0 1 pm_demo
           (spec_notifier pm_demo) one_report audit_in_stage_1).
  - reflexivity.
  - vm_compute. reflexivity.
Defined.


End AuditInvariants.

(** ** Invariants of the scope *)

Module ScopeInvariants.
Import Scope ScopeFacts.

#[local] Set Warnings "-clear-no-such-hyp".

(** *** The domain pattern *)

Lemma re_tail_chars s :
  re_tail s = true →
  (1 ≤ String.length s)%nat ∧
  Forall (fun c => is_domain_char c = true ∨ c = "010"%char)
         (list_ascii_of_string s).
Proof.
  induction s as [|c rest IH]; [done |].
  cbn [re_tail]. intros Hmatch. apply orb_true_iff in Hmatch as [Hend | Hmore].
  - apply andb_true_iff in Hend as [Halnum Hend].
    split; [simpl; lia |]. simpl. apply Forall_cons. split.
    + left. unfold is_domain_char. by rewrite Halnum.
    + destruct rest as [|c' [|c'' rest']]; simpl in *; try done.
      apply Forall_cons. split; [| done]. right. by apply Ascii.eqb_eq in Hend.
  - apply andb_true_iff in Hmore as [Hclass Hmore].
    destruct (IH Hmore) as [Hlen Hall].
    split; [simpl; lia |]. simpl. apply Forall_cons. split; [by left | done].
Qed.


(** *** Strings *)

Lemma lower_char_idempotent c : lower_char (lower_char c) = lower_char c.
Proof. by destruct c as [[] [] [] [] [] [] [] []]. Qed.

Lemma lower_idempotent s : lower (lower s) = lower s.
Proof.
  induction s as [|c s IH]; [done |]. simpl.
  by rewrite lower_char_idempotent, IH.
Qed.

Lemma append_cons c s1 s2 : String c s1 +:+ s2 = String c (s1 +:+ s2).
Proof. reflexivity. Qed.

Lemma append_nil_l s : "" +:+ s = s.
Proof. reflexivity. Qed.

Lemma append_nil_r s : s +:+ "" = s.
Proof.
  induction s as [|c s IH]; [done |]. by rewrite append_cons, IH.
Qed.

Lemma lower_app s1 s2 : lower (s1 +:+ s2) = lower s1 +:+ lower s2.
Proof.
  induction s1 as [|c s1 IH]; [done |].
  rewrite append_cons. cbn [lower]. by rewrite append_cons, IH.
Qed.

Lemma append_assoc s1 s2 s3 : (s1 +:+ s2) +:+ s3 = s1 +:+ (s2 +:+ s3).
Proof.
  induction s1 as [|c s1 IH]; [done |]. by rewrite !append_cons, IH.
Qed.

Lemma rev_string_acc_app s acc :
  rev_string_acc s acc = rev_string_acc s "" +:+ acc.
Proof.
  revert acc. induction s as [|c s IH]; intros acc; [done |].
  cbn [rev_string_acc]. rewrite (IH (String c acc)), (IH (String c "")).
  by rewrite append_assoc.
Qed.

Lemma rev_string_app s1 s2 :
  rev_string_acc (s1 +:+ s2) "" = rev_string_acc s2 "" +:+ rev_string_acc s1 "".
Proof.
  induction s1 as [|c s1 IH].
  { by rewrite append_nil_l, append_nil_r. }
  rewrite append_cons. cbn [rev_string_acc].
  rewrite (rev_string_acc_app (s1 +:+ s2) (String c "")),
          (rev_string_acc_app s1 (String c "")), IH.
  by rewrite append_assoc.
Qed.

Lemma prefix_append p s : String.prefix p (p +:+ s) = true.
Proof.
  induction p as [|c p IH]; [by destruct s |].
  rewrite append_cons. cbn [String.prefix]. by destruct (ascii_dec c c).
Qed.

(** [(s1 + s2).endswith(s2)] *)
Lemma endswith_append s1 s2 : endswith (s1 +:+ s2) s2 = true.
Proof. unfold endswith. rewrite rev_string_app. apply prefix_append. Qed.

(** *** Building the scope *)

Lemma scope_le_refl sc : scope_le sc sc.
Proof. by repeat split. Qed.

Lemma scope_le_trans sc1 sc2 sc3 :
  scope_le sc1 sc2 → scope_le sc2 sc3 → scope_le sc1 sc3.
Proof.
  intros (Hd1 & Hr1 & Ha1 & Hw1) (Hd2 & Hr2 & Ha2 & Hw2).
  repeat split; etrans; eauto.
Qed.

Section Build.

Variable IPAddress : string → option Z → bool.
Variable IPNetwork : string → option (list string).
Variable ParsedURL : string → option (string * string).
Variable split_hostname : string → string * string * string.
Variable DNS_get_a DNS_get_aaaa : string → list string.

Local Abbreviation parse_address := (parse_address IPAddress).
Local Abbreviation add_target := (add_target IPAddress IPNetwork ParsedURL).
Local Abbreviation add_roots := (add_roots split_hostname).
Local Abbreviation resolve := (resolve DNS_get_a DNS_get_aaaa).
Local Abbreviation add_targets :=
  (add_targets IPAddress IPNetwork ParsedURL split_hostname
               DNS_get_a DNS_get_aaaa).
Local Abbreviation __contains__ := (__contains__ IPAddress ParsedURL).
Local Abbreviation resolvable := (resolvable DNS_get_a DNS_get_aaaa).

(** The loop over the hosts of a network, in closed form. *)
Lemma add_hosts_closed hosts sc :
  foldl (fun s address =>
           mkScope (domains s) (roots s) ({[address]} ∪ addresses s)
                   ({["http://" +:+ address +:+ "/"]} ∪ web_pages s))
        sc hosts
  = mkScope (domains sc) (roots sc)
            (list_to_set hosts ∪ addresses sc)
            (list_to_set (guessed_url <$> hosts) ∪ web_pages sc).
Proof.
  revert sc. induction hosts as [|host hosts IH]; intros sc.
  { cbn [foldl]. rewrite fmap_nil, !list_to_set_nil, !(left_id_L ∅ (∪)).
    by destruct sc. }
  cbn [foldl]. rewrite IH. simpl. unfold guessed_url.
  f_equal.
  - rewrite (comm_L _ {[host]} (list_to_set hosts)), <- (assoc_L _). done.
  - rewrite (comm_L _ {["http://" +:+ host +:+ "/"]} (list_to_set _)),
            <- (assoc_L _). done.
Qed.

(** A network target: every host of the network becomes an address with
    its guessed URL, and nothing else changes. *)
Theorem add_target_network sc new_domains target hosts :
  _re_is_domain target = false →
  parse_address target = None →
  IPNetwork target = Some hosts →
  add_target (sc, new_domains) target
  = (mkScope (domains sc) (roots sc)
             (list_to_set hosts ∪ addresses sc)
             (list_to_set (guessed_url <$> hosts) ∪ web_pages sc),
     new_domains).
Proof.
  intros Hre Haddr Hnet. unfold Scope.add_target.
  rewrite Hre, Haddr, Hnet. by rewrite add_hosts_closed.
Qed.

Lemma insert_twice (x : string) (X : gset string) :
  {[x]} ∪ ({[x]} ∪ X) = {[x]} ∪ X.
Proof. by rewrite (assoc_L _), (idemp_L _). Qed.

Lemma union_twice (X Y : gset string) : X ∪ (X ∪ Y) = X ∪ Y.
Proof. by rewrite (assoc_L _), (idemp_L _). Qed.

(** X10: Ingesting a target a second time changes nothing: the loop body of
    [add_targets] is idempotent, for every kind of target. *)
Theorem add_target_idempotent acc target :
  add_target (add_target acc target) target = add_target acc target.
Proof.
  destruct acc as [sc new_domains]. unfold Scope.add_target.
  destruct (_re_is_domain target) eqn:Hre.
  { destruct (decide (lower target ∈ domains sc)) as [Hin | Hout]; simpl.
    - by rewrite decide_True.
    - rewrite decide_True; [done |].
      apply elem_of_union. left. by apply elem_of_singleton. }
  destruct (Scope.parse_address IPAddress target) as [address|] eqn:Haddr.
  { simpl. by rewrite !insert_twice. }
  destruct (IPNetwork target) as [hosts|] eqn:Hnet.
  { rewrite !add_hosts_closed. simpl. by rewrite !union_twice. }
  destruct (ParsedURL target) as [[url host]|] eqn:Hurl; [| done].
  simpl.
  destruct (Scope.parse_address IPAddress host) as [h|] eqn:Hhost.
  { simpl. by rewrite !insert_twice. }
  destruct (decide (lower host ∈ domains sc)) as [Hin | Hout]; simpl.
  - rewrite decide_True by done. by rewrite insert_twice.
  - rewrite decide_True.
    + by rewrite insert_twice.
    + apply elem_of_union. left. by apply elem_of_singleton.
Qed.

(** *** Nothing is ever dropped *)

Lemma add_target_le sc new_domains target :
  scope_le sc (add_target (sc, new_domains) target).1 ∧
  new_domains ⊆ (add_target (sc, new_domains) target).2.
Proof.
  unfold Scope.add_target.
  destruct (_re_is_domain target).
  { destruct (decide (lower target ∈ domains sc)); simpl.
    - split; [apply scope_le_refl | done].
    - repeat split; try done; apply union_subseteq_r. }
  destruct (Scope.parse_address IPAddress target) as [address|].
  { simpl. repeat split; try done; apply union_subseteq_r. }
  destruct (IPNetwork target) as [hosts|].
  { rewrite add_hosts_closed. simpl.
    repeat split; try done; apply union_subseteq_r. }
  destruct (ParsedURL target) as [[url host]|];
    [| split; [apply scope_le_refl | done]].
  simpl. destruct (Scope.parse_address IPAddress host) as [h|]; simpl.
  { repeat split; try done; apply union_subseteq_r. }
  destruct (decide (lower host ∈ domains sc)); simpl;
    repeat split; try done; apply union_subseteq_r.
Qed.

Lemma foldl_add_target_le l :
  ∀ sc new_domains,
    scope_le sc (foldl add_target (sc, new_domains) l).1 ∧
    new_domains ⊆ (foldl add_target (sc, new_domains) l).2.
Proof.
  induction l as [|target l IH]; intros sc new_domains.
  { split; [apply scope_le_refl | done]. }
  cbn [foldl].
  destruct (add_target_le sc new_domains target) as [Hle Hnew].
  destruct (add_target (sc, new_domains) target) as [sc1 nd1].
  destruct (IH sc1 nd1) as [Hle' Hnew'].
  split; [by eapply scope_le_trans | by etrans].
Qed.

Lemma add_parents_le parts :
  ∀ prefix sc new_domains,
    scope_le sc (add_parents parts prefix (sc, new_domains)).1.
Proof.
  induction parts as [|part parts IH]; intros prefix sc new_domains.
  { apply scope_le_refl. }
  cbn [add_parents].
  eapply scope_le_trans; [| apply IH].
  repeat split; try done; apply union_subseteq_r.
Qed.

Lemma add_roots_le sc new_domains hostname :
  scope_le sc (add_roots (sc, new_domains) hostname).1.
Proof.
  unfold Scope.add_roots.
  destruct (split_hostname hostname) as [[subdomain domain] suffix].
  destruct (String.eqb subdomain ""); simpl.
  - repeat split; try done. apply union_subseteq_r.
  - apply add_parents_le.
Qed.

Lemma foldl_add_roots_le l :
  ∀ sc new_domains, scope_le sc (foldl add_roots (sc, new_domains) l).1.
Proof.
  induction l as [|hostname l IH]; intros sc new_domains.
  { apply scope_le_refl. }
  cbn [foldl].
  pose proof (add_roots_le sc new_domains hostname) as Hle.
  destruct (add_roots (sc, new_domains) hostname) as [sc1 nd1].
  eapply scope_le_trans; [exact Hle | apply IH].
Qed.

(** *** Name resolution *)

(** Resolution succeeds exactly when every domain has an A or an AAAA
    record; it then adds every address found and changes nothing else. *)
Lemma resolve_spec ds :
  ∀ sc,
    (Forall resolvable ds →
     ∃ sc', resolve ds sc = Ok sc' ∧
            domains sc' = domains sc ∧ roots sc' = roots sc ∧
            web_pages sc' = web_pages sc ∧
            addresses sc ⊆ addresses sc' ∧
            ∀ d address, d ∈ ds →
                         address ∈ DNS_get_a d ∨ address ∈ DNS_get_aaaa d →
                         address ∈ addresses sc') ∧
    (¬ Forall resolvable ds → ∃ msg, resolve ds sc = Raise (Exception "RuntimeError" msg)).
Proof.
  induction ds as [|d ds IH]; intros sc.
  { split; [| by intros []]. intros _. exists sc. repeat split; try done.
    intros d address Hd. by apply elem_of_nil in Hd. }
  cbn [Scope.resolve].
  set (sc1 := mkScope _ _ _ _).
  destruct (IH sc1) as [IHok IHfail].
  assert (Hsc1 : addresses sc ⊆ addresses sc1 ∧
                 ∀ address, address ∈ DNS_get_a d ∨ address ∈ DNS_get_aaaa d →
                            address ∈ addresses sc1).
  { subst sc1. simpl.
    split; [etrans; [| apply union_subseteq_r]; apply union_subseteq_r |].
    intros address [Ha | Ha]; rewrite !elem_of_union, !elem_of_list_to_set; auto. }
  destruct Hsc1 as [Hkeep Hfound].
  split.
  - intros [Hd Hds]%Forall_cons.
    destruct (IHok Hds) as (sc' & Hres & Hdom & Hroots & Hweb & Hsub & Haddr).
    exists sc'.
    assert (Hgo : match DNS_get_a d, DNS_get_aaaa d with
                  | [], [] => Raise (Exception "RuntimeError"
                                ("Aborting audit: cannot resolve: " +:+ d))
                  | _, _ => resolve ds sc1
                  end = resolve ds sc1).
    { destruct Hd as [Hd | Hd];
        destruct (DNS_get_a d), (DNS_get_aaaa d); done. }
    rewrite Hgo. repeat split; try done.
    + by etrans.
    + intros d' address [-> | Hd']%elem_of_cons Hin;
        [apply Hsub, Hfound, Hin | by eapply Haddr].
  - intros Hnot.
    destruct (DNS_get_a d) as [|x4 l4] eqn:H4;
      [destruct (DNS_get_aaaa d) as [|x6 l6] eqn:H6; [by eauto |] |];
      apply IHfail; intros Hds; apply Hnot; apply Forall_cons;
      (split; [| done]); unfold ScopeFacts.resolvable; rewrite ?H4, ?H6; auto.
Qed.

(** X11: Name resolution is all or nothing: it returns exactly when every
    domain has an A or an AAAA record, and otherwise aborts the audit with
    a [RuntimeError]; when it returns, every address found is in the scope
    and the domains, roots and pages are as before. *)
Theorem resolve_all_or_abort ds sc :
  (Forall resolvable ds ↔ ∃ sc', resolve ds sc = Ok sc') ∧
  (¬ Forall resolvable ds →
   ∃ msg, resolve ds sc = Raise (Exception "RuntimeError" msg)) ∧
  (∀ sc', resolve ds sc = Ok sc' →
          domains sc' = domains sc ∧ roots sc' = roots sc ∧
          web_pages sc' = web_pages sc ∧
          addresses sc ⊆ addresses sc' ∧
          ∀ d address, d ∈ ds →
                       address ∈ DNS_get_a d ∨ address ∈ DNS_get_aaaa d →
                       address ∈ addresses sc').
Proof.
  destruct (resolve_spec ds sc) as [Hok Hfail].
  assert (Hreturns : ∀ sc', resolve ds sc = Ok sc' → Forall resolvable ds).
  { intros sc' Hres. destruct (decide (Forall resolvable ds)) as [Hall | Hnot];
      [done |].
    destruct (Hfail Hnot) as [msg Hraise]. congruence. }
  split; [| split; [exact Hfail |]].
  - split.
    + intros Hall. destruct (Hok Hall) as (sc' & Hres & _). by exists sc'.
    + intros [sc' Hres]. by eapply Hreturns.
  - intros sc' Hres.
    destruct (Hok (Hreturns sc' Hres)) as (sc'' & Hres' & Hrest).
    assert (sc'' = sc') as -> by congruence. exact Hrest.
Qed.

Lemma resolve_le ds sc sc' : resolve ds sc = Ok sc' → scope_le sc sc'.
Proof.
  intros Hres.
  destruct (decide (Forall resolvable ds)) as [Hall | Hnot].
  - destruct (proj1 (resolve_spec ds sc) Hall)
      as (sc'' & Hres' & Hdom & Hroots & Hweb & Hsub & _).
    assert (sc'' = sc') as -> by congruence.
    repeat split; try done; by rewrite ?Hdom, ?Hroots, ?Hweb.
  - destruct (proj2 (resolve_spec ds sc) Hnot) as [msg Hfail]. congruence.
Qed.

(** X12: Whatever [add_targets] returns holds everything the scope held
    before: calling it again never drops a domain, root, address or
    page. *)
Theorem add_targets_never_drops sc audit_config dns_resolution sc' :
  add_targets sc audit_config dns_resolution = Ok sc' →
  scope_le sc sc'.
Proof.
  unfold Scope.add_targets.
  destruct (negb _); [done |].
  destruct (foldl_add_target_le (targets audit_config) sc ∅) as [Hle1 _].
  destruct (foldl _ (sc, ∅) (targets audit_config)) as [sc1 nd1].
  simpl in Hle1.
  assert (Hle2 : ∀ sc2 nd2,
            (if include_subdomains audit_config
             then foldl add_roots (sc1, nd1) (elements nd1)
             else (sc1, nd1)) = (sc2, nd2) → scope_le sc1 sc2).
  { intros sc2 nd2. destruct (include_subdomains audit_config).
    - intros Heq. pose proof (foldl_add_roots_le (elements nd1) sc1 nd1) as H.
      by rewrite Heq in H.
    - intros [= <- <-]. apply scope_le_refl. }
  destruct (if include_subdomains audit_config then _ else _) as [sc2 nd2].
  specialize (Hle2 sc2 nd2 eq_refl).
  destruct (dns_resolution =? 0).
  - intros [= <-]. by eapply scope_le_trans.
  - intros Hres%resolve_le.
    eapply scope_le_trans; [exact Hle1 |]. by eapply scope_le_trans.
Qed.

(** *** Membership of what was ingested *)

Lemma re_is_domain_nonempty target :
  _re_is_domain target = true → String.eqb target "" = false.
Proof. by destruct target. Qed.

(** A recorded domain is in scope, as long as the query is read as a
    domain name (neither as an address nor as a URL). *)
Lemma contains_domain sc target :
  lower target ∈ domains sc →
  _re_is_domain target = true →
  parse_address target = None →
  ParsedURL target = None →
  (__contains__ sc (PyStr target)).1 = Ok true.
Proof.
  intros Hin Hre Haddr Hurl. unfold Scope.__contains__.
  simpl truthy. rewrite (re_is_domain_nonempty target Hre). cbn [negb].
  rewrite Hurl, Haddr, Hre. simpl. by rewrite bool_decide_eq_true_2.
Qed.

(** A recorded address is in scope. *)
Lemma contains_address sc target address :
  address ∈ addresses sc →
  target ≠ "" →
  parse_address target = Some address →
  ParsedURL target = None →
  (__contains__ sc (PyStr target)).1 = Ok true.
Proof.
  intros Hin Hne Haddr Hurl. unfold Scope.__contains__.
  simpl truthy.
  replace (String.eqb target "") with false
    by (symmetry; by apply String.eqb_neq).
  cbn [negb]. rewrite Hurl, Haddr. simpl. by rewrite bool_decide_eq_true_2.
Qed.

Lemma foldl_add_target_domain target l :
  ∀ sc new_domains,
    target ∈ l → _re_is_domain target = true →
    lower target ∈ domains (foldl add_target (sc, new_domains) l).1.
Proof.
  induction l as [|t l IH]; intros sc new_domains Hin Hre.
  { by apply elem_of_nil in Hin. }
  cbn [foldl]. apply elem_of_cons in Hin as [<- | Hin].
  - destruct (ScopeProofs.add_target_domain_first
                IPAddress IPNetwork ParsedURL split_hostname
                DNS_get_a DNS_get_aaaa sc new_domains target Hre)
      as [_ Hdom].
    destruct (add_target (sc, new_domains) target) as [sc1 nd1].
    destruct (foldl_add_target_le l sc1 nd1) as [(Hle & _) _].
    by apply Hle.
  - destruct (add_target (sc, new_domains) t) as [sc1 nd1]. by apply IH.
Qed.

Lemma foldl_add_target_address target address l :
  ∀ sc new_domains,
    target ∈ l → _re_is_domain target = false →
    parse_address target = Some address →
    address ∈ addresses (foldl add_target (sc, new_domains) l).1.
Proof.
  induction l as [|t l IH]; intros sc new_domains Hin Hre Haddr.
  { by apply elem_of_nil in Hin. }
  cbn [foldl]. apply elem_of_cons in Hin as [<- | Hin].
  - assert (Hadded : address ∈ addresses (add_target (sc, new_domains) target).1).
    { unfold Scope.add_target. rewrite Hre, Haddr. simpl.
      apply elem_of_union. left. by apply elem_of_singleton. }
    destruct (add_target (sc, new_domains) target) as [sc1 nd1].
    destruct (foldl_add_target_le l sc1 nd1) as [(_ & _ & Hle & _) _].
    by apply Hle.
  - destruct (add_target (sc, new_domains) t) as [sc1 nd1]. by apply IH.
Qed.

(** What the first loop of [add_targets] built is still there at the
    end. *)
Lemma add_targets_after_loop sc audit_config dns_resolution sc' :
  add_targets sc audit_config dns_resolution = Ok sc' →
  scope_le (foldl add_target (sc, ∅) (targets audit_config)).1 sc'.
Proof.
  unfold Scope.add_targets.
  destruct (negb _); [done |].
  destruct (foldl _ (sc, ∅) (targets audit_config)) as [sc1 nd1]. simpl.
  assert (Hle2 : ∀ sc2 nd2,
            (if include_subdomains audit_config
             then foldl add_roots (sc1, nd1) (elements nd1)
             else (sc1, nd1)) = (sc2, nd2) → scope_le sc1 sc2).
  { intros sc2 nd2. destruct (include_subdomains audit_config).
    - intros Heq. pose proof (foldl_add_roots_le (elements nd1) sc1 nd1) as H.
      by rewrite Heq in H.
    - intros [= <- <-]. apply scope_le_refl. }
  destruct (if include_subdomains audit_config then _ else _) as [sc2 nd2].
  specialize (Hle2 sc2 nd2 eq_refl).
  destruct (dns_resolution =? 0).
  - by intros [= <-].
  - intros Hres%resolve_le. by eapply scope_le_trans.
Qed.

(** X13: Every domain target of the configuration is in the scope built from
    it: the membership test answers [True] for the very string given as
    target. *)
Theorem add_targets_domain_target_in_scope
        sc audit_config dns_resolution sc' target :
  add_targets sc audit_config dns_resolution = Ok sc' →
  target ∈ targets audit_config →
  _re_is_domain target = true →
  parse_address target = None →
  ParsedURL target = None →
  (__contains__ sc' (PyStr target)).1 = Ok true.
Proof.
  intros Hbuild Hin Hre Haddr Hurl.
  apply contains_domain; try done.
  destruct (add_targets_after_loop _ _ _ _ Hbuild) as (Hle & _).
  by apply Hle, foldl_add_target_domain.
Qed.

(** Every address target of the configuration (plain, or an IPv6 literal
    in brackets) is in the scope built from it. *)
Theorem add_targets_address_target_in_scope
        sc audit_config dns_resolution sc' target address :
  add_targets sc audit_config dns_resolution = Ok sc' →
  target ∈ targets audit_config →
  _re_is_domain target = false →
  parse_address target = Some address →
  ParsedURL target = None →
  target ≠ "" →
  (__contains__ sc' (PyStr target)).1 = Ok true.
Proof.
  intros Hbuild Hin Hre Haddr Hurl Hne.
  apply (contains_address sc' target address); try done.
  destruct (add_targets_after_loop _ _ _ _ Hbuild) as (_ & _ & Hle & _).
  by eapply Hle, foldl_add_target_address.
Qed.

(** A URL is in scope exactly when its host is: the membership test on a
    URL gives the answer it gives on the host the URL parser extracts. *)
Theorem contains_url_as_its_host sc url parsed host :
  url ≠ "" → host ≠ "" →
  ParsedURL url = Some (parsed, host) →
  ParsedURL host = None →
  (__contains__ sc (PyStr url)).1 = (__contains__ sc (PyStr host)).1.
Proof.
  intros Hurl Hhost Hparsed Hplain. unfold Scope.__contains__. simpl truthy.
  replace (String.eqb url "") with false
    by (symmetry; by apply String.eqb_neq).
  replace (String.eqb host "") with false
    by (symmetry; by apply String.eqb_neq).
  cbn [negb]. rewrite Hparsed, Hplain.
  destruct (Scope.parse_address IPAddress host); [done |].
  by destruct (_re_is_domain host).
Qed.

(** *** Subdomains *)

(** A name below a root domain is in scope: the membership test accepts
    [sub.root] for every recorded root, as long as the query is read as a
    domain name. *)
Theorem contains_subdomain_of_root sc sub root :
  root ∈ roots sc →
  lower root = root →
  _re_is_domain (sub +:+ "." +:+ root) = true →
  parse_address (sub +:+ "." +:+ root) = None →
  ParsedURL (sub +:+ "." +:+ root) = None →
  (__contains__ sc (PyStr (sub +:+ "." +:+ root))).1 = Ok true.
Proof.
  intros Hroot Hlower Hre Haddr Hurl. unfold Scope.__contains__.
  simpl truthy. rewrite (re_is_domain_nonempty _ Hre). cbn [negb].
  rewrite Hurl, Haddr, Hre. simpl. f_equal.
  apply orb_true_iff. right. apply existsb_exists. exists root.
  split; [by apply list_elem_of_In, elem_of_elements |].
  rewrite lower_app. change (lower ("." +:+ root)) with ("." +:+ lower root).
  rewrite Hlower. apply endswith_append.
Qed.

Lemma add_target_new_domains sc new_domains target :
  domains (add_target (sc, new_domains) target).1
  ⊆ domains sc ∪ (add_target (sc, new_domains) target).2.
Proof.
  unfold Scope.add_target.
  destruct (_re_is_domain target).
  { destruct (decide (lower target ∈ domains sc)); simpl; set_solver. }
  destruct (Scope.parse_address IPAddress target) as [address|];
    [simpl; set_solver |].
  destruct (IPNetwork target) as [hosts|].
  { rewrite add_hosts_closed. simpl. set_solver. }
  destruct (ParsedURL target) as [[url host]|]; [| simpl; set_solver].
  simpl. destruct (Scope.parse_address IPAddress host) as [h|];
    [simpl; set_solver |].
  destruct (decide (lower host ∈ domains sc)); simpl; set_solver.
Qed.

Lemma foldl_add_target_new_domains l :
  ∀ sc new_domains,
    domains (foldl add_target (sc, new_domains) l).1
    ⊆ domains sc ∪ (foldl add_target (sc, new_domains) l).2.
Proof.
  induction l as [|target l IH]; intros sc new_domains; [set_solver |].
  cbn [foldl].
  pose proof (add_target_new_domains sc new_domains target) as Hstep.
  destruct (add_target (sc, new_domains) target) as [sc1 nd1].
  specialize (IH sc1 nd1).
  destruct (foldl_add_target_le l sc1 nd1) as [_ Hnd].
  simpl in Hstep. set_solver.
Qed.

Lemma foldl_add_roots_root hostname l :
  ∀ sc new_domains,
    hostname ∈ l → (split_hostname hostname).1.1 = "" →
    hostname ∈ roots (foldl add_roots (sc, new_domains) l).1.
Proof.
  induction l as [|h l IH]; intros sc new_domains Hin Hsplit.
  { by apply elem_of_nil in Hin. }
  cbn [foldl]. apply elem_of_cons in Hin as [<- | Hin].
  - assert (Hadded : hostname ∈ roots (add_roots (sc, new_domains) hostname).1).
    { unfold Scope.add_roots.
      destruct (split_hostname hostname) as [[subdomain domain] suffix].
      simpl in Hsplit. subst subdomain. simpl.
      apply elem_of_union. left. by apply elem_of_singleton. }
    destruct (add_roots (sc, new_domains) hostname) as [sc1 nd1].
    destruct (foldl_add_roots_le l sc1 nd1) as (_ & Hle & _).
    by apply Hle.
  - destruct (add_roots (sc, new_domains) h) as [sc1 nd1]. by apply IH.
Qed.

(** X14: With [include_subdomains] on, a new domain target that has no
    subdomain part becomes a root, so that every name below it is in the
    scope built. *)
Theorem add_targets_subdomains_in_scope
        sc audit_config dns_resolution sc' target sub :
  add_targets sc audit_config dns_resolution = Ok sc' →
  include_subdomains audit_config = true →
  target ∈ targets audit_config →
  _re_is_domain target = true →
  lower target ∉ domains sc →
  (split_hostname (lower target)).1.1 = "" →
  _re_is_domain (sub +:+ "." +:+ lower target) = true →
  parse_address (sub +:+ "." +:+ lower target) = None →
  ParsedURL (sub +:+ "." +:+ lower target) = None →
  (__contains__ sc' (PyStr (sub +:+ "." +:+ lower target))).1 = Ok true.
Proof.
  intros Hbuild Hsub Hin Hre Hnew Hsplit Hre' Haddr Hurl.
  apply contains_subdomain_of_root; try done; [| apply lower_idempotent].
  revert Hbuild. unfold Scope.add_targets.
  destruct (negb _); [done |]. rewrite Hsub.
  pose proof (foldl_add_target_domain target (targets audit_config) sc ∅ Hin Hre)
    as Hdom.
  pose proof (foldl_add_target_new_domains (targets audit_config) sc ∅) as Hnd.
  destruct (foldl _ (sc, ∅) (targets audit_config)) as [sc1 nd1].
  simpl in Hdom, Hnd.
  assert (Hin1 : lower target ∈ nd1).
  { apply Hnd in Hdom. apply elem_of_union in Hdom as [Hold | Hfresh]; done. }
  pose proof (foldl_add_roots_root (lower target) (elements nd1) sc1 nd1) as Hroot.
  destruct (foldl add_roots (sc1, nd1) (elements nd1)) as [sc2 nd2].
  simpl in Hroot.
  assert (Hroot2 : lower target ∈ roots sc2).
  { apply Hroot; [by apply elem_of_elements | done]. }
  destruct (dns_resolution =? 0).
  - by intros [= <-].
  - intros (_ & Hle & _)%resolve_le. by apply Hle.
Qed.

End Build.

(** *** The invariants at work on the sample configuration *)


Lemma resolve_all_or_abort_witness :
  Forall (resolvable one_a_record no_aaaa_record) ["example.com"] ∧
  ∃ sc', resolve one_a_record no_aaaa_record ["example.com"] scope_before
         = Ok sc' ∧
         domains sc' = domains scope_before.
Proof.
  assert (Hall : Forall (resolvable one_a_record no_aaaa_record) ["example.com"]).
  { apply Forall_cons. split; [left; cbv; discriminate | by apply Forall_nil]. }
  split; [exact Hall |].
  destruct (resolve_all_or_abort one_a_record no_aaaa_record ["example.com"]
              scope_before) as (Hiff & _ & Hkeeps).
  destruct (proj1 Hiff Hall) as [sc' Hres].
  exists sc'. split; [exact Hres |]. exact (proj1 (Hkeeps sc' Hres)).
Defined.

Lemma add_targets_never_drops_witness :
  ∃ sc', add_targets never_an_address never_a_network never_a_url
                     whole_hostname one_a_record no_aaaa_record
                     scope_before config_demo 1 = Ok sc' ∧
         scope_le scope_before sc'.
Proof.
  eexists. split; [vm_compute; reflexivity |].
  apply (add_targets_never_drops never_an_address never_a_network never_a_url
           whole_hostname one_a_record no_aaaa_record
           scope_before config_demo 1).
  vm_compute. reflexivity.
Defined.

Lemma add_targets_domain_target_in_scope_witness :
  ∃ sc', add_targets never_an_address never_a_network never_a_url
                     whole_hostname one_a_record no_aaaa_record
                     scope_before config_demo 1 = Ok sc' ∧
         (__contains__ never_an_address never_a_url sc'
                       (PyStr "Example.com")).1 = Ok true.
Proof.
  eexists. split; [vm_compute; reflexivity |].
  apply (add_targets_domain_target_in_scope never_an_address never_a_network
           never_a_url whole_hostname one_a_record no_aaaa_record
           scope_before config_demo 1).
  - vm_compute. reflexivity.
  - by apply list_elem_of_singleton.
  - reflexivity.
  - reflexivity.
  - reflexivity.
Defined.

Lemma add_targets_subdomains_in_scope_witness :
  ∃ sc', add_targets never_an_address never_a_network never_a_url
                     whole_hostname one_a_record no_aaaa_record
                     scope_before config_demo 1 = Ok sc' ∧
         (__contains__ never_an_address never_a_url sc'
                       (PyStr "www.example.com")).1 = Ok true.
Proof.
  eexists. split; [vm_compute; reflexivity |].
  apply (add_targets_subdomains_in_scope never_an_address never_a_network
           never_a_url whole_hostname one_a_record no_aaaa_record
           scope_before config_demo 1 _ "Example.com" "www").
  - vm_compute. reflexivity.
  - reflexivity.
  - by apply list_elem_of_singleton.
  - reflexivity.
  - vm_compute. discriminate.
  - reflexivity.
  - reflexivity.
  - reflexivity.
  - reflexivity.
Defined.

End ScopeInvariants.

(** ** Invariants of the worker *)

Module WorkerInvariants.
Import Messaging ProcessManager ProcessManagerProofs WorkerFacts.

Lemma mild_lift {A} (r : result A) :
  (∀ e, r = Raise e → is_Exception e = true) → mild (lift r).
Proof.
  intros Hr w Halive. split; [done |]. simpl. destruct r as [x|e]; [done |].
  by apply Hr.
Qed.

Lemma mild_ret {A} (x : A) : mild (ret x).
Proof. by apply mild_lift. Qed.

Lemma calm_mild {A} (c : M A) : calm c → mild c.
Proof.
  intros Hc w Halive. destruct (Hc w Halive) as (Hlive & x & Hx).
  split; [done |]. by rewrite Hx.
Qed.

Lemma mild_bind {A B} (c : M A) (k : A → M B) :
  mild c → (∀ x, mild (k x)) → mild (bind c k).
Proof.
  intros Hc Hk w Halive. unfold bind.
  destruct (Hc w Halive) as [Hlive Hres].
  destruct (c w) as [[x|e] w1]; simpl in *; [by apply Hk | done].
Qed.

Lemma mild_when (b : bool) (c : M unit) : mild c → mild (when b c).
Proof. destruct b; [done | intros _; apply mild_ret]. Qed.

Lemma mild_try_finally {A} (body : M A) (fin : M unit) :
  mild body → mild fin → mild (try_finally body fin).
Proof.
  intros Hb Hf w Halive. unfold try_finally.
  destruct (Hb w Halive) as [Hlive Hres].
  destruct (body w) as [r w1]. simpl in *.
  destruct (Hf w1 Hlive) as [Hlive' Hres'].
  destruct (fin w1) as [[[]|e] w2]; simpl in *; done.
Qed.

(** [except Exception] around a mild body with a calm handler: calm. *)
Lemma calm_try_except {A} (body : M A) (handler : exn → M A) :
  mild body → (∀ e, calm (handler e)) →
  calm (try_except body is_Exception handler).
Proof.
  intros Hb Hh w Halive. unfold try_except.
  destruct (Hb w Halive) as [Hlive Hres].
  destruct (body w) as [[x|e] w1]; simpl in *; [by eauto |].
  rewrite Hres. by apply Hh.
Qed.

Lemma calm_try_finally {A} (body : M A) (fin : M unit) :
  calm body → calm fin → calm (try_finally body fin).
Proof.
  intros Hb Hf w Halive. unfold try_finally.
  destruct (Hb w Halive) as (Hlive & x & Hx).
  destruct (body w) as [r w1]. simpl in *. subst r.
  destruct (Hf w1 Hlive) as (Hlive' & [] & Hu).
  destruct (fin w1) as [r w2]. simpl in *. subst r. eauto.
Qed.

Lemma silent_lift {A} context (r : result A) : silent context (lift r).
Proof. by intros w _ _. Qed.

Lemma silent_bind {A B} context (c : M A) (k : A → M B) :
  silent context c → (∀ x, silent context (k x)) → silent context (bind c k).
Proof.
  intros Hc Hk w Hdead Hpid. unfold bind.
  specialize (Hc w Hdead Hpid). destruct (c w) as [[x|e] w1]; simpl in *;
    subst w1; [by apply Hk | done].
Qed.

Lemma silent_when context (b : bool) (c : M unit) :
  silent context c → silent context (when b c).
Proof. destruct b; [done | intros _; apply silent_lift]. Qed.

Lemma silent_try_finally {A} context (body : M A) (fin : M unit) :
  silent context body → silent context fin →
  silent context (try_finally body fin).
Proof.
  intros Hb Hf w Hdead Hpid. unfold try_finally.
  specialize (Hb w Hdead Hpid). destruct (body w) as [r w1]. simpl in *.
  subst w1. specialize (Hf w Hdead Hpid).
  by destruct (fin w) as [[[]|e] w2].
Qed.

Lemma silent_try_except {A} context (body : M A) catches (handler : exn → M A) :
  silent context body → (∀ e, silent context (handler e)) →
  silent context (try_except body catches handler).
Proof.
  intros Hb Hh w Hdead Hpid. unfold try_except.
  specialize (Hb w Hdead Hpid). destruct (body w) as [[x|e] w1]; simpl in *;
    subst w1; [done |].
  destruct (catches e); [by apply Hh | done].
Qed.

(** A body that returns is not touched by its [except] suite. *)
Lemma try_except_ok {S A} (body : ST S A) catches (handler : exn → ST S A) s x :
  (body s).1 = Ok x → try_except body catches handler s = body s.
Proof. unfold try_except. destruct (body s) as [[a|e] s']; by simpl. Qed.

Section Worker.

Variable MSG_PRIORITY_LOW MSG_PRIORITY_MEDIUM MSG_PRIORITY_HIGH : Z.
Variable on_finish : option (list pyobj) → result (list pyobj).
Variable context : PluginContext.
Variable func : string.
Variable argv : list pyobj.
Variable argd : gmap string pyobj.
Variable run : PluginRun.

Local Abbreviation send_msg := (send_msg MSG_PRIORITY_HIGH context).
Local Abbreviation send_error :=
  (send_error MSG_PRIORITY_MEDIUM MSG_PRIORITY_HIGH context).
Local Abbreviation recv_info_epilogue :=
  (recv_info_epilogue MSG_PRIORITY_MEDIUM MSG_PRIORITY_HIGH on_finish
                      context argv argd).
Local Abbreviation call_plugin :=
  (call_plugin MSG_PRIORITY_MEDIUM MSG_PRIORITY_HIGH on_finish
               context func argv argd run).
Local Abbreviation send_warnings :=
  (send_warnings MSG_PRIORITY_MEDIUM MSG_PRIORITY_HIGH context run).
Local Abbreviation _bootstrap :=
  (_bootstrap MSG_PRIORITY_LOW MSG_PRIORITY_MEDIUM MSG_PRIORITY_HIGH on_finish
              context func argv argd run).

Lemma calm_send ty code info prio :
  ty ≠ MSG_TYPE_RPC → calm (send_msg ty code info prio).
Proof.
  intros Hty w Halive.
  destruct (send_msg_alive MSG_PRIORITY_HIGH context ty code info prio w Hty Halive)
    as (ev & -> & _).
  split; [done |]. by exists tt.
Qed.

Lemma calm_send_error e : calm (send_error e).
Proof. by apply calm_send. Qed.

Lemma calm_send_warnings : calm send_warnings.
Proof.
  unfold ProcessManager.send_warnings.
  destruct (plugin_warnings run) as [|x l]; simpl.
  - intros w Halive. split; [done |]. by exists tt.
  - apply calm_try_except; [apply calm_mild; by apply calm_send |].
    apply calm_send_error.
Qed.

Local Abbreviation no_fatal_error := (no_fatal_error on_finish run).

Lemma mild_recv_info_epilogue r :
  (∀ r e, on_finish r = Raise e → is_Exception e = true) →
  mild (recv_info_epilogue r).
Proof.
  intros Hfinish. unfold ProcessManager.recv_info_epilogue.
  apply mild_bind.
  { destruct (argd !! "info"); [apply mild_ret |].
    destruct argv; [by apply mild_lift; intros e [= <-] | apply mild_ret]. }
  intros input. apply mild_bind; [apply mild_lift; by eauto |].
  intros l. apply mild_when, calm_mild.
  apply calm_try_except; [apply calm_mild; by apply calm_send |].
  apply calm_send_error.
Qed.

Lemma mild_call_plugin : no_fatal_error → mild call_plugin.
Proof.
  intros (_ & Hcall & Hfinish) w Halive.
  unfold ProcessManager.call_plugin.
  set (w1 := mkWorld _ _ _).
  assert (Halive1 : queue_alive w1 = true) by done.
  apply (mild_try_finally
           (lift (match call_outcome run with
                  | Ok _ => Ok ()
                  | Raise e => Raise e
                  end))
           (when (String.eqb func "recv_info")
                 (recv_info_epilogue
                    (match call_outcome run with
                     | Ok r => r
                     | Raise _ => None
                     end)))); [| | done].
  - apply mild_lift. intros e. destruct (call_outcome run) as [r|e'] eqn:Hout;
      [done |]. intros [= <-]. by apply Hcall.
  - by apply mild_when, mild_recv_info_epilogue.
Qed.

(** The guarded call: the callback with its two [finally] suites and the
    [except Exception] suite around them. *)
Local Abbreviation guarded_call :=
  (try_except
     (try_finally
        (bind (match load_error run with
               | Some e => raise e
               | None => ret tt
               end) (fun _ => call_plugin))
        send_warnings)
     is_Exception send_error).

Local Abbreviation send_the_ack :=
  (send_ack MSG_PRIORITY_LOW MSG_PRIORITY_HIGH context
            (ack_identity func argv argd)).

Local Abbreviation stop_handler :=
  (bind (try_except
           (send_msg MSG_TYPE_CONTROL MSG_CONTROL_STOP (InfoBool false)
                     MSG_PRIORITY_MEDIUM)
           (fun e => match e with SystemExit _ => false | _ => true end)
           (fun _ => ret tt))
        (fun _ => @exit World unit 1)).

Lemma bootstrap_unfold w :
  _bootstrap w
  = try_except (try_finally guarded_call send_the_ack) (fun _ => true)
               (fun _ => stop_handler) w.
Proof. reflexivity. Qed.

Lemma calm_guarded_call : no_fatal_error → calm guarded_call.
Proof.
  intros Hno. apply calm_try_except; [| apply calm_send_error].
  apply mild_try_finally; [| apply calm_mild, calm_send_warnings].
  apply mild_bind; [| intros _; by apply mild_call_plugin].
  destruct Hno as (Hload & _ & _).
  destruct (load_error run) as [e|]; [| apply mild_ret].
  apply mild_lift. intros e' [= <-]. by apply Hload.
Qed.

Lemma calm_guarded_call_ack :
  no_fatal_error → calm (try_finally guarded_call send_the_ack).
Proof.
  intros Hno. apply calm_try_finally; [by apply calm_guarded_call |].
  by apply calm_send.
Qed.

Local Abbreviation no_stop := (no_stop run).

Lemma appends_send_no_stop ty code info prio :
  ty ≠ MSG_TYPE_RPC → code ≠ MSG_CONTROL_STOP →
  appends no_stop (send_msg ty code info prio).
Proof.
  intros Hty Hcode. apply appends_send; [done |].
  intros ev Hev. right. eexists. split; [done |].
  unfold is_stop. simpl. by destruct ty, code.
Qed.

Lemma appends_no_stop_guarded_call_ack :
  appends no_stop (try_finally guarded_call send_the_ack).
Proof.
  assert (Herr : ∀ e, appends no_stop (send_error e)).
  { intros e. by apply appends_send_no_stop. }
  apply appends_try_finally; [| by apply appends_send_no_stop].
  apply appends_try_except; [| done].
  apply appends_try_finally.
  - apply appends_bind.
    { destruct (load_error run); [apply appends_raise | apply appends_ret]. }
    intros _. unfold ProcessManager.call_plugin.
    apply (appends_then no_stop
             (fun w => (Ok tt, mkWorld (getpid w) (queue_alive w)
                                       (bus w ++ emitted run)))
             (fun _ => try_finally _ _)).
    + intros w Halive. exists (emitted run). simpl. rewrite Halive.
      split; [done |]. apply Forall_forall. intros ev Hev. by left.
    + intros _. apply appends_try_finally; [apply appends_lift |].
      apply appends_when. unfold ProcessManager.recv_info_epilogue.
      apply appends_bind.
      { destruct (argd !! "info"); [apply appends_ret |].
        destruct argv; [apply appends_raise | apply appends_ret]. }
      intros input. apply appends_bind; [apply appends_lift |].
      intros l. apply appends_when, appends_try_except; [| done].
      by apply appends_send_no_stop.
  - apply appends_when, appends_try_except; [| done].
    by apply appends_send_no_stop.
Qed.

(** X15: Errors of a plugin stay in the worker: when loading the plugin, the
    callback and the sanitizer raise nothing but [Exception]s, the call
    returns normally and never asks the Orchestrator to stop. *)
Theorem plugin_exceptions_stay_in_worker w :
  no_fatal_error → queue_alive w = true →
  (_bootstrap w).1 = Ok tt ∧
  ∃ evs, bus (_bootstrap w).2 = bus w ++ evs ∧ Forall no_stop evs.
Proof.
  intros Hno Halive. rewrite bootstrap_unfold.
  destruct (calm_guarded_call_ack Hno w Halive) as (_ & [] & Hres).
  destruct (appends_no_stop_guarded_call_ack w Halive) as (evs & Hw & Hevs).
  rewrite (try_except_ok _ _ _ _ _ Hres). split; [done |].
  exists evs. by rewrite Hw.
Qed.

(** What the handlers around the guarded body do when the body ends with
    an error that [except Exception] does not catch: warnings, then the
    ACK, then the request to stop, then exit code 1. *)
Lemma fatal_error_path (body : M unit) e w w1 :
  body w = (Raise e, w1) → is_Exception e = false → queue_alive w1 = true →
  ∃ pre ack_ev stop_ev,
    try_except
      (try_finally
         (try_except (try_finally body send_warnings) is_Exception send_error)
         send_the_ack)
      (fun _ => true) (fun _ => stop_handler) w
    = (Raise (SystemExit 1),
       mkWorld (getpid w1) true (bus w1 ++ pre ++ [ack_ev; stop_ev])) ∧
    Forall (carries (fun m => is_warning m = true)) pre ∧
    event_message ack_ev =
      Some (worker_message context MSG_TYPE_CONTROL MSG_CONTROL_ACK
                           (InfoIdentity (ack_identity func argv argd))
                           MSG_PRIORITY_LOW) ∧
    event_message stop_ev = Some (stop_message context MSG_PRIORITY_MEDIUM).
Proof.
  intros Hbody Hfatal Halive.
  assert (Hwarn : ∃ pre,
    send_warnings w1 = (Ok tt, mkWorld (getpid w1) true (bus w1 ++ pre)) ∧
    Forall (carries (fun m => is_warning m = true)) pre).
  { unfold ProcessManager.send_warnings.
    destruct (plugin_warnings run) as [|x l]; simpl.
    - exists []. destruct w1; simpl in *; subst. by rewrite app_nil_r.
    - destruct (send_msg_alive MSG_PRIORITY_HIGH context MSG_TYPE_CONTROL
                  MSG_CONTROL_WARNING (InfoWarnings (x :: l))
                  MSG_PRIORITY_MEDIUM w1) as (ev & Hsend & Hev); [done | done |].
      exists [ev]. unfold try_except. rewrite Hsend. unfold emit.
      rewrite Halive. split; [done |]. repeat constructor. by eexists. }
  destruct Hwarn as (pre & Hwarn & Hpre).
  set (w2 := mkWorld (getpid w1) true (bus w1 ++ pre)) in *.
  destruct (send_msg_alive MSG_PRIORITY_HIGH context MSG_TYPE_CONTROL
              MSG_CONTROL_ACK (InfoIdentity (ack_identity func argv argd))
              MSG_PRIORITY_LOW w2) as (ack_ev & Hack & Hackev); [done | done |].
  destruct (send_msg_alive MSG_PRIORITY_HIGH context MSG_TYPE_CONTROL
              MSG_CONTROL_STOP (InfoBool false) MSG_PRIORITY_MEDIUM
              (emit ack_ev w2)) as (stop_ev & Hstop & Hstopev); [done | done |].
  exists pre, ack_ev, stop_ev.
  unfold try_except, try_finally, bind, send_ack.
  rewrite Hbody, Hwarn, Hfatal, Hack. rewrite Hstop.
  split; [| done]. unfold exit, raise, emit. simpl.
  by rewrite <- !app_assoc.
Qed.

(** X16: A fatal error is reported and ends the worker: when loading the plugin
    raises something that is not an [Exception] (a keyboard interrupt, an
    exit), or the callback of a call other than [recv_info] does, the
    worker still sends the ACK, then asks the Orchestrator to stop, and
    exits with code 1. *)
Theorem fatal_error_stops_orchestrator w e :
  queue_alive w = true →
  is_Exception e = false →
  load_error run = Some e ∨
  (load_error run = None ∧ call_outcome run = Raise e ∧ func ≠ "recv_info") →
  (_bootstrap w).1 = Raise (SystemExit 1) ∧
  ∃ pre ack_ev stop_ev,
    bus (_bootstrap w).2 = bus w ++ pre ++ [ack_ev; stop_ev] ∧
    Forall (before_ack run) pre ∧
    event_message ack_ev =
      Some (worker_message context MSG_TYPE_CONTROL MSG_CONTROL_ACK
                           (InfoIdentity (ack_identity func argv argd))
                           MSG_PRIORITY_LOW) ∧
    event_message stop_ev = Some (stop_message context MSG_PRIORITY_MEDIUM).
Proof.
  intros Halive Hfatal Hcase. rewrite bootstrap_unfold.
  assert (Hbody : ∃ w1 evs,
    bind (match load_error run with
          | Some e => raise e
          | None => ret tt
          end) (fun _ => call_plugin) w = (Raise e, w1) ∧
    w1 = mkWorld (getpid w) true (bus w ++ evs) ∧
    Forall (fun ev => ev ∈ emitted run) evs).
  { destruct Hcase as [Hload | (Hload & Hcall & Hfunc)].
    - exists w, []. rewrite Hload. unfold bind, raise.
      split; [done |]. split; [| done].
      destruct w; simpl in *; subst. by rewrite app_nil_r.
    - exists (mkWorld (getpid w) true (bus w ++ emitted run)), (emitted run).
      rewrite Hload. unfold bind, ret, ProcessManager.call_plugin.
      apply String.eqb_neq in Hfunc. rewrite Hfunc, Hcall, Halive.
      split; [done |]. split; [done |]. by apply Forall_forall. }
  destruct Hbody as (w1 & evs & Hbody & Hw1 & Hevs).
  destruct (fatal_error_path _ e w w1 Hbody Hfatal) as
    (pre & ack_ev & stop_ev & Hrun & Hpre & Hack & Hstop).
  { by subst w1. }
  rewrite Hrun. split; [done |].
  exists (evs ++ pre), ack_ev, stop_ev. subst w1. simpl.
  rewrite <- !app_assoc. split; [done |]. split; [| done].
  apply Forall_app. split.
  - eapply Forall_impl; [exact Hevs |]. intros ev Hev. by left.
  - eapply Forall_impl; [exact Hpre |]. intros ev (m & Hm & Hw). right.
    exists m. split; [done |]. unfold is_warning in Hw. unfold is_ack.
    by destruct (message_type m), (message_code m).
Qed.

(** Without a queue, in a process other than the Orchestrator's, a
    message goes nowhere and the process exits with code 1. *)
Lemma send_msg_dead ty code info prio w :
  queue_alive w = false → orchestrator_pid context ≠ getpid w →
  send_msg ty code info prio w = (Raise (SystemExit 1), w).
Proof.
  intros Hdead Hpid.
  unfold ProcessManager.send_msg, ProcessManager.send_raw_msg.
  apply Z.eqb_neq in Hpid. by rewrite Hpid, !andb_false_r, Hdead.
Qed.

Lemma silent_send ty code info prio :
  silent context (send_msg ty code info prio).
Proof. intros w Hdead Hpid. by rewrite send_msg_dead. Qed.

Lemma silent_guarded_call : emitted run = [] → silent context guarded_call.
Proof.
  intros Hquiet.
  assert (Herr : ∀ e, silent context (send_error e)).
  { intros e. apply silent_send. }
  apply silent_try_except; [| done].
  apply silent_try_finally;
    [| apply silent_when, silent_try_except; [apply silent_send | done]].
  apply silent_bind.
  { destruct (load_error run); apply silent_lift. }
  intros _ w Hdead Hpid. unfold ProcessManager.call_plugin.
  rewrite Hquiet, app_nil_r.
  replace (mkWorld (getpid w) (queue_alive w) (bus w)) with w by by destruct w.
  revert w Hdead Hpid. apply silent_try_finally; [apply silent_lift |].
  apply silent_when. unfold ProcessManager.recv_info_epilogue.
  apply silent_bind.
  { destruct (argd !! "info"); [apply silent_lift |].
    destruct argv; apply silent_lift. }
  intros input. apply silent_bind; [apply silent_lift |].
  intros l. apply silent_when, silent_try_except; [apply silent_send | done].
Qed.

(** X17: Once the parent is gone: in a process other than the Orchestrator's
    whose queue no longer accepts messages, a call whose callback caused no
    event of its own puts nothing anywhere, whatever the callback did, and
    ends the process with exit code 1. *)
Theorem dead_queue_ends_worker w :
  queue_alive w = false → orchestrator_pid context ≠ getpid w →
  emitted run = [] →
  _bootstrap w = (Raise (SystemExit 1), w).
Proof.
  intros Hdead Hpid Hquiet. rewrite bootstrap_unfold.
  pose proof (silent_guarded_call Hquiet w Hdead Hpid) as Hsame.
  unfold try_except at 1. unfold try_finally at 1.
  destruct (guarded_call w) as [r w1]. simpl in Hsame. subst w1.
  unfold send_ack. rewrite send_msg_dead by done.
  unfold bind, try_except. by rewrite send_msg_dead.
Qed.

Lemma send_warnings_alive w :
  queue_alive w = true →
  ∃ pre,
    send_warnings w = (Ok tt, mkWorld (getpid w) true (bus w ++ pre)) ∧
    Forall (carries (fun m => is_warning m = true)) pre.
Proof.
  intros Halive. unfold ProcessManager.send_warnings.
  destruct (plugin_warnings run) as [|x l]; simpl.
  - exists []. destruct w; simpl in *; subst. by rewrite app_nil_r.
  - destruct (send_msg_alive MSG_PRIORITY_HIGH context MSG_TYPE_CONTROL
                MSG_CONTROL_WARNING (InfoWarnings (x :: l))
                MSG_PRIORITY_MEDIUM w) as (ev & Hsend & Hev); [done | done |].
    exists [ev]. unfold try_except. rewrite Hsend. unfold emit.
    rewrite Halive. split; [done |]. repeat constructor. by eexists.
Qed.

(** What the handlers around the guarded body do when the body ends with
    an [Exception]: warnings, then the error report, then the ACK. *)
Lemma caught_error_path (body : M unit) e w w1 :
  body w = (Raise e, w1) → is_Exception e = true → queue_alive w1 = true →
  ∃ pre err_ev ack_ev,
    try_except
      (try_finally
         (try_except (try_finally body send_warnings) is_Exception send_error)
         send_the_ack)
      (fun _ => true) (fun _ => stop_handler) w
    = (Ok tt, mkWorld (getpid w1) true (bus w1 ++ pre ++ [err_ev; ack_ev])) ∧
    Forall (carries (fun m => is_warning m = true)) pre ∧
    event_message err_ev =
      Some (worker_message context MSG_TYPE_CONTROL MSG_CONTROL_ERROR
                           (InfoError (exn_message e) (format_exc e))
                           MSG_PRIORITY_MEDIUM) ∧
    event_message ack_ev =
      Some (worker_message context MSG_TYPE_CONTROL MSG_CONTROL_ACK
                           (InfoIdentity (ack_identity func argv argd))
                           MSG_PRIORITY_LOW).
Proof.
  intros Hbody Hcaught Halive.
  destruct (send_warnings_alive w1 Halive) as (pre & Hwarn & Hpre).
  set (w2 := mkWorld (getpid w1) true (bus w1 ++ pre)) in *.
  destruct (send_msg_alive MSG_PRIORITY_HIGH context MSG_TYPE_CONTROL
              MSG_CONTROL_ERROR (InfoError (exn_message e) (format_exc e))
              MSG_PRIORITY_MEDIUM w2) as (err_ev & Herr & Herrev); [done | done |].
  destruct (send_msg_alive MSG_PRIORITY_HIGH context MSG_TYPE_CONTROL
              MSG_CONTROL_ACK (InfoIdentity (ack_identity func argv argd))
              MSG_PRIORITY_LOW (emit err_ev w2))
    as (ack_ev & Hack & Hackev); [done | done |].
  exists pre, err_ev, ack_ev.
  unfold try_except, try_finally, send_ack, ProcessManager.send_error.
  rewrite Hbody, Hwarn, Hcaught, Herr. rewrite Hack.
  split; [| done]. unfold emit. simpl. by rewrite <- !app_assoc.
Qed.

(** An [Exception] is reported and acknowledged: when loading the plugin
    raises one, or the callback of a call other than [recv_info] does, the
    worker sends the warnings recorded so far, then one ERROR message with
    the exception's message and traceback, then the ACK, and returns. *)
Theorem exception_is_reported_then_acknowledged w e :
  queue_alive w = true →
  is_Exception e = true →
  load_error run = Some e ∨
  (load_error run = None ∧ call_outcome run = Raise e ∧ func ≠ "recv_info") →
  (_bootstrap w).1 = Ok tt ∧
  ∃ pre err_ev ack_ev,
    bus (_bootstrap w).2 = bus w ++ pre ++ [err_ev; ack_ev] ∧
    Forall (fun ev => ev ∈ emitted run ∨
                      carries (fun m => is_warning m = true) ev) pre ∧
    event_message err_ev =
      Some (worker_message context MSG_TYPE_CONTROL MSG_CONTROL_ERROR
                           (InfoError (exn_message e) (format_exc e))
                           MSG_PRIORITY_MEDIUM) ∧
    event_message ack_ev =
      Some (worker_message context MSG_TYPE_CONTROL MSG_CONTROL_ACK
                           (InfoIdentity (ack_identity func argv argd))
                           MSG_PRIORITY_LOW).
Proof.
  intros Halive Hcaught Hcase. rewrite bootstrap_unfold.
  assert (Hbody : ∃ w1 evs,
    bind (match load_error run with
          | Some e => raise e
          | None => ret tt
          end) (fun _ => call_plugin) w = (Raise e, w1) ∧
    w1 = mkWorld (getpid w) true (bus w ++ evs) ∧
    Forall (fun ev => ev ∈ emitted run) evs).
  { destruct Hcase as [Hload | (Hload & Hcall & Hfunc)].
    - exists w, []. rewrite Hload. unfold bind, raise.
      split; [done |]. split; [| done].
      destruct w; simpl in *; subst. by rewrite app_nil_r.
    - exists (mkWorld (getpid w) true (bus w ++ emitted run)), (emitted run).
      rewrite Hload. unfold bind, ret, ProcessManager.call_plugin.
      apply String.eqb_neq in Hfunc. rewrite Hfunc, Hcall, Halive.
      split; [done |]. split; [done |]. by apply Forall_forall. }
  destruct Hbody as (w1 & evs & Hbody & Hw1 & Hevs).
  destruct (caught_error_path _ e w w1 Hbody Hcaught) as
    (pre & err_ev & ack_ev & Hrun & Hpre & Herr & Hack).
  { by subst w1. }
  rewrite Hrun. split; [done |].
  exists (evs ++ pre), err_ev, ack_ev. subst w1. simpl.
  rewrite <- !app_assoc. split; [done |]. split; [| done].
  apply Forall_app. split.
  - eapply Forall_impl; [exact Hevs |]. intros ev Hev. by left.
  - eapply Forall_impl; [exact Hpre |]. intros ev Hev. by right.
Qed.

(** X18: An error in the [finally] suite of a [recv_info] call replaces the
    outcome of the callback: when the input item cannot be found (neither
    under the key [info] nor by position) or the sanitizer raises an
    [Exception], that exception is the one reported, no data is sent, and
    the call returns normally even if the callback was interrupted. *)
Theorem epilogue_error_replaces_callback_outcome w e :
  queue_alive w = true →
  func = "recv_info" →
  load_error run = None →
  is_Exception e = true →
  (argd !! "info" = None ∧ argv = [] ∧
   e = Exception "IndexError" "tuple index out of range") ∨
  ((is_Some (argd !! "info") ∨ argv ≠ []) ∧
   on_finish (match call_outcome run with Ok r => r | Raise _ => None end)
   = Raise e) →
  (_bootstrap w).1 = Ok tt ∧
  ∃ pre err_ev ack_ev,
    bus (_bootstrap w).2 = bus w ++ emitted run ++ pre ++ [err_ev; ack_ev] ∧
    Forall (carries (fun m => is_warning m = true)) pre ∧
    event_message err_ev =
      Some (worker_message context MSG_TYPE_CONTROL MSG_CONTROL_ERROR
                           (InfoError (exn_message e) (format_exc e))
                           MSG_PRIORITY_MEDIUM) ∧
    event_message ack_ev =
      Some (worker_message context MSG_TYPE_CONTROL MSG_CONTROL_ACK
                           (InfoIdentity (ack_identity func argv argd))
                           MSG_PRIORITY_LOW).
Proof.
  intros Halive Hfunc Hload Hcaught Hcase. rewrite bootstrap_unfold.
  set (w1 := mkWorld (getpid w) true (bus w ++ emitted run)).
  assert (Hepi :
    recv_info_epilogue
      (match call_outcome run with Ok r => r | Raise _ => None end) w1
    = (Raise e, w1)).
  { unfold ProcessManager.recv_info_epilogue, bind.
    destruct Hcase as [(Hinfo & Hargv & ->) | [Hinput Hfinish]].
    - by rewrite Hinfo, Hargv.
    - assert (Hlookup : ∃ input,
        (match argd !! "info" with
         | Some o => ret o
         | None => match argv with
                   | o :: _ => ret o
                   | [] => raise (Exception "IndexError"
                                            "tuple index out of range")
                   end
         end) w1 = (Ok input, w1)).
      { destruct (argd !! "info") as [o|]; [by exists o |].
        destruct Hinput as [[o Ho] | Hargv]; [done |].
        destruct argv as [|o rest]; [done | by exists o]. }
      destruct Hlookup as [input ->]. unfold lift. by rewrite Hfinish. }
  assert (Hbody :
    bind (match load_error run with
          | Some e => raise e
          | None => ret tt
          end) (fun _ => call_plugin) w = (Raise e, w1)).
  { rewrite Hload. unfold bind, ret, ProcessManager.call_plugin.
    rewrite Halive. fold w1. rewrite Hfunc. simpl String.eqb. cbn [when].
    unfold try_finally, lift. by rewrite Hepi. }
  destruct (caught_error_path _ e w w1 Hbody Hcaught) as
    (pre & err_ev & ack_ev & Hrun & Hpre & Herr & Hack); [done |].
  rewrite Hrun. split; [done |].
  exists pre, err_ev, ack_ev. simpl. by rewrite <- !app_assoc.
Qed.

Local Abbreviation no_data := (no_data run).

(** X19: Only [recv_info] calls answer with data: for any other callback the
    worker itself sends no data message, whatever the callback returned,
    and the ACK carries no identity. *)
Theorem other_callbacks_send_no_data w :
  queue_alive w = true → func ≠ "recv_info" →
  ack_identity func argv argd = None ∧
  ∃ evs, bus (_bootstrap w).2 = bus w ++ evs ∧ Forall no_data evs.
Proof.
  intros Halive Hfunc. apply String.eqb_neq in Hfunc. split.
  { unfold ProcessManager.ack_identity. by rewrite Hfunc. }
  assert (Herr : ∀ e, appends no_data (send_error e)).
  { intros e. apply appends_send; [done |]. intros ev Hev. right. by eexists. }
  assert (Happ : appends no_data _bootstrap).
  { apply appends_try_except.
    - apply appends_try_finally;
        [| apply appends_send; [done |]; intros ev Hev; right; by eexists].
      apply appends_try_except; [| done].
      apply appends_try_finally.
      + apply appends_bind.
        { destruct (load_error run); [apply appends_raise | apply appends_ret]. }
        intros _. unfold ProcessManager.call_plugin. rewrite Hfunc.
        apply (appends_then no_data
                 (fun w => (Ok tt, mkWorld (getpid w) (queue_alive w)
                                           (bus w ++ emitted run)))
                 (fun _ => try_finally _ _)).
        * intros w' Halive'. exists (emitted run). simpl. rewrite Halive'.
          split; [done |]. apply Forall_forall. intros ev Hev. by left.
        * intros _. apply appends_try_finally; [apply appends_lift |].
          apply appends_ret.
      + apply appends_when, appends_try_except; [| done].
        apply appends_send; [done |]. intros ev Hev. right. by eexists.
    - intros _. apply appends_bind; [| intros _; apply appends_raise].
      apply appends_try_except; [| intros _; apply appends_ret].
      apply appends_send; [done |]. intros ev Hev. right. by eexists. }
  destruct (Happ w Halive) as (evs & Hw & Hevs).
  exists evs. by rewrite Hw.
Qed.

End Worker.

(** *** The invariants at work on the sample calls *)

Lemma plugin_exceptions_stay_in_worker_witness :
  no_fatal_error on_finish_demo run_raises ∧
  (_bootstrap 0 1 2 on_finish_demo ctx_demo "recv_info" argv_demo ∅
              run_raises worker_world).1 = Ok tt.
Proof.
  assert (Hno : no_fatal_error on_finish_demo run_raises).
  { split; [intros e [=] |].
    split; [intros e [= <-]; reflexivity | intros r e [=]]. }
  split; [exact Hno |].
  apply (plugin_exceptions_stay_in_worker 0 1 2 on_finish_demo ctx_demo
           "recv_info" argv_demo ∅ run_raises worker_world Hno eq_refl).
Defined.

Lemma fatal_error_stops_orchestrator_witness :
  load_error run_load_interrupted = Some KeyboardInterrupt ∧
  (_bootstrap 0 1 2 on_finish_demo ctx_demo "recv_info" argv_demo ∅
              run_load_interrupted worker_world).1 = Raise (SystemExit 1).
Proof.
  split; [reflexivity |].
  apply (fatal_error_stops_orchestrator 0 1 2 on_finish_demo ctx_demo
           "recv_info" argv_demo ∅ run_load_interrupted worker_world
           KeyboardInterrupt eq_refl eq_refl).
  left. reflexivity.
Defined.

Lemma dead_queue_ends_worker_witness :
  queue_alive orphan_world = false ∧
  _bootstrap 0 1 2 on_finish_demo ctx_demo "recv_info" argv_demo ∅
             run_returns orphan_world
  = (Raise (SystemExit 1), orphan_world).
Proof.
  split; [reflexivity |].
  apply (dead_queue_ends_worker 0 1 2 on_finish_demo ctx_demo
           "recv_info" argv_demo ∅ run_returns orphan_world).
  - reflexivity.
  - discriminate.
  - reflexivity.
Defined.

Lemma epilogue_error_replaces_callback_outcome_witness :
  call_outcome run_callback_interrupted = Raise KeyboardInterrupt ∧
  (_bootstrap 0 1 2 on_finish_demo ctx_demo "recv_info" [] ∅
              run_callback_interrupted worker_world).1 = Ok tt.
Proof.
  split; [reflexivity |].
  apply (epilogue_error_replaces_callback_outcome 0 1 2 on_finish_demo
           ctx_demo "recv_info" [] ∅ run_callback_interrupted worker_world
           (Exception "IndexError" "tuple index out of range")).
  - reflexivity.
  - reflexivity.
  - reflexivity.
  - reflexivity.
  - left. split; [reflexivity |]. split; reflexivity.
Defined.

Lemma other_callbacks_send_no_data_witness :
  "recv_msg" ≠ "recv_info" ∧ ack_identity "recv_msg" argv_demo ∅ = None.
Proof.
  assert (Hfunc : "recv_msg" ≠ "recv_info") by discriminate.
  split; [exact Hfunc |].
  apply (other_callbacks_send_no_data 0 1 2 on_finish_demo ctx_demo
           "recv_msg" argv_demo ∅ run_returns worker_world eq_refl Hfunc).
Defined.

End WorkerInvariants.

(** ** Invariants of the registry of audits *)

Module RegistryInvariants.
Import Messaging AuditManager AuditRegistry.

Section Registry.

Variable MSG_PRIORITY_LOW MSG_PRIORITY_MEDIUM MSG_PRIORITY_HIGH : Z.
Variable pluginManager : PluginManager.
Variable notifier : AuditNotifier.
Variable report_manager_generate_reports : AuditNotifier → result Z.
Variable import_results : AuditDB → result AuditDB.
Variable IP Domain Url : string → Data.
Variable release_all_slots : list ResourceEvent → string → result unit.
Variable database_compact : list ResourceEvent → string → result unit.
Variable database_close : list ResourceEvent → string → result unit.
Variable cache_clean : list ResourceEvent → string → result unit.

Local Abbreviation audit_close :=
  (audit_close database_compact database_close).
Local Abbreviation remove_audit :=
  (remove_audit release_all_slots database_compact database_close cache_clean).
Local Abbreviation close_names :=
  (close_names release_all_slots database_compact database_close cache_clean).
Local Abbreviation close :=
  (close release_all_slots database_compact database_close cache_clean).
Local Abbreviation dispatch_msg :=
  (dispatch_msg MSG_PRIORITY_LOW MSG_PRIORITY_MEDIUM MSG_PRIORITY_HIGH
                pluginManager notifier report_manager_generate_reports
                release_all_slots database_compact database_close
                cache_clean).
Local Abbreviation new_audit :=
  (new_audit MSG_PRIORITY_MEDIUM pluginManager import_results IP Domain Url).

(** The requests [remove_audit] makes about the audit itself. *)
Local Abbreviation closing m audit_name :=
  (match audits m !! audit_name with
   | Some audit => [Compacted (name audit); DbClosed (name audit)]
   | None => []
   end).

Lemma audit_close_state audit m :
  (audit_close audit m).2
  = mkRegistry (audits m)
               (trail m ++ [Compacted (name audit); DbClosed (name audit)]).
Proof.
  unfold AuditRegistry.audit_close, try_finally, request. simpl.
  rewrite <- app_assoc. simpl.
  by destruct (database_close _ _) as [[]|e].
Qed.

Lemma remove_audit_state audit_name m :
  (remove_audit audit_name m).2
  = mkRegistry (delete audit_name (audits m))
               (trail m ++ [ReleasedSlots audit_name] ++
                closing m audit_name ++ [CacheCleaned audit_name]).
Proof.
  unfold AuditRegistry.remove_audit.
  unfold try_finally at 1. unfold request at 1.
  unfold try_finally at 1. unfold bind, get_audit. simpl.
  destruct (audits m !! audit_name) as [audit|] eqn:Hlook; simpl.
  - unfold try_finally at 1.
    pose proof (audit_close_state audit
                  (mkRegistry (audits m) (trail m ++ [ReleasedSlots audit_name])))
      as Hclose.
    destruct (audit_close audit _) as [r m1]. simpl in Hclose. subst m1.
    unfold modify, request, set_audits. simpl.
    rewrite <- !app_assoc. simpl.
    destruct (cache_clean _ _) as [[]|e]; [| done]. by destruct r as [[]|e].
  - unfold request. simpl. rewrite <- !app_assoc. simpl.
    rewrite delete_id by done.
    by destruct (cache_clean _ _) as [[]|e].
Qed.

(** X20: Whatever the collaborators do, [remove_audit] takes the name out of
    the dictionary, leaves every other audit where it is, and asks the
    network manager first and the cache manager last. *)
Theorem remove_audit_always_unregisters audit_name m :
  let m' := (remove_audit audit_name m).2 in
  audits m' !! audit_name = None ∧
  (∀ other, other ≠ audit_name → audits m' !! other = audits m !! other) ∧
  trail m' = trail m ++ [ReleasedSlots audit_name] ++
             closing m audit_name ++ [CacheCleaned audit_name].
Proof.
  simpl. rewrite remove_audit_state. simpl. split; [apply lookup_delete_eq |].
  split; [| done]. intros other Hother. by apply lookup_delete_ne.
Qed.

Lemma audit_close_result audit m :
  (audit_close audit m).1
  = match database_close (trail m ++ [Compacted (name audit)]) (name audit) with
    | Ok _ => database_compact (trail m) (name audit)
    | Raise e => Raise e
    end.
Proof.
  unfold AuditRegistry.audit_close, try_finally, request. simpl.
  by destruct (database_close _ _) as [[]|e].
Qed.

(** X21: [remove_audit] returns normally exactly when the name was registered
    and each of the four requests returned; in every other case it
    raises. *)
Theorem remove_audit_returns_iff audit_name m :
  (remove_audit audit_name m).1 = Ok tt ↔
  ∃ audit,
    audits m !! audit_name = Some audit ∧
    release_all_slots (trail m) audit_name = Ok tt ∧
    database_compact (trail m ++ [ReleasedSlots audit_name]) (name audit)
    = Ok tt ∧
    database_close (trail m ++ [ReleasedSlots audit_name;
                                Compacted (name audit)]) (name audit)
    = Ok tt ∧
    cache_clean (trail m ++ [ReleasedSlots audit_name; Compacted (name audit);
                             DbClosed (name audit)]) audit_name
    = Ok tt.
Proof.
  unfold AuditRegistry.remove_audit.
  unfold try_finally at 1. unfold request at 1.
  unfold try_finally at 1. unfold bind, get_audit. simpl.
  destruct (audits m !! audit_name) as [audit|] eqn:Hlook; simpl.
  - unfold try_finally at 1.
    pose proof (audit_close_state audit
                  (mkRegistry (audits m) (trail m ++ [ReleasedSlots audit_name])))
      as Hstate.
    pose proof (audit_close_result audit
                  (mkRegistry (audits m) (trail m ++ [ReleasedSlots audit_name])))
      as Hres.
    destruct (audit_close audit _) as [r m1]. simpl in Hstate, Hres. subst m1.
    unfold modify, request, set_audits. simpl.
    rewrite <- !app_assoc in *. simpl in *.
    split.
    + intros Hok. exists audit. split; [done |].
      destruct (cache_clean _ _) as [[]|e]; [| done].
      destruct r as [[]|e]; [| done]. simpl in Hok.
      destruct (database_close _ _) as [[]|e]; [| done]. done.
    + intros (audit' & [= <-] & Hrel & Hcompact & Hclose & Hclean).
      rewrite Hclean. rewrite Hclose, Hcompact in Hres. subst r. by simpl.
  - unfold request. simpl. split.
    + intros Hok. by destruct (cache_clean _ _) as [[]|e].
    + by intros (audit & [=] & _).
Qed.

Lemma remove_audit_swallowed audit_name m :
  try_except (remove_audit audit_name) (fun _ => true) (fun _ => ret tt) m
  = (Ok tt, (remove_audit audit_name m).2).
Proof.
  unfold try_except. by destruct (remove_audit audit_name m) as [[[]|e] m'].
Qed.

Lemma close_names_cons x names m :
  close_names (x :: names) m = close_names names (remove_audit x m).2.
Proof.
  unfold AuditRegistry.close_names. cbn [for_each]. unfold bind at 1.
  by rewrite remove_audit_swallowed.
Qed.

Lemma close_names_spec names m :
  let m' := (close_names names m).2 in
  (close_names names m).1 = Ok tt ∧
  (∀ n, audits m' !! n = if bool_decide (n ∈ names) then None
                         else audits m !! n) ∧
  ∃ evs, trail m' = trail m ++ evs ∧
         ∀ n, n ∈ names → ReleasedSlots n ∈ evs ∧ CacheCleaned n ∈ evs.
Proof.
  revert m. induction names as [|x names IH]; intros m; cbv zeta.
  { split; [done |]. split; [done |]. exists []. simpl. rewrite app_nil_r.
    split; [done |]. intros n Hn. by apply elem_of_nil in Hn. }
  rewrite close_names_cons.
  specialize (IH (remove_audit x m).2). cbv zeta in IH.
  destruct IH as (Hres & Hlook & evs & Htrail & Hevs).
  split; [done |]. split.
  - intros n. rewrite Hlook.
    pose proof (remove_audit_state x m) as Hstate.
    destruct (decide (n ∈ names)) as [Hin|Hin].
    + rewrite !bool_decide_eq_true_2; [done | by right | done].
    + rewrite (bool_decide_eq_false_2 (n ∈ names)) by done.
      rewrite Hstate. simpl.
      destruct (decide (n = x)) as [->|Hne].
      * rewrite bool_decide_eq_true_2 by by left. apply lookup_delete_eq.
      * rewrite bool_decide_eq_false_2
          by (intros [?|?]%elem_of_cons; done).
        by apply lookup_delete_ne.
  - rewrite Htrail, remove_audit_state. simpl.
    eexists. rewrite <- app_assoc. split; [done |].
    intros n [->|Hn]%elem_of_cons.
    + split.
      * apply elem_of_app. left. by left.
      * apply elem_of_app. left. right. apply elem_of_app. right. by left.
    + destruct (Hevs n Hn). split; apply elem_of_app; by right.
Qed.

(** X22: [close] empties the dictionary and never raises, whatever the
    collaborators do; for every audit that was registered the network
    manager and the cache manager have been asked. *)
Theorem close_unregisters_every_audit m :
  let m' := (close m).2 in
  (close m).1 = Ok tt ∧
  audits m' = ∅ ∧
  ∀ n, is_Some (audits m !! n) →
       ReleasedSlots n ∈ trail m' ∧ CacheCleaned n ∈ trail m'.
Proof.
  simpl. unfold AuditRegistry.close.
  assert (Hkeys : ∀ n, n ∈ (map_to_list (audits m)).*1 ↔ is_Some (audits m !! n)).
  { intros n. rewrite list_elem_of_fmap. split.
    - intros ([k a] & -> & Hka). apply elem_of_map_to_list in Hka. by exists a.
    - intros [a Ha]. exists (n, a). split; [done |].
      by apply elem_of_map_to_list. }
  destruct (close_names_spec (map_to_list (audits m)).*1 m)
    as (Hres & Hlook & evs & Htrail & Hevs).
  split; [done |]. split.
  - apply map_eq. intros n. rewrite lookup_empty, Hlook.
    destruct (decide (n ∈ (map_to_list (audits m)).*1)) as [Hin|Hin].
    + by rewrite bool_decide_eq_true_2.
    + rewrite bool_decide_eq_false_2 by done.
      destruct (audits m !! n) eqn:Hn; [| done].
      exfalso. apply Hin, Hkeys. by eexists.
  - intros n Hn%Hkeys. rewrite Htrail.
    destruct (Hevs n Hn). split; apply elem_of_app; by right.
Qed.

Lemma on_audit_state {A} audit_name (method : ST Audit A) m :
  (on_audit audit_name method m).2
  = match audits m !! audit_name with
    | Some audit =>
        mkRegistry (<[audit_name := (method audit).2]> (audits m)) (trail m)
    | None => m
    end.
Proof.
  unfold on_audit, bind, get_audit.
  destruct (audits m !! audit_name) as [audit|]; [| done].
  by destruct (method audit).
Qed.

(** X23: A message reaches at most the audit it names: every other audit of
    the dictionary is afterwards what it was before. *)
Theorem dispatch_msg_touches_only_its_audit message m other :
  audit_name message ≠ Some other →
  audits (dispatch_msg message m).2 !! other = audits m !! other.
Proof.
  intros Hother. unfold AuditRegistry.dispatch_msg.
  destruct (message_type message); try done.
  - destruct (audit_name message) as [n|]; [| done].
    destruct (no_audit_name (Some n)); [done |].
    rewrite on_audit_state. destruct (audits m !! n); [| done].
    simpl. apply lookup_insert_ne. congruence.
  - destruct (message_code message); try done.
    + destruct (audit_name message) as [n|]; [| done].
      destruct (no_audit_name (Some n)); [done |].
      unfold bind.
      pose proof (on_audit_state n
                    (acknowledge MSG_PRIORITY_LOW MSG_PRIORITY_MEDIUM
                       pluginManager notifier report_manager_generate_reports
                       message) m) as Hstate.
      destruct (on_audit n _ m) as [[[]|e] m1]; simpl in *; subst m1;
        (destruct (audits m !! n); [| done]);
        simpl; apply lookup_insert_ne; congruence.
    + destruct (audit_name message) as [n|]; [| done].
      destruct (no_audit_name (Some n)); [done |].
      unfold bind, get_audit.
      destruct (audits m !! n) as [audit|]; [| done].
      pose proof (audit_close_state audit m) as Hclose.
      destruct (audit_close audit m) as [[[]|e] m1]; simpl in *; subst m1;
        [| done].
      pose proof (remove_audit_state n
                    (mkRegistry (audits m)
                       (trail m ++ [Compacted (name audit);
                                    DbClosed (name audit)]))) as Hremove.
      destruct (remove_audit n _) as [[[]|e] m2]; simpl in *; subst m2;
        simpl; apply lookup_delete_ne; congruence.
Qed.

(** A message that names no audit changes nothing: as data or as the
    request to stop an audit it is refused with a [ValueError], anything
    else is answered [True]. *)
Theorem dispatch_msg_without_audit_name message m :
  no_audit_name (audit_name message) = true →
  (dispatch_msg message m).2 = m ∧
  (dispatch_msg message m).1
  = match message_type message, message_code message with
    | MSG_TYPE_DATA, _ =>
        Raise (Exception "ValueError" "Info message with no target audit!")
    | MSG_TYPE_CONTROL, MSG_CONTROL_STOP_AUDIT =>
        Raise (Exception "ValueError" "I don't know which audit to stop...")
    | _, _ => Ok true
    end.
Proof.
  intros Hname. unfold AuditRegistry.dispatch_msg.
  destruct (message_type message); try done.
  - destruct (audit_name message) as [n|]; [| done]. by rewrite Hname.
  - destruct (message_code message); try done.
    + destruct (audit_name message) as [n|]; [| done]. by rewrite Hname.
    + destruct (audit_name message) as [n|]; [| done]. by rewrite Hname.
Qed.

(** X24: Stopping an audit closes its database twice: the request to stop
    first closes the audit it finds under the name, and only when that
    returned does it call [remove_audit], which closes it again before it
    takes it out of the dictionary.  When the first [close] raises, the
    audit stays registered. *)
Theorem stop_audit_closes_twice message n audit m :
  message_type message = MSG_TYPE_CONTROL →
  message_code message = MSG_CONTROL_STOP_AUDIT →
  audit_name message = Some n → n ≠ "" →
  audits m !! n = Some audit →
  let m' := (dispatch_msg message m).2 in
  match (audit_close audit m).1 with
  | Ok _ =>
      audits m' = delete n (audits m) ∧
      trail m' = trail m ++
                 [Compacted (name audit); DbClosed (name audit);
                  ReleasedSlots n;
                  Compacted (name audit); DbClosed (name audit);
                  CacheCleaned n]
  | Raise e =>
      (dispatch_msg message m).1 = Raise e ∧
      audits m' = audits m ∧
      trail m' = trail m ++ [Compacted (name audit); DbClosed (name audit)]
  end.
Proof.
  intros Hty Hcode Hname Hn Hlook. simpl.
  unfold AuditRegistry.dispatch_msg. rewrite Hty, Hcode, Hname.
  apply String.eqb_neq in Hn. simpl. rewrite Hn.
  unfold bind, get_audit. rewrite Hlook.
  pose proof (audit_close_state audit m) as Hclose.
  destruct (audit_close audit m) as [[[]|e] m1]; simpl in *; subst m1;
    [| done].
  pose proof (remove_audit_state n
                (mkRegistry (audits m)
                   (trail m ++ [Compacted (name audit);
                                DbClosed (name audit)]))) as Hremove.
  destruct (remove_audit n _) as [[[]|e] m2]; simpl in *; subst m2;
    simpl; rewrite Hlook, <- !app_assoc; done.
Qed.

Lemma bind_state {S A B} (c : ST S A) (k : A → ST S B) s :
  (bind c k s).2
  = match (c s).1 with
    | Ok x => (k x (c s).2).2
    | Raise _ => (c s).2
    end.
Proof. unfold bind. by destruct (c s) as [[x|e] s']. Qed.

Lemma get_audit_state audit_name m : (get_audit audit_name m).2 = m.
Proof. unfold get_audit. by destruct (audits m !! audit_name). Qed.

Lemma run_keeps_name scope found_plugins db a :
  name (run MSG_PRIORITY_MEDIUM import_results IP Domain Url
            scope found_plugins db a).2 = name a.
Proof.
  unfold run, bind, modify, lift, get, AuditManager.send_msg. simpl.
  destruct scope as [audit_scope|e]; [| done].
  destruct found_plugins; simpl; [| done].
  destruct (AuditInvariants.store_targets_frame
              (get_targets IP Domain Url audit_scope)
              (set_database db (set_expecting_ack 0 a)))
    as (db' & -> & _).
  simpl. by destruct (import_results db').
Qed.

Lemma new_audit_state audit_name config_max_links scope found_plugins db m :
  (new_audit audit_name config_max_links scope found_plugins db m).2
  = mkRegistry
      (<[audit_name :=
           (run MSG_PRIORITY_MEDIUM import_results IP Domain Url
                scope found_plugins db
                (AuditManager.new_audit audit_name config_max_links
                                        pluginManager)).2]>
         (<[audit_name := AuditManager.new_audit audit_name config_max_links
                                                 pluginManager]> (audits m)))
      (trail m).
Proof.
  unfold AuditRegistry.new_audit. cbv zeta.
  change (name (AuditManager.new_audit audit_name config_max_links
                                       pluginManager)) with audit_name.
  rewrite bind_state. unfold modify. cbn [fst snd].
  rewrite bind_state, on_audit_state. unfold set_audits. cbn [audits trail].
  rewrite lookup_insert_eq.
  destruct (on_audit _ _ _).1; [by rewrite get_audit_state | done].
Qed.

(** X25: A new audit is registered before it runs: it is in the dictionary
    afterwards whether [run] returned or raised, it takes the place of an
    audit of the same name without closing it, and no other audit is
    touched. *)
Theorem new_audit_registers_before_running
    audit_name config_max_links scope found_plugins db m :
  let m' := (new_audit audit_name config_max_links scope found_plugins db m).2 in
  (∃ audit, audits m' !! audit_name = Some audit ∧ name audit = audit_name) ∧
  (∀ other, other ≠ audit_name → audits m' !! other = audits m !! other) ∧
  trail m' = trail m.
Proof.
  cbv zeta. rewrite new_audit_state. cbn [audits trail]. split.
  - eexists. split; [apply lookup_insert_eq | apply run_keeps_name].
  - split; [| done]. intros other Hother. by rewrite !lookup_insert_ne.
Qed.

(** X26: The end of an audit, through the registry: the last ACK of the
    report stage makes the audit post the request to stop it, and that
    request, dispatched in turn, takes the audit out of the dictionary
    (provided its database could be closed). *)
Theorem last_report_ack_ends_audit ack n audit m :
  message_type ack = MSG_TYPE_CONTROL →
  message_code ack = MSG_CONTROL_ACK →
  audit_name ack = Some n → n ≠ "" →
  audits m !! n = Some audit → name audit = n →
  is_report_started audit = true → expecting_ack audit = 1 →
  let stop := mkMessage MSG_TYPE_CONTROL MSG_CONTROL_STOP_AUDIT (InfoBool true)
                        (Some n) None MSG_PRIORITY_MEDIUM in
  let m1 := (dispatch_msg ack m).2 in
  (∃ audit1, audits m1 !! n = Some audit1 ∧
             outbox audit1 = outbox audit ++ [stop]) ∧
  trail m1 = trail m ∧
  (database_compact (trail m) n = Ok tt →
   database_close (trail m ++ [Compacted n]) n = Ok tt →
   audits (dispatch_msg stop m1).2 = delete n (audits m)).
Proof.
  intros Hty Hcode Hname Hn Hlook Haudit Hlatch Hcount. cbv zeta.
  assert (Hm1 :
    (dispatch_msg ack m).2
    = mkRegistry
        (<[n := set_outbox
                  (outbox audit ++
                   [mkMessage MSG_TYPE_CONTROL MSG_CONTROL_STOP_AUDIT
                              (InfoBool true) (Some n) None
                              MSG_PRIORITY_MEDIUM])
                  (set_expecting_ack 0 audit)]> (audits m))
        (trail m)).
  { unfold AuditRegistry.dispatch_msg. rewrite Hty, Hcode, Hname.
    apply String.eqb_neq in Hn. cbn [no_audit_name]. rewrite Hn.
    rewrite bind_state, on_audit_state, Hlook.
    rewrite (AuditInvariants.acknowledge_after_reports
               MSG_PRIORITY_LOW MSG_PRIORITY_MEDIUM pluginManager notifier
               report_manager_generate_reports ack audit Hlatch).
    rewrite Hcount, Haudit. cbn [Z.sub Z.eqb Z.opp Z.add Z.pos_sub].
    by destruct (on_audit _ _ _).1. }
  rewrite Hm1. cbn [audits trail]. rewrite lookup_insert_eq.
  split; [by eexists |]. split; [done |].
  intros Hcompact Hclose.
  unfold AuditRegistry.dispatch_msg. cbn [message_type message_code audit_name].
  apply String.eqb_neq in Hn. cbn [no_audit_name]. rewrite Hn.
  unfold bind at 1. unfold get_audit at 1. cbn [audits].
  rewrite lookup_insert_eq.
  rewrite bind_state, audit_close_result, audit_close_state.
  cbn [name set_outbox set_expecting_ack audits trail].
  rewrite Haudit, Hclose, Hcompact.
  rewrite bind_state, remove_audit_state.
  destruct (remove_audit n _).1 as [[]|e]; cbn [snd audits];
    by rewrite delete_insert_eq.
Qed.

End Registry.

(** *** The invariants at work on the sample registry *)

Local Abbreviation dispatch_demo :=
  (dispatch_msg 0 1 2 pm_demo (spec_notifier pm_demo) one_report
                returns returns returns returns).

Lemma dispatch_msg_touches_only_its_audit_witness :
  audit_name (stop_audit_msg (Some "audit-1")) ≠ Some "audit-2" ∧
  audits (dispatch_demo (stop_audit_msg (Some "audit-1")) registry_demo).2
    !! "audit-2"
  = audits registry_demo !! "audit-2".
Proof.
  assert (Hother : audit_name (stop_audit_msg (Some "audit-1")) ≠ Some "audit-2")
    by discriminate.
  split; [exact Hother |].
  apply (dispatch_msg_touches_only_its_audit 0 1 2 pm_demo
           (spec_notifier pm_demo) one_report returns returns returns returns
           (stop_audit_msg (Some "audit-1")) registry_demo "audit-2" Hother).
Defined.

Lemma stop_audit_closes_twice_witness :
  audits registry_demo !! "audit-1" = Some audit_reporting ∧
  trail (dispatch_demo (stop_audit_msg (Some "audit-1")) registry_demo).2
  = [Compacted "audit-1"; DbClosed "audit-1"; ReleasedSlots "audit-1";
     Compacted "audit-1"; DbClosed "audit-1"; CacheCleaned "audit-1"].
Proof.
  assert (Hlook : audits registry_demo !! "audit-1" = Some audit_reporting)
    by (vm_compute; reflexivity).
  split; [exact Hlook |].
  pose proof (stop_audit_closes_twice 0 1 2 pm_demo (spec_notifier pm_demo)
                one_report returns returns returns returns
                (stop_audit_msg (Some "audit-1")) "audit-1" audit_reporting
                registry_demo eq_refl eq_refl eq_refl) as Htwice.
  cbv zeta in Htwice.
  change (audit_close returns returns audit_reporting registry_demo).1
    with (@Ok unit tt) in Htwice.
  cbv beta iota in Htwice.
  destruct Htwice as [_ Htrail]; [discriminate | exact Hlook |].
  exact Htrail.
Defined.

Lemma last_report_ack_ends_audit_witness :
  is_report_started audit_reporting = true ∧
  expecting_ack audit_reporting = 1 ∧
  ∃ audit1,
    audits (dispatch_demo (ack_msg "audit-1" None None) registry_demo).2
      !! "audit-1" = Some audit1 ∧
    outbox audit1 = outbox audit_reporting ++ [stop_audit_msg (Some "audit-1")].
Proof.
  split; [reflexivity |]. split; [reflexivity |].
  destruct (last_report_ack_ends_audit 0 1 2 pm_demo (spec_notifier pm_demo)
              one_report returns returns returns returns
              (ack_msg "audit-1" None None) "audit-1" audit_reporting
              registry_demo) as [Hposted _].
  - reflexivity.
  - reflexivity.
  - reflexivity.
  - discriminate.
  - vm_compute. reflexivity.
  - reflexivity.
  - reflexivity.
  - reflexivity.
  - exact Hposted.
Defined.

End RegistryInvariants.

(** ** Invariants of the launcher and the pool *)

Module LaunchingInvariants.
Import Messaging ProcessManager Launching.

(** The plugin calls at the head of the reads, up to the first read that
    is not one. *)
Local Abbreviation call_reads calls :=
  (map (fun call => Got (CallPlugin call)) calls).

Section Pool.

Variable library : list PoolEvent → PoolEvent → result unit.

(** Split on how the next request to the library ends. *)
Local Ltac case_library :=
  lazymatch goal with
  | |- context [library ?t ?ev] => destruct (library t ev) as [[]|?]
  end.

Local Abbreviation request := (request library).
Local Abbreviation pool_run_plugin := (pool_run_plugin library).
Local Abbreviation pool_start := (pool_start library).
Local Abbreviation pool_stop := (pool_stop library).
Local Abbreviation consumer_loop := (consumer_loop library).
Local Abbreviation _launcher := (_launcher library).

(** With a pool whose requests all return, the loop submits the calls in
    order and leaves at the first read that is not a call. *)
Lemma consumer_loop_calls calls other rest s :
  (∀ t ev, library t ev = Ok tt) →
  has_pool s = true →
  (∀ call, other ≠ Got (CallPlugin call)) →
  consumer_loop (call_reads calls ++ other :: rest) s
  = (Ok (match other with
         | Got (Quit wait) => Exits wait (Ok tt)
         | _ => Exits false (Raise (SystemExit 1))
         end),
     mkPool (pool_max_processes s) (pool_refresh_after_tasks s) true
            (events s ++ map Submitted calls)).
Proof.
  intros Hlib Hpool Hother. revert s Hpool.
  induction calls as [|call calls IH]; intros s Hpool.
  - simpl. rewrite app_nil_r. destruct s; simpl in *; subst.
    destruct other as [[call|wait]|]; [by destruct (Hother call) | done | done].
  - cbn [map app consumer_loop].
    unfold Launching.pool_run_plugin, Launching.request.
    rewrite Hpool, Hlib. rewrite IH by done. simpl.
    by rewrite <- app_assoc.
Qed.

Lemma pool_start_multiprocessing n refresh :
  (∀ t ev, library t ev = Ok tt) → 0 < n →
  pool_start (new_pool_manager (Some n) refresh)
  = (Ok tt, mkPool (Some n) refresh true [PoolCreated n refresh; WarmedUp n]).
Proof.
  intros Hlib Hn. unfold Launching.pool_start, new_pool_manager. simpl.
  apply Z.ltb_lt in Hn. rewrite Hn.
  unfold bind, Launching.request, modify. simpl. by rewrite !Hlib.
Qed.

Lemma pool_stop_returns wait s :
  (∀ t ev, library t ev = Ok tt) → has_pool s = true →
  pool_stop wait s
  = (Ok tt,
     mkPool (pool_max_processes s) (pool_refresh_after_tasks s) false
            (events s ++ [if wait then PoolClosed else PoolTerminated;
                          PoolJoined; CacheCleared])).
Proof.
  intros Hlib Hpool. unfold Launching.pool_stop, bind. rewrite Hpool.
  unfold Launching.request, modify. simpl. rewrite !Hlib. simpl.
  by rewrite <- !app_assoc.
Qed.

Lemma launcher_first_other calls other rest n refresh :
  (∀ t ev, library t ev = Ok tt) → 0 < n →
  (∀ call, other ≠ Got (CallPlugin call)) →
  _launcher (call_reads calls ++ other :: rest) (Some n) refresh
  = (match other with
     | Got (Quit _) => Ok Finished
     | _ => Raise (SystemExit 1)
     end,
     mkPool (Some n) refresh false
            ([PoolCreated n refresh; WarmedUp n] ++ map Submitted calls ++
             [match other with
              | Got (Quit true) => PoolClosed
              | _ => PoolTerminated
              end; PoolJoined; CacheCleared])).
Proof.
  intros Hlib Hn Hother. unfold Launching._launcher.
  unfold bind at 1. rewrite pool_start_multiprocessing by done.
  unfold bind at 1. rewrite consumer_loop_calls by done.
  destruct other as [[call|[|]]|]; [by destruct (Hother call) | | |];
    unfold bind, try_finally, try_except, lift;
    rewrite pool_stop_returns by done; simpl; by rewrite <- ?app_assoc.
Qed.

(** X27: The launcher serves its queue in order: with a pool whose requests
    all return, every call read before the message to quit is submitted
    to the pool, in the order read; then the pool is closed when the
    message says to wait and terminated when it says not to, and joined;
    what is in the queue behind the message is never read. *)
Theorem launcher_serves_calls_until_quit calls wait rest n refresh :
  (∀ t ev, library t ev = Ok tt) → 0 < n →
  _launcher (call_reads calls ++ Got (Quit wait) :: rest) (Some n) refresh
  = (Ok Finished,
     mkPool (Some n) refresh false
            ([PoolCreated n refresh; WarmedUp n] ++ map Submitted calls ++
             [if wait then PoolClosed else PoolTerminated;
              PoolJoined; CacheCleared])).
Proof.
  intros Hlib Hn. rewrite launcher_first_other by done. by destruct wait.
Qed.

(** When the queue fails (the parent is gone), the launcher terminates the
    pool instead of closing it, and exits with code 1. *)
Theorem launcher_parent_gone calls rest n refresh :
  (∀ t ev, library t ev = Ok tt) → 0 < n →
  _launcher (call_reads calls ++ GetFailed :: rest) (Some n) refresh
  = (Raise (SystemExit 1),
     mkPool (Some n) refresh false
            ([PoolCreated n refresh; WarmedUp n] ++ map Submitted calls ++
             [PoolTerminated; PoolJoined; CacheCleared])).
Proof. intros Hlib Hn. by rewrite launcher_first_other. Qed.

(** *** What the launcher never does *)

Lemma served_app evs1 evs2 : served (evs1 ++ evs2) = served evs1 ++ served evs2.
Proof. apply omap_app. Qed.

Lemma pool_start_served s :
  served (events (pool_start s).2) = served (events s).
Proof.
  unfold Launching.pool_start.
  destruct (has_pool s); [done |].
  destruct (pool_max_processes s) as [n|]; [| done].
  destruct (0 <? n); [| done].
  unfold bind, Launching.request, modify. simpl.
  repeat case_library; simpl; rewrite ?served_app; simpl;
    by rewrite ?app_nil_r.
Qed.

Lemma pool_stop_served wait s :
  served (events (try_except (pool_stop wait) (fun _ => true)
                             (fun _ => exit 1) s).2)
  = served (events s).
Proof.
  unfold try_except, Launching.pool_stop, bind.
  destruct (has_pool s); [| by simpl; rewrite served_app, app_nil_r].
  unfold Launching.request, modify. simpl.
  repeat case_library; simpl; rewrite ?served_app;
    destruct wait; simpl; by rewrite ?app_nil_r.
Qed.

Lemma consumer_loop_served reads :
  ∀ s, ∃ k,
    served (events (consumer_loop reads s).2)
    = served (events s) ++ take k (leading_calls reads).
Proof.
  induction reads as [|read reads IH]; intros s.
  { exists 0%nat. simpl. by rewrite app_nil_r. }
  destruct read as [[call|wait]|];
    [| exists 0%nat; simpl; by rewrite app_nil_r ..].
  cbn [consumer_loop leading_calls].
  unfold Launching.pool_run_plugin, Launching.request.
  destruct (has_pool s);
    (case_library;
     [ match goal with
       | |- context [consumer_loop reads ?s1] =>
           destruct (IH s1) as [k Hk]; exists (S k); rewrite Hk
       end;
       simpl; rewrite served_app; simpl; by rewrite <- app_assoc
     | exists 1%nat; simpl; rewrite served_app; simpl; by rewrite take_0 ]).
Qed.

(** X28: Whatever the pool and the plugins do, and in either mode, the calls
    the launcher has run are an initial part of the calls at the head of
    its queue, in their order: it runs no call twice, none out of turn,
    and none that was put behind a message to quit or read after a
    failure of the queue. *)
Theorem launcher_never_runs_past_quit reads max_process refresh :
  served (events (_launcher reads max_process refresh).2)
  `prefix_of` leading_calls reads.
Proof.
  unfold Launching._launcher.
  set (s0 := new_pool_manager max_process refresh).
  pose proof (pool_start_served s0) as Hstart.
  unfold bind at 1. destruct (pool_start s0) as [[[]|e] s1]; simpl in Hstart.
  2:{ simpl. rewrite Hstart. apply prefix_nil. }
  destruct (consumer_loop_served reads s1) as [k Hk].
  rewrite Hstart in Hk. simpl in Hk.
  unfold bind at 1.
  destruct (consumer_loop reads s1) as [[left|e] s2]; simpl in Hk.
  2:{ simpl. rewrite Hk. apply prefix_take. }
  destruct left as [|wait outcome].
  { simpl. rewrite Hk. apply prefix_take. }
  unfold bind, try_finally, lift.
  pose proof (pool_stop_served wait s2) as Hstop.
  destruct (try_except (pool_stop wait) _ _ s2) as [[[]|e] s3];
    simpl in Hstop; (destruct outcome as [[]|e']; simpl; rewrite Hstop, Hk;
                     apply prefix_take).
Qed.

End Pool.

(** *** The launcher object and the process manager *)

Section Host.

Variable host_library : list HostEvent → HostEvent → result unit.
Variable bootstrap : PluginCall → result unit.

Local Abbreviation host_request := (host_request host_library).
Local Abbreviation launcher_run_plugin := (launcher_run_plugin host_library).
Local Abbreviation launcher_start := (launcher_start host_library).
Local Abbreviation launcher_stop := (launcher_stop host_library).
Local Abbreviation run_plugin := (run_plugin host_library bootstrap).
Local Abbreviation start := (start host_library).
Local Abbreviation stop := (stop host_library).

Local Abbreviation stopped_error :=
  (Exception "RuntimeError" "Plugin launcher was stopped").

(** The requests of [stop] that follow the message to quit. *)
Local Abbreviation joining wait :=
  (if wait%bool then [ProcessJoined None]
   else [ProcessJoined (Some 3); ProcessTerminated]).

(** How the three requests of [stop] end. *)
Local Abbreviation put_quit l wait :=
  (host_library (host_events l) (Put (Quit wait))).
Local Abbreviation join l wait :=
  (host_library (host_events l ++ [Put (Quit wait)])
                (ProcessJoined (if wait%bool then None else Some 3))).
Local Abbreviation terminate l :=
  (host_library (host_events l ++ [Put (Quit false); ProcessJoined (Some 3)])
                ProcessTerminated).

(** [stop] on a live launcher, request by request. *)
Lemma launcher_stop_unfold l wait :
  alive l = true →
  launcher_stop wait l
  = match put_quit l wait with
    | Raise e => (Raise e, mkLauncher true (host_events l ++ [Put (Quit wait)]))
    | Ok _ =>
        match join l wait with
        | Raise e =>
            (Raise e,
             mkLauncher true
               (host_events l ++
                [Put (Quit wait);
                 ProcessJoined (if wait then None else Some 3)]))
        | Ok _ =>
            let stopped_launcher :=
              mkLauncher false
                (host_events l ++ Put (Quit wait) :: joining wait) in
            if wait then (Ok tt, stopped_launcher)
            else
              match terminate l with
              | Ok _ => (Ok tt, stopped_launcher)
              | Raise e =>
                  if is_Exception e then (Ok tt, stopped_launcher)
                  else
                    (Raise e,
                     mkLauncher true
                       (host_events l ++ Put (Quit wait) :: joining wait))
              end
        end
    end.
Proof.
  intros Halive.
  unfold Launching.launcher_stop. rewrite Halive. cbn [negb].
  unfold bind at 1. unfold Launching.host_request at 1. rewrite Halive.
  destruct (host_library (host_events l) (Put (Quit wait))) as [[]|e1];
    [| done].
  cbn [host_events alive]. destruct wait.
  - unfold bind, Launching.host_request, modify. cbn [host_events alive].
    destruct (host_library _ (ProcessJoined None)) as [[]|e2];
      cbn [host_events]; by rewrite <- app_assoc.
  - unfold bind at 1. unfold bind at 1.
    unfold Launching.host_request at 1. cbn [host_events alive].
    destruct (host_library _ (ProcessJoined (Some 3))) as [[]|e2];
      [| by rewrite <- app_assoc].
    unfold try_except, Launching.host_request, modify, ret.
    cbn [host_events alive]. rewrite <- !app_assoc. cbn [app].
    destruct (host_library _ ProcessTerminated) as [[]|e3]; [done |].
    by destruct (is_Exception e3).
Qed.

Lemma launcher_stop_state l wait :
  alive l = true →
  put_quit l wait = Ok tt → join l wait = Ok tt →
  (wait = false → ∀ e, terminate l = Raise e → is_Exception e = true) →
  launcher_stop wait l
  = (Ok tt,
     mkLauncher false (host_events l ++ Put (Quit wait) :: joining wait)).
Proof.
  intros Halive Hput Hjoin Hterm.
  rewrite launcher_stop_unfold by done. rewrite Hput, Hjoin. cbv zeta.
  destruct wait; [done |].
  destruct (terminate l) as [[]|e]; [done |].
  by rewrite (Hterm eq_refl e eq_refl).
Qed.

(** X29: stopping a launcher is final, once it has worked.  On a live
    launcher [stop] returns exactly when the message to quit could be put
    on the queue and the process could be joined (what [terminate]
    raises is dropped if it is an [Exception]); it has then put that one
    message on the queue and lowered the flag.  When one of the requests
    raises, [stop] raises with it and the launcher stays alive.  Once the
    flag is down, [run_plugin], [start] and [stop] raise [RuntimeError]
    and ask nothing of the queue or the process. *)
Theorem launcher_stop_is_final l wait :
  alive l = true →
  ((launcher_stop wait l).1 = Ok tt ↔
   put_quit l wait = Ok tt ∧ join l wait = Ok tt ∧
   (wait = false → ∀ e, terminate l = Raise e → is_Exception e = true)) ∧
  (alive (launcher_stop wait l).2 = false ↔ (launcher_stop wait l).1 = Ok tt) ∧
  ((launcher_stop wait l).1 = Ok tt →
   host_events (launcher_stop wait l).2
   = host_events l ++ Put (Quit wait) :: joining wait) ∧
  (∀ l', alive l' = false →
     (∀ call, launcher_run_plugin call l' = (Raise stopped_error, l')) ∧
     launcher_start l' = (Raise stopped_error, l') ∧
     (∀ wait', launcher_stop wait' l' = (Raise stopped_error, l'))).
Proof.
  intros Halive. rewrite launcher_stop_unfold by done. cbv zeta.
  split; [| split; [| split]].
  - destruct (put_quit l wait) as [[]|e1]; [| by split; [| intros []]].
    destruct (join l wait) as [[]|e2];
      [| by split; [| intros (_ & ? & _)]].
    destruct wait; [by split |].
    destruct (terminate l) as [[]|e3]; [by split |].
    destruct (is_Exception e3) eqn:Hcaught; cbn [fst].
    + split; [| done]. intros _. repeat split; try done.
      by intros _ e [= <-].
    + split; [done |]. intros (_ & _ & Hterm).
      specialize (Hterm eq_refl e3 eq_refl). congruence.
  - destruct (put_quit l wait) as [[]|e1]; [| by split].
    destruct (join l wait) as [[]|e2]; [| by split].
    destruct wait; [by split |].
    destruct (terminate l) as [[]|e3]; [by split |].
    destruct (is_Exception e3); by split.
  - destruct (put_quit l wait) as [[]|e1]; [| done].
    destruct (join l wait) as [[]|e2]; [| done].
    destruct wait; [done |].
    destruct (terminate l) as [[]|e3]; [done |].
    by destruct (is_Exception e3).
  - intros l' Hdown.
    unfold Launching.launcher_run_plugin, Launching.launcher_start,
      Launching.launcher_stop.
    rewrite Hdown. done.
Qed.

Lemma start_multiprocessing pm n :
  host_cooperates host_library →
  launcher pm = None → max_processes pm = Some n → 0 < n →
  start pm
  = (Ok tt,
     mkProcessManager (Some n) (refresh_after_tasks pm) (Some true)
                      (host_trail pm ++
                       [LauncherCreated n (refresh_after_tasks pm);
                        ProcessStarted])).
Proof.
  intros [Hlib _] Hnone Hmax Hn. unfold Launching.start. rewrite Hnone, Hmax.
  apply Z.ltb_lt in Hn. rewrite Hn.
  unfold bind, new_launcher, on_launcher, Launching.launcher_start,
    Launching.host_request.
  cbn [launcher max_processes refresh_after_tasks host_trail alive
       host_events negb].
  rewrite !Hlib by done. cbn [launcher alive host_events negb].
  rewrite ?Hlib by done. rewrite ?Hmax. by rewrite <- ?app_assoc.
Qed.

Lemma run_plugin_queued call pm :
  host_cooperates host_library →
  launcher pm = Some true →
  run_plugin call pm
  = (Ok tt,
     mkProcessManager (max_processes pm) (refresh_after_tasks pm) (Some true)
                      (host_trail pm ++ [Put (CallPlugin call)])).
Proof.
  intros [Hlib _] Hlauncher. unfold Launching.run_plugin. rewrite Hlauncher.
  unfold bind, on_launcher. rewrite Hlauncher.
  unfold Launching.launcher_run_plugin, Launching.host_request.
  cbn [alive negb host_events]. by rewrite Hlib.
Qed.

Lemma run_plugins_queued calls :
  host_cooperates host_library →
  ∀ pm, launcher pm = Some true →
  for_each calls run_plugin pm
  = (Ok tt,
     mkProcessManager (max_processes pm) (refresh_after_tasks pm) (Some true)
                      (host_trail pm ++
                       map (fun call => Put (CallPlugin call)) calls)).
Proof.
  intros Hcoop.
  induction calls as [|call calls IH]; intros pm Hlauncher.
  - simpl. rewrite app_nil_r. unfold ret. by destruct pm; simpl in *; subst.
  - cbn [for_each]. unfold bind. rewrite run_plugin_queued by done.
    rewrite IH by done. simpl. by rewrite <- app_assoc.
Qed.

Lemma stop_running wait pm :
  host_cooperates host_library →
  launcher pm = Some true →
  stop wait pm
  = (Ok tt,
     mkProcessManager (max_processes pm) (refresh_after_tasks pm) None
                      (host_trail pm ++ Put (Quit wait) :: joining wait)).
Proof.
  intros [Hlib Hterm] Hlauncher. unfold Launching.stop. rewrite Hlauncher.
  unfold bind, on_launcher. rewrite Hlauncher.
  rewrite (launcher_stop_state (mkLauncher true (host_trail pm)) wait);
    [done | done | by apply Hlib | by destruct wait; apply Hlib |].
  intros _ e He. by eapply Hterm.
Qed.

Lemma queue_reads_app t1 t2 :
  queue_reads (t1 ++ t2) = queue_reads t1 ++ queue_reads t2.
Proof. apply omap_app. Qed.

Lemma queue_reads_puts calls :
  queue_reads (map (fun call => Put (CallPlugin call)) calls)
  = call_reads calls.
Proof. induction calls as [|call calls IH]; [done |]. simpl. by f_equal. Qed.

(** X30: from the Orchestrator to the pool and back: started in
    multiprocessing mode, a process manager that is handed some plugin
    calls and then stopped has put on the queue those calls, in order,
    and the message to quit after them, and holds no launcher any more;
    the launcher process that reads this queue submits exactly those
    calls to its pool, in that order, and then closes or terminates the
    pool as [stop] was told.  (The queue and the launcher process do as
    asked, and so does the pool.) *)
Theorem process_manager_round_trip library calls wait pm n :
  host_cooperates host_library →
  (∀ t ev, library t ev = Ok tt) →
  launcher pm = None → max_processes pm = Some n → 0 < n →
  host_trail pm = [] →
  let session :=
    let* _ := start in
    let* _ := for_each calls run_plugin in
    stop wait in
  (session pm).1 = Ok tt ∧
  launcher (session pm).2 = None ∧
  queue_reads (host_trail (session pm).2)
  = call_reads calls ++ [Got (Quit wait)] ∧
  _launcher library (queue_reads (host_trail (session pm).2)) (Some n)
            (refresh_after_tasks pm)
  = (Ok Finished,
     mkPool (Some n) (refresh_after_tasks pm) false
            ([PoolCreated n (refresh_after_tasks pm); WarmedUp n] ++
             map Submitted calls ++
             [if wait then PoolClosed else PoolTerminated;
              PoolJoined; CacheCleared])).
Proof.
  intros Hcoop Hlib Hnone Hmax Hn Htrail. cbv zeta.
  assert (Hrun :
    (let* _ := start in
     let* _ := for_each calls run_plugin in
     stop wait) pm
    = (Ok tt,
       mkProcessManager (Some n) (refresh_after_tasks pm) None
         ([LauncherCreated n (refresh_after_tasks pm); ProcessStarted] ++
          map (fun call => Put (CallPlugin call)) calls ++
          Put (Quit wait) :: joining wait))).
  { unfold bind at 1. rewrite (start_multiprocessing pm n) by done.
    unfold bind at 1. rewrite run_plugins_queued by done.
    rewrite stop_running by done. simpl. rewrite Htrail. simpl.
    by rewrite <- ?app_assoc. }
  rewrite Hrun. cbn [fst snd launcher host_trail].
  assert (Hreads :
    queue_reads
      ([LauncherCreated n (refresh_after_tasks pm); ProcessStarted] ++
       map (fun call => Put (CallPlugin call)) calls ++
       Put (Quit wait) :: joining wait)
    = call_reads calls ++ [Got (Quit wait)]).
  { rewrite !queue_reads_app, queue_reads_puts. by destruct wait. }
  rewrite Hreads. split; [done |]. split; [done |]. split; [done |].
  rewrite launcher_first_other by done. by destruct wait.
Qed.

(** A process manager that was stopped keeps working: it holds no
    launcher afterwards, so a later plugin call does not fail but runs in
    the Orchestrator's own process, ending as [bootstrap] ends. *)
Theorem run_plugin_after_stop_runs_in_place pm wait call :
  host_cooperates host_library →
  launcher pm = Some true ∨ launcher pm = None →
  let pm' := (stop wait pm).2 in
  (stop wait pm).1 = Ok tt ∧
  launcher pm' = None ∧
  run_plugin call pm'
  = (bootstrap call,
     mkProcessManager (max_processes pm) (refresh_after_tasks pm) None
                      (host_trail pm' ++ [Bootstrapped call])).
Proof.
  intros Hcoop [Hlauncher | Hlauncher]; cbv zeta.
  - rewrite stop_running by done. done.
  - unfold Launching.stop. rewrite Hlauncher. cbn [fst snd].
    unfold Launching.run_plugin. by rewrite Hlauncher.
Qed.

(** Single process mode: with no process count configured, or one that is
    not positive, [start] creates no launcher and every plugin call runs
    in the Orchestrator's own process. *)
Theorem single_process_mode_runs_in_place pm call :
  launcher pm = None → multiprocessing_mode (max_processes pm) = false →
  start pm = (Ok tt, pm) ∧
  run_plugin call pm
  = (bootstrap call,
     mkProcessManager (max_processes pm) (refresh_after_tasks pm) None
                      (host_trail pm ++ [Bootstrapped call])).
Proof.
  intros Hlauncher Hmode. unfold Launching.start, Launching.run_plugin.
  rewrite Hlauncher. split; [| done].
  unfold multiprocessing_mode in Hmode.
  destruct (max_processes pm) as [n|] eqn:Hmax.
  - rewrite Hmode. unfold set_launcher. rewrite Hmax.
    destruct pm; simpl in *; by subst.
  - unfold set_launcher. rewrite Hmax. destruct pm; simpl in *; by subst.
Qed.

End Host.

(** *** The invariants at work on the sample calls *)

Lemma host_returns_cooperates : host_cooperates host_returns.
Proof. split; [done |]. intros t e Hraise. discriminate Hraise. Qed.

Lemma launcher_serves_calls_until_quit_witness :
  _launcher library_returns
            [Got (CallPlugin call_demo); Got (Quit true);
             Got (CallPlugin call_demo)]
            (Some 4) None
  = (Ok Finished,
     mkPool (Some 4) None false
            [PoolCreated 4 None; WarmedUp 4; Submitted call_demo;
             PoolClosed; PoolJoined; CacheCleared]).
Proof.
  apply (launcher_serves_calls_until_quit library_returns [call_demo] true
           [Got (CallPlugin call_demo)] 4 None).
  - reflexivity.
  - reflexivity.
Defined.

Lemma launcher_stop_is_final_witness :
  alive launcher_demo = true ∧
  alive (launcher_stop host_returns false launcher_demo).2 = false ∧
  launcher_start host_returns
                 (launcher_stop host_returns false launcher_demo).2
  = (Raise (Exception "RuntimeError" "Plugin launcher was stopped"),
     (launcher_stop host_returns false launcher_demo).2).
Proof.
  split; [reflexivity |].
  destruct (launcher_stop_is_final host_returns launcher_demo false eq_refl)
    as (_ & Hflag & _ & Hfinal).
  assert (Hdown : alive (launcher_stop host_returns false launcher_demo).2
                  = false) by (apply Hflag; reflexivity).
  split; [exact Hdown |].
  exact (proj1 (proj2 (Hfinal _ Hdown))).
Defined.

Lemma process_manager_round_trip_witness :
  launcher process_manager_demo = None ∧
  queue_reads
    (host_trail
       ((let* _ := start host_returns in
         let* _ := for_each [call_demo]
                            (run_plugin host_returns bootstrap_returns) in
         stop host_returns true) process_manager_demo).2)
  = [Got (CallPlugin call_demo)] ++ [Got (Quit true)].
Proof.
  split; [reflexivity |].
  apply (process_manager_round_trip host_returns bootstrap_returns
           library_returns [call_demo] true process_manager_demo 4).
  - exact host_returns_cooperates.
  - reflexivity.
  - reflexivity.
  - reflexivity.
  - reflexivity.
  - reflexivity.
Defined.

End LaunchingInvariants.
